(** * doc-converter: a shallow embedding of [src/convert.ts]

    The program converts [.doc], [.docx] and [.pdf] files to Markdown,
    one file or one directory at a time.  Its own code is file-system
    orchestration around third-party parsers; the embedding therefore
    consists of

    - the JavaScript string and [node:path] functions the code calls,
    - a model of the [node:fs/promises] calls over a finite map from
      resolved paths to nodes,
    - a state-and-exception monad in which the [async] functions of
      [convert.ts] are written line by line, and
    - the third-party collaborators (mammoth, turndown, pdf-parse, the
      [soffice] subprocess, the random suffix of [mkdtemp]) as the fields
      of a class [Platform]: every theorem holds for all its instances.

    The theorems named [C1] to [C10] are the claims of the specification;
    [C2] records a run in which the code leaves its temporary directory
    behind.  The theorems named [X1] to [X18] are further properties of
    the code: of the adapter, of the two orchestrators and [main], of the
    names of the targets and of the text of a PDF. *)

From Stdlib Require Import ZArith Ascii String List Bool Lia.
From stdpp Require Import base option list gmap strings fin_maps.

Open Scope string_scope.
Open Scope list_scope.
Open Scope Z_scope.

(** ** JavaScript strings

    A string of the model is a Rocq [string]: a sequence of characters
    with codes 0..255, read as the UTF-16 code units U+0000..U+00FF.  The
    functions below are the ECMAScript ones restricted to that range. *)

Module Js.

Definition chars (s : string) : list ascii := list_ascii_of_string s.
Definition str (l : list ascii) : string := string_of_list_ascii l.

Definition code (c : ascii) : N := N_of_ascii c.

(** [WhiteSpace] and [LineTerminator] code points below U+0100: TAB, LF,
    VT, FF, CR, SP and NBSP.  [String.prototype.trim] strips exactly
    these (and the ones above U+00FF, which the model has no characters
    for). *)
Definition is_space (c : ascii) : bool :=
  let n := code c in
  ((9 <=? n) && (n <=? 13) || (n =? 32) || (n =? 160))%N.

Fixpoint trimStart_chars (l : list ascii) : list ascii :=
  match l with
  | c :: l' => if is_space c then trimStart_chars l' else l
  | [] => []
  end.

Definition trimEnd_chars (l : list ascii) : list ascii :=
  rev (trimStart_chars (rev l)).

Definition trim_chars (l : list ascii) : list ascii :=
  trimEnd_chars (trimStart_chars l).

(** [s.trim()] *)
Definition trim (s : string) : string := str (trim_chars (chars s)).

(** [s.length > 0], which is also the truthiness of a string. *)
Definition nonempty (s : string) : bool :=
  match s with EmptyString => false | String _ _ => true end.

(** [s.split(sep)] for a one-character separator: the pieces between
    the separators; the empty string gives one empty piece. *)
Fixpoint split_chars (sep : ascii) (cur : list ascii) (l : list ascii)
  : list (list ascii) :=
  match l with
  | [] => [rev cur]
  | c :: l' =>
      if Ascii.eqb c sep then rev cur :: split_chars sep [] l'
      else split_chars sep (c :: cur) l'
  end.

Definition split (sep : ascii) (s : string) : list string :=
  map str (split_chars sep [] (chars s)).

(** [a.join(sep)] *)
Fixpoint join (sep : string) (l : list string) : string :=
  match l with
  | [] => ""
  | [s] => s
  | s :: l' => s +:+ sep +:+ join sep l'
  end.

(** [String.prototype.toLowerCase] on U+0000..U+00FF: A-Z and the
    Latin-1 capitals U+00C0..U+00DE (without the multiplication sign
    U+00D7) move up by 32. *)
Definition lower_char (c : ascii) : ascii :=
  let n := code c in
  if ((65 <=? n) && (n <=? 90)
      || (192 <=? n) && (n <=? 222) && negb (n =? 215))%N
  then ascii_of_N (n + 32) else c.

Definition toLowerCase (s : string) : string :=
  str (map lower_char (chars s)).

(** [s.slice(from, to)] for [0 <= from <= to]. *)
Definition slice (s : string) (from to : Z) : string :=
  str (take (Z.to_nat (to - from)) (drop (Z.to_nat from) (chars s))).

(** [s.endsWith(suffix)] *)
Definition endsWith (s suff : string) : bool :=
  bool_decide (suffix (chars suff) (chars s)).

End Js.

(** ** [node:path] (POSIX flavour)

    [extname] follows Node's implementation statement by statement: one
    backwards scan over the characters that stops at the first separator
    after the last component. *)

Module Path.

Record ext_scan := {
  startDot : Z;
  startPart : Z;
  end_ : Z;
  matchedSlash : bool;
  preDotState : Z
}.

Definition ext_scan0 : ext_scan :=
  {| startDot := -1; startPart := 0; end_ := -1;
     matchedSlash := true; preDotState := 0 |}.

(** The body of [for (let i = path.length - 1; i >= 0; --i)], with [n]
    the number of indices still to visit ([i = n - 1]). *)
Fixpoint ext_loop (cs : list ascii) (n : nat) (st : ext_scan) : ext_scan :=
  match n with
  | O => st
  | S i =>
      let char := nth i cs "/"%char in
      if Ascii.eqb char "/" then
        if negb (matchedSlash st) then
          {| startDot := startDot st; startPart := Z.of_nat i + 1;
             end_ := end_ st; matchedSlash := matchedSlash st;
             preDotState := preDotState st |}
        else ext_loop cs i st
      else
        let st1 :=
          if end_ st =? -1 then
            {| startDot := startDot st; startPart := startPart st;
               end_ := Z.of_nat i + 1; matchedSlash := false;
               preDotState := preDotState st |}
          else st in
        let st2 :=
          if Ascii.eqb char "." then
            if startDot st1 =? -1 then
              {| startDot := Z.of_nat i; startPart := startPart st1;
                 end_ := end_ st1; matchedSlash := matchedSlash st1;
                 preDotState := preDotState st1 |}
            else if negb (preDotState st1 =? 1) then
              {| startDot := startDot st1; startPart := startPart st1;
                 end_ := end_ st1; matchedSlash := matchedSlash st1;
                 preDotState := 1 |}
            else st1
          else if negb (startDot st1 =? -1) then
            {| startDot := startDot st1; startPart := startPart st1;
               end_ := end_ st1; matchedSlash := matchedSlash st1;
               preDotState := -1 |}
          else st1 in
        ext_loop cs i st2
  end.

(** [path.extname(p)] *)
Definition extname (p : string) : string :=
  let cs := Js.chars p in
  let st := ext_loop cs (length cs) ext_scan0 in
  if (startDot st =? -1) || (end_ st =? -1) || (preDotState st =? 0)
     || ((preDotState st =? 1) && (startDot st =? end_ st - 1)
         && (startDot st =? startPart st + 1))
  then ""
  else Js.slice p (startDot st) (end_ st).

(** [path.basename(name, suffix)] on a single path component [name]
    (no separator in it): the suffix is cut off when the name ends with
    it; a name equal to the suffix gives the empty string. *)
Definition basename (name ext : string) : string :=
  if Js.nonempty ext
     && (String.length ext <=? String.length name)%nat then
    if String.eqb ext name then ""
    else if Js.endsWith name ext then
      Js.slice name 0
        (Z.of_nat (String.length name) - Z.of_nat (String.length ext))
    else name
  else name.

(** Resolved paths.  [path.resolve] returns an absolute, normalised
    path; the model keeps it as the list of its components from the
    root, so that [path.join(dir, name)] appends a component and
    [path.dirname] removes the last one. *)
Definition join (dir : list string) (name : string) : list string :=
  dir ++ [name].

Definition dirname (p : list string) : list string := removelast p.

(** The last component, [path.basename(p)]; the root has none. *)
Definition name (p : list string) : string := List.last p "".

(** [path.extname] of a resolved path is that of its last component. *)
Definition extname_of (p : list string) : string := extname (name p).

End Path.


Abbreviation path := (list string).

(** ** Errors

    What a [catch] clause can receive.  Errors raised by [node:fs] and by
    [spawn] carry a [code]; the [new Error(...)] of [convert.ts] and the
    errors of the third-party parsers carry none. *)

Inductive errno :=
  ENOENT | ENOTDIR | EEXIST | EISDIR | ERR_FS_EISDIR | ENXIO.

Inductive syscall :=
  | SysStat | SysAccess | SysMkdir | SysRm | SysReadFile | SysWriteFile
  | SysReaddir | SysMkdtemp | SysSpawn.

(** The [reason] of line 76: a signal name, or else the exit code. *)
Inductive lo_reason :=
  | BySignal (signal : string)
  | ByExitCode (code : option Z).

Inductive error :=
  | SysError (code : errno) (call : syscall) (p : path)
  | UnsupportedFileType (p : path)      (* line 140 *)
  | UnsupportedInputFile (p : path)     (* line 149 *)
  | OutputIsDirectory                   (* line 157 *)
  | LibreOfficeFailed (r : lo_reason)   (* line 77  *)
  | InputNotFileOrDirectory             (* line 238 *)
  | LibraryError (lib msg : string).    (* mammoth, pdf-parse *)

(** [error.code] *)
Definition error_code (e : error) : option errno :=
  match e with
  | SysError c _ _ => Some c
  | _ => None
  end.

#[global] Instance errno_eq_dec : EqDecision errno.
Proof. solve_decision. Defined.

Inductive Res (A : Type) :=
  | Ok (a : A)
  | Throw (e : error).
Arguments Ok {A} a.
Arguments Throw {A} e.

(** ** The file system

    A finite map from resolved paths to nodes; the root directory is
    always there and is not stored. *)

Inductive node :=
  | File (content : string)
  | Dir
  | Special.   (* a socket, a device, ...: neither isFile() nor isDirectory() *)

#[global] Instance node_eq_dec : EqDecision node.
Proof. solve_decision. Defined.

Abbreviation FS := (gmap (list string) node).

Module Fs.

Definition node_at (fs : FS) (p : path) : option node :=
  match p with
  | [] => Some Dir
  | _ => fs !! p
  end.

Definition isFile (n : node) : bool :=
  match n with File _ => true | _ => false end.

Definition isDirectory (n : node) : bool :=
  match n with Dir => true | _ => false end.

(** The proper prefixes of a path: its ancestors, the root first. *)
Definition ancestors (p : path) : list path :=
  map (fun n => take n p) (seq 0 (length p)).

(** Why a lookup of a missing path fails: [ENOTDIR] when the walk meets
    a non-directory on the way, [ENOENT] otherwise. *)
Definition missing (fs : FS) (p : path) : errno :=
  if existsb
       (fun q => match node_at fs q with
                 | Some (File _) | Some Special => true
                 | _ => false
                 end)
       (ancestors p)
  then ENOTDIR else ENOENT.

(** [fs.stat(p)] *)
Definition stat (fs : FS) (p : path) : Res node :=
  match node_at fs p with
  | Some n => Ok n
  | None => Throw (SysError (missing fs p) SysStat p)
  end.

(** [fs.access(p)] *)
Definition access (fs : FS) (p : path) : Res unit :=
  match node_at fs p with
  | Some _ => Ok tt
  | None => Throw (SysError (missing fs p) SysAccess p)
  end.

(** [fs.mkdir(p, { recursive: true })]: every missing component of [p]
    is created, from the root down; directories that exist are left as
    they are; a non-directory on the way is an error and nothing is
    created. *)
Fixpoint mkdir_from (target : path) (cur : path) (rest : list string)
    (fs : FS) : Res FS :=
  match rest with
  | [] => Ok fs
  | c :: rest' =>
      let q := cur ++ [c] in
      match fs !! q with
      | Some Dir => mkdir_from target q rest' fs
      | Some _ =>
          Throw (SysError (match rest' with [] => EEXIST | _ => ENOTDIR end)
                          SysMkdir target)
      | None => mkdir_from target q rest' (<[q := Dir]> fs)
      end
  end.

Definition mkdir_recursive (fs : FS) (p : path) : Res FS :=
  mkdir_from p [] p fs.

(** [fs.rm(p, { force: true })]: a missing path is not an error, a
    directory is. *)
Definition rm_force (fs : FS) (p : path) : Res FS :=
  match node_at fs p with
  | Some Dir => Throw (SysError ERR_FS_EISDIR SysRm p)
  | Some _ => Ok (delete p fs)
  | None =>
      match missing fs p with
      | ENOENT => Ok fs
      | c => Throw (SysError c SysRm p)
      end
  end.

(** [fs.rm(p, { recursive: true, force: true })]: [p] and everything
    below it disappears. *)
Definition rm_recursive_force (fs : FS) (p : path) : FS :=
  filter (fun kv => ¬ (p `prefix_of` kv.1)) fs.

(** [fs.readFile(p)] *)
Definition readFile (fs : FS) (p : path) : Res string :=
  match node_at fs p with
  | Some (File c) => Ok c
  | Some Dir => Throw (SysError EISDIR SysReadFile p)
  | Some Special => Throw (SysError ENXIO SysReadFile p)
  | None => Throw (SysError (missing fs p) SysReadFile p)
  end.

(** [fs.writeFile(p, data, "utf8")]: the whole content is replaced; the
    directory of [p] must exist. *)
Definition writeFile (fs : FS) (p : path) (data : string) : Res FS :=
  match node_at fs p with
  | Some Dir => Throw (SysError EISDIR SysWriteFile p)
  | Some Special => Ok fs
  | Some (File _) => Ok (<[p := File data]> fs)
  | None =>
      match node_at fs (Path.dirname p) with
      | Some Dir => Ok (<[p := File data]> fs)
      | _ => Throw (SysError (missing fs p) SysWriteFile p)
      end
  end.

(** A directory entry, [fs.Dirent]. *)
Record Dirent := { name : string; kind : node }.

Definition entry_of (d : path) (kv : path * node) : option Dirent :=
  if bool_decide (kv.1 = Path.join d (Path.name kv.1) ∧ kv.1 ≠ [])
  then Some {| name := Path.name kv.1; kind := kv.2 |}
  else None.

(** [fs.readdir(d, { withFileTypes: true })]; the order of the entries
    is the one of the map, which no theorem depends on. *)
Definition readdir (fs : FS) (d : path) : Res (list Dirent) :=
  match node_at fs d with
  | Some Dir => Ok (omap (entry_of d) (map_to_list fs))
  | Some _ => Throw (SysError ENOTDIR SysReaddir d)
  | None => Throw (SysError (missing fs d) SysReaddir d)
  end.

(** [fs.mkdtemp(prefix)] with [prefix = path.join(dir, pre)]: the new
    directory is [dir/pre<six random characters>]; [random] is the
    suffix the platform drew. *)
Definition mkdtemp (fs : FS) (dir : path) (pre random : string)
  : Res (path * FS) :=
  let p := Path.join dir (pre +:+ random) in
  match node_at fs dir with
  | Some Dir =>
      match fs !! p with
      | None => Ok (p, <[p := Dir]> fs)
      | Some _ => Throw (SysError EEXIST SysMkdtemp p)
      end
  | Some _ => Throw (SysError ENOTDIR SysMkdtemp p)
  | None => Throw (SysError (missing fs p) SysMkdtemp p)
  end.

(** Every stored node sits in a stored directory (or in the root). *)
Definition wf (fs : FS) : Prop :=
  ∀ p n, fs !! p = Some n → p ≠ [] ∧ node_at fs (Path.dirname p) = Some Dir.

#[global] Instance wf_dec (fs : FS) : Decision (wf fs) :=
  map_Forall_dec
    (fun p (_ : node) => p ≠ [] ∧ node_at fs (Path.dirname p) = Some Dir) fs.

End Fs.

(** ** The world and the monad of the [async] functions

    The program runs on one thread and awaits every call at once, so an
    [async] function is a function from the world before to a result (a
    value, or the error thrown) and the world after.  The world is the
    file system, the value of [process.exitCode] and a trace: what was
    printed on the console and which platform and library calls were
    made, oldest first. *)

Inductive stream := ConsoleLog | ConsoleWarn | ConsoleError.

Inductive message :=
  | MsgSkipping (target : path)                (* lines 165 and 207 *)
  | MsgFailedProbe (target : path) (e : error) (* line 211 *)
  | MsgConverted (source target : path)        (* lines 176 and 222 *)
  | MsgFailedConvert (source : path) (e : error) (* line 224 *)
  | MsgNoSupported (dir : path)                (* line 195 *)
  | MsgFailedToProcess (e : error).            (* line 241 *)

Inductive event :=
  | Console (s : stream) (m : message)
  | FsCall (call : syscall) (p : path)
  | SofficeCall (filePath outDir : path)       (* spawn("soffice", ...) *)
  | MammothCall (p : path)                     (* mammoth.convertToHtml *)
  | PdfParseCall                               (* new PDFParse(...).getText() *)
  | Adapter (p : path).                        (* convertDocument(p) entered *)

Record World := {
  fs : FS;
  trace : list event;
  exitCode : option Z
}.

(** The status the process ends with: [process.exitCode] when it was
    set, 0 otherwise. *)
Definition exit_status (w : World) : Z := default 0 (exitCode w).

Definition M (A : Type) : Type := World → Res A * World.

Definition ret {A} (a : A) : M A := fun w => (Ok a, w).

Definition throw {A} (e : error) : M A := fun w => (Throw e, w).

Definition bind {A B} (c : M A) (k : A → M B) : M B :=
  fun w =>
    match c w with
    | (Ok a, w') => k a w'
    | (Throw e, w') => (Throw e, w')
    end.

#[global] Instance M_ret : MRet M := @ret.
#[global] Instance M_bind : MBind M := fun A B k c => bind c k.

(** [try { c } catch (error) { h error }] *)
Definition try_catch {A} (c : M A) (h : error → M A) : M A :=
  fun w =>
    match c w with
    | (Ok a, w') => (Ok a, w')
    | (Throw e, w') => h e w'
    end.

(** [try { c } finally { f }]: [f] runs on both exits; an error of [f]
    replaces the outcome of [c]. *)
Definition try_finally {A} (c : M A) (f : M unit) : M A :=
  fun w =>
    match c w with
    | (r, w') =>
        match f w' with
        | (Ok _, w'') => (r, w'')
        | (Throw e, w'') => (Throw e, w'')
        end
    end.

(** [for (const x of l) { body x }] *)
Fixpoint forOf {A} (l : list A) (body : A → M unit) : M unit :=
  match l with
  | [] => ret tt
  | x :: l' => bind (body x) (fun _ => forOf l' body)
  end.

(** The world with one more event in its trace, and the world with
    another file system. *)
Definition observe (e : event) (w : World) : World :=
  {| fs := fs w; trace := trace w ++ [e]; exitCode := exitCode w |}.

Definition with_fs (fs' : FS) (w : World) : World :=
  {| fs := fs'; trace := trace w; exitCode := exitCode w |}.

Definition emit (e : event) : M unit := fun w => (Ok tt, observe e w).

(** The outcome of a computation on the file system as it is now. *)
Definition on_fs {A} (f : FS → Res A) : M A := fun w => (f (fs w), w).

(** The same for a computation that also yields the file system after. *)
Definition change_fs {A} (f : FS → Res (A * FS)) : M A :=
  fun w =>
    match f (fs w) with
    | Ok (a, fs') => (Ok a, with_fs fs' w)
    | Throw e => (Throw e, w)
    end.

(** A file-system call that only reads. *)
Definition fs_query {A} (call : syscall) (p : path) (f : FS → Res A) : M A :=
  emit (FsCall call p);; on_fs f.

(** A file-system call that changes the file system when it succeeds. *)
Definition fs_update {A} (call : syscall) (p : path) (f : FS → Res (A * FS))
  : M A :=
  emit (FsCall call p);; change_fs f.

Definition with_unit (r : Res FS) : Res (unit * FS) :=
  match r with Ok fs' => Ok (tt, fs') | Throw e => Throw e end.

Definition fs_stat (p : path) : M node :=
  fs_query SysStat p (fun fs => Fs.stat fs p).
Definition fs_access (p : path) : M unit :=
  fs_query SysAccess p (fun fs => Fs.access fs p).
Definition fs_readFile (p : path) : M string :=
  fs_query SysReadFile p (fun fs => Fs.readFile fs p).
Definition fs_readdir (p : path) : M (list Fs.Dirent) :=
  fs_query SysReaddir p (fun fs => Fs.readdir fs p).
Definition fs_mkdir_recursive (p : path) : M unit :=
  fs_update SysMkdir p (fun fs => with_unit (Fs.mkdir_recursive fs p)).
Definition fs_rm_force (p : path) : M unit :=
  fs_update SysRm p (fun fs => with_unit (Fs.rm_force fs p)).
Definition fs_rm_recursive_force (p : path) : M unit :=
  fs_update SysRm p (fun fs => Ok (tt, Fs.rm_recursive_force fs p)).
Definition fs_writeFile (p : path) (data : string) : M unit :=
  fs_update SysWriteFile p (fun fs => with_unit (Fs.writeFile fs p data)).

Definition console_log (m : message) : M unit := emit (Console ConsoleLog m).
Definition console_warn (m : message) : M unit := emit (Console ConsoleWarn m).
Definition console_error (m : message) : M unit := emit (Console ConsoleError m).

(** [process.exitCode = n] *)
Definition set_exitCode (n : Z) : M unit :=
  fun w => (Ok tt, {| fs := fs w; trace := trace w; exitCode := Some n |}).

(** How a child process ended: the [error] event, or the [exit] event
    with its [(code, signal)]. *)
Inductive proc_end :=
  | ProcError (code : errno)
  | ProcExit (code : option Z) (signal : option string).

(** What a third-party parser gives back: its value, or the message of
    the error it throws. *)
Inductive lib_result :=
  | LibOk (value : string)
  | LibFail (msg : string).

(** One run of [soffice --headless --convert-to docx --outdir d f]: the
    files it left in [d] (name and content) and how it ended. *)
Record soffice_run := {
  written : list (string * string);
  ended : proc_end
}.

Definition drop_files (d : path) (files : list (string * string)) (fs : FS)
  : FS :=
  match Fs.node_at fs d with
  | Some Dir =>
      foldl (fun acc nc => <[Path.join d nc.1 := File nc.2]> acc) fs files
  | _ => fs
  end.

Definition LF : ascii := "010"%char.
Definition LFLF : string := String LF (String LF "").

(** Lines 12-19. *)
Definition supportedExtensions : gset string :=
  list_to_set [".docx"; ".DOCX"; ".doc"; ".DOC"; ".pdf"; ".PDF"].

(** [supportedExtensions.has(ext)] *)
Definition supportedExtensions_has (ext : string) : bool :=
  bool_decide (ext ∈ supportedExtensions).

(** *** External collaborators

    What the program takes from its platform and its libraries.  The
    office suite is known by the files it leaves in its output directory
    and by how it ends; the parsers by what they return for the bytes of
    a file. *)
Class Platform := {
  (** [os.tmpdir()] *)
  os_tmpdir : path;
  (** the six characters [mkdtemp] appends, which may depend on what is
      on disk *)
  mkdtemp_random : FS → string;
  (** [soffice] run on a file with an output directory *)
  soffice : FS → path → path → soffice_run;
  (** mammoth on the bytes of a [.docx]: the HTML *)
  mammoth_html : string → lib_result;
  (** [turndownService.turndown], with the rule that removes images *)
  turndown : string → string;
  (** pdf-parse on the bytes of a [.pdf], from [new PDFParse] to
      [destroy]: the text *)
  pdf_text : string → lib_result
}.

Section Converter.

Context `{Platform}.

Definition lift_lib (lib : string) (r : lib_result) : M string :=
  match r with
  | LibOk v => ret v
  | LibFail msg => throw (LibraryError lib msg)
  end.

(** [mammoth.convertToHtml({ path })]: reads the file, then parses. *)
Definition mammoth_convertToHtml (filePath : path) : M string :=
  emit (MammothCall filePath);;
  bytes ← on_fs (fun fs => Fs.readFile fs filePath);
  lift_lib "mammoth" (mammoth_html bytes).

(** Lines 51-54. *)
Definition convertDocxToMarkdown (filePath : path) : M string :=
  html ← mammoth_convertToHtml filePath;
  ret (turndown html).

(** [spawn("soffice", args, { stdio: "ignore" })] up to the end of the
    child. *)
Definition spawn_soffice (filePath outDir : path) : M proc_end :=
  emit (SofficeCall filePath outDir);;
  change_fs (fun fs =>
    let run := soffice fs filePath outDir in
    Ok (ended run, drop_files outDir (written run) fs)).

(** Lines 56-81. *)
Definition runLibreOfficeConversion (filePath outDir : path) : M unit :=
  proc ← spawn_soffice filePath outDir;
  match proc with
  | ProcError code => throw (SysError code SysSpawn ["soffice"])
  | ProcExit code signal =>
      if bool_decide (code = Some 0) then ret tt
      else
        let reason :=
          match signal with
          | Some s => if Js.nonempty s then BySignal s else ByExitCode code
          | None => ByExitCode code
          end in
        throw (LibreOfficeFailed reason)
  end.

Definition fs_mkdtemp (dir : path) (pre : string) : M path :=
  fs_update SysMkdtemp (Path.join dir pre)
    (fun fs => Fs.mkdtemp fs dir pre (mkdtemp_random fs)).

(** Lines 83-101.  The second component is the [cleanup] closure. *)
Definition convertDocToDocx (filePath : path) : M (path * M unit) :=
  tempDir ← fs_mkdtemp os_tmpdir "input-docx-";
  runLibreOfficeConversion filePath tempDir;;
  let docxPath :=
    Path.join tempDir
      (Path.basename (Path.name filePath) (Path.extname_of filePath)
       +:+ ".docx") in
  fs_access docxPath;;
  ret (docxPath, fs_rm_recursive_force tempDir).

(** Lines 110-112. *)
Definition pdf_lines (text : string) : list string :=
  List.filter (fun line => Js.nonempty (Js.trim line)) (Js.split LF text).

(** Lines 115-118. *)
Definition pdf_markdown (text : string) : string :=
  Js.join LFLF
    (List.filter (fun line => Js.nonempty line)
       (map (fun line => Js.trim line) (pdf_lines text))).

(** Lines 103-119, with lines 105-107 as one call of the library. *)
Definition convertPdfToMarkdown (filePath : path) : M string :=
  fileBuffer ← fs_readFile filePath;
  emit PdfParseCall;;
  text ← lift_lib "pdf-parse" (pdf_text fileBuffer);
  ret (pdf_markdown text).

(** Lines 121-141.  The call is recorded in the trace before the
    dispatch. *)
Definition convertDocument (filePath : path) : M string :=
  emit (Adapter filePath);;
  let ext := Js.toLowerCase (Path.extname_of filePath) in
  if String.eqb ext ".docx" then convertDocxToMarkdown filePath
  else if String.eqb ext ".doc" then
    dc ← convertDocToDocx filePath;
    try_finally (convertDocxToMarkdown dc.1) dc.2
  else if String.eqb ext ".pdf" then convertPdfToMarkdown filePath
  else throw (UnsupportedFileType filePath).

(** [error.code !== "ENOENT"] *)
Definition not_ENOENT (e : error) : bool :=
  negb (bool_decide (error_code e = Some ENOENT)).

(** Lines 143-177.  The [try] block yields [true] when it took the
    early [return] of line 166. *)
Definition convertSingleFile (inputPath outputPath : path)
    (clearOutput : bool) : M unit :=
  if negb (supportedExtensions_has (Path.extname_of inputPath)) then
    throw (UnsupportedInputFile inputPath)
  else
    fs_mkdir_recursive (Path.dirname outputPath);;
    returned ← try_catch
      (existing ← fs_stat outputPath;
       if Fs.isDirectory existing then throw OutputIsDirectory
       else if clearOutput then
         fs_rm_force outputPath;; ret false
       else
         console_log (MsgSkipping outputPath);; ret true)
      (fun error => if not_ENOENT error then throw error else ret false);
    if (returned : bool) then ret tt
    else
      markdown ← convertDocument inputPath;
      fs_writeFile outputPath markdown;;
      console_log (MsgConverted inputPath outputPath).

(** Lines 190-192. *)
Definition supported_files (entries : list Fs.Dirent) : list Fs.Dirent :=
  List.filter
    (fun entry => supportedExtensions_has (Path.extname (Fs.name entry)))
    (List.filter (fun entry => Fs.isFile (Fs.kind entry)) entries).

Definition sourcePath_of (inputDir : path) (entry : Fs.Dirent) : path :=
  Path.join inputDir (Fs.name entry).

Definition targetPath_of (outputDir : path) (entry : Fs.Dirent) : path :=
  let mdName :=
    Path.basename (Fs.name entry) (Path.extname (Fs.name entry)) +:+ ".md" in
  Path.join outputDir mdName.

(** Lines 200-225, the body of the loop.  The first step yields
    [false] when it took one of the [continue]s. *)
Definition convertEntry (inputDir outputDir : path) (clearOutput : bool)
    (entry : Fs.Dirent) : M unit :=
  let sourcePath := sourcePath_of inputDir entry in
  let targetPath := targetPath_of outputDir entry in
  proceed ←
    (if negb clearOutput then
       try_catch
         (fs_access targetPath;;
          console_log (MsgSkipping targetPath);;
          ret false)
         (fun error =>
            if not_ENOENT error then
              console_error (MsgFailedProbe targetPath error);; ret false
            else ret true)
     else
       try_catch (fs_rm_force targetPath) (fun _ => ret tt);;
       ret true);
  if (proceed : bool) then
    try_catch
      (markdown ← convertDocument sourcePath;
       fs_writeFile targetPath markdown;;
       console_log (MsgConverted sourcePath targetPath))
      (fun error => console_error (MsgFailedConvert sourcePath error))
  else ret tt.

(** Lines 179-227. *)
Definition convertDirectory (inputDir outputDir : path)
    (clearOutput : bool) : M unit :=
  (if clearOutput then fs_rm_recursive_force outputDir else ret tt);;
  fs_mkdir_recursive outputDir;;
  entries ← fs_readdir inputDir;
  let files := supported_files entries in
  if (length files =? 0)%nat then
    console_warn (MsgNoSupported inputDir)
  else
    forOf files (convertEntry inputDir outputDir clearOutput).

(** Lines 229-244, with the three constants of lines 47-49 as
    arguments. *)
Definition main (inputPath outputPath : path) (clearOutput : bool)
  : M unit :=
  try_catch
    (stats ← fs_stat inputPath;
     if Fs.isFile stats then
       convertSingleFile inputPath outputPath clearOutput
     else if Fs.isDirectory stats then
       convertDirectory inputPath outputPath clearOutput
     else throw InputNotFileOrDirectory)
    (fun error =>
       console_error (MsgFailedToProcess error);;
       set_exitCode 1).

End Converter.

(** ** A small platform to run the model on

    An office suite that turns [f.doc] with content [c] into [f.docx]
    with content ["docx:" c] and exits with 77 on the content
    ["corrupt"]; parsers that fail on ["corrupt"]; a Markdown renderer
    that is the identity; a constant [mkdtemp] suffix. *)

Module Demo.

Definition office (fs : FS) (filePath outDir : path) : soffice_run :=
  match Fs.readFile fs filePath with
  | Ok c =>
      if String.eqb c "corrupt" then
        {| written := []; ended := ProcExit (Some 77) None |}
      else
        {| written :=
             [(Path.basename (Path.name filePath)
                 (Path.extname_of filePath) +:+ ".docx",
               "docx:" +:+ c)];
           ended := ProcExit (Some 0) None |}
  | Throw _ => {| written := []; ended := ProcExit (Some 1) None |}
  end.

Definition parse (tag : string) (bytes : string) : lib_result :=
  if String.eqb bytes "corrupt" then LibFail "cannot parse"
  else LibOk (tag +:+ bytes).

Definition platform : Platform :=
  {| os_tmpdir := ["tmp"];
     mkdtemp_random := fun _ => "abc123";
     soffice := office;
     mammoth_html := parse "html:";
     turndown := fun html => html;
     pdf_text := parse "" |}.

Definition world (files : list (path * node)) : World :=
  {| fs := list_to_map files; trace := []; exitCode := None |}.

(** [/tmp], and [/in] with two good files, two corrupt ones and three
    entries the directory mode leaves alone. *)
Definition disk : list (path * node) :=
  [ (["tmp"], Dir); (["in"], Dir);
    (["in"; "a.docx"], File "A");
    (["in"; "b.pdf"], File "corrupt");
    (["in"; "c.doc"], File "C");
    (["in"; "d.txt"], File "D");
    (["in"; "e.Docx"], File "E");
    (["in"; "sub.pdf"], Dir);
    (["in"; "f.DOC"], File "corrupt") ].

Definition nl : string := String LF "".

(** The world after one directory run from [/in] to [/out] without
    clearing: the world a second run starts in. *)
Definition second_run_world : World :=
  (convertDirectory (H := platform) ["in"] ["out"] false (world disk)).2.

End Demo.

(** ** The words of the specification, for comparison *)

(** A line is blank when it has only white space in it. *)
Definition blank (line : string) : bool :=
  forallb Js.is_space (Js.chars line).

(** "Split extracted text on line breaks, discard blank/whitespace-only
    lines, trim each remaining line, and rejoin with a blank line between
    every pair of lines." *)
Definition pdf_reformat_spec (text : string) : string :=
  Js.join LFLF
    (map Js.trim
       (List.filter (fun line => negb (blank line)) (Js.split LF text))).

(** The six literal extensions of the specification. *)
Definition six_extensions : list string :=
  [".docx"; ".DOCX"; ".doc"; ".DOC"; ".pdf"; ".PDF"].

(** ** The footprint of one conversion

    The adapter leaves the file system as it found it, or it has made a
    temporary directory [t] that was not there, let the office suite fill
    it, and either removed it again or left it behind. *)

Definition filled (fs : FS) (t : path) (files : list (string * string)) : FS :=
  drop_files t files (<[t := Dir]> fs).

Inductive footprint (fs : FS) : FS → Prop :=
  | footprint_none : footprint fs fs
  | footprint_left (t : path) files :
      fs !! t = None → t ≠ [] → Fs.node_at fs (Path.dirname t) = Some Dir →
      footprint fs (filled fs t files)
  | footprint_removed (t : path) files :
      fs !! t = None → t ≠ [] → Fs.node_at fs (Path.dirname t) = Some Dir →
      footprint fs (Fs.rm_recursive_force (filled fs t files) t).

(** ** Reasoning about the monad

    [wp c Q w]: running [c] in the world [w] ends with a result and a
    world that satisfy [Q].  One rule per construct of the embedding. *)

Definition wp {A} (c : M A) (Q : Res A → World → Prop) (w : World) : Prop :=
  Q (c w).1 (c w).2.

(** What happened between two worlds: the events [tr] were added to the
    trace and [process.exitCode] was not assigned. *)
Definition since (w w' : World) (tr : list event) : Prop :=
  trace w' = trace w ++ tr ∧ exitCode w' = exitCode w.

(** ** Vocabulary of the claims *)

Definition is_console (e : event) : bool :=
  match e with Console _ _ => true | _ => false end.

(** The calls that happen inside the adapter: the platform and library
    calls of lines 51-119 and the cleanup of line 98. *)
Definition adapter_internal (e : event) : bool :=
  match e with
  | FsCall SysMkdtemp _ | FsCall SysAccess _ | FsCall SysReadFile _
  | FsCall SysRm _ | SofficeCall _ _ | MammothCall _ | PdfParseCall => true
  | _ => false
  end.

(** The errors the adapter can end with when the dispatch of lines
    122-138 finds a branch: those of the platform, of the office suite
    and of the parsers. *)
Definition adapter_error (e : error) : bool :=
  match e with
  | SysError _ _ _ | LibreOfficeFailed _ | LibraryError _ _ => true
  | _ => false
  end.

(** Lines 174-176 and lines 220-222 are the same three statements:
    convert, write, report. *)
Definition convert_and_write `{Platform} (source target : path) : M unit :=
  markdown ← convertDocument source;
  fs_writeFile target markdown;;
  console_log (MsgConverted source target).

(** The three ways these statements can end, from the world [w]. *)
Inductive converted `{Platform} (source target : path) (w : World)
  : Res unit → World → Prop :=
  | cw_conversion_failed e w' tr :
      (convertDocument source w).1 = Throw e →
      since w w' (Adapter source :: tr) →
      Forall (fun ev => adapter_internal ev = true) tr →
      footprint (fs w) (fs w') →
      converted source target w (Throw e) w'
  | cw_write_failed md e w' tr :
      (convertDocument source w).1 = Ok md →
      since w w' (Adapter source :: tr ++ [FsCall SysWriteFile target]) →
      Forall (fun ev => adapter_internal ev = true) tr →
      footprint (fs w) (fs w') →
      Fs.writeFile (fs w') target md = Throw e →
      converted source target w (Throw e) w'
  | cw_written md fs_mid w' tr :
      (convertDocument source w).1 = Ok md →
      since w w'
        (Adapter source
         :: tr ++ [FsCall SysWriteFile target;
                   Console ConsoleLog (MsgConverted source target)]) →
      Forall (fun ev => adapter_internal ev = true) tr →
      footprint (fs w) fs_mid →
      Fs.writeFile fs_mid target md = Ok (fs w') →
      converted source target w (Ok tt) w'.

(** The world of line 155 when the [mkdir] of line 152 gave [fs1]: two
    calls were made. *)
Definition probed (outputPath : path) (fs1 : FS) (w : World) : World :=
  observe (FsCall SysStat outputPath)
    (with_fs fs1 (observe (FsCall SysMkdir (Path.dirname outputPath)) w)).

(** The world of line 174 when the probe found something to clear:
    three calls were made and the output path is gone. *)
Definition cleared (outputPath : path) (fs1 : FS) (w : World) : World :=
  with_fs (delete outputPath fs1)
    (observe (FsCall SysRm outputPath) (probed outputPath fs1 w)).

(** The ways through lines 143-177, from the world [w]. *)
Inductive single_file_run `{Platform} (inputPath outputPath : path)
    (clearOutput : bool) (w : World) : Res unit → World → Prop :=
  | sf_unsupported :
      supportedExtensions_has (Path.extname_of inputPath) = false →
      single_file_run inputPath outputPath clearOutput w
        (Throw (UnsupportedInputFile inputPath)) w
  | sf_mkdir_failed e :
      supportedExtensions_has (Path.extname_of inputPath) = true →
      Fs.mkdir_recursive (fs w) (Path.dirname outputPath) = Throw e →
      single_file_run inputPath outputPath clearOutput w
        (Throw e) (observe (FsCall SysMkdir (Path.dirname outputPath)) w)
  | sf_output_is_directory fs1 :
      supportedExtensions_has (Path.extname_of inputPath) = true →
      Fs.mkdir_recursive (fs w) (Path.dirname outputPath) = Ok fs1 →
      Fs.node_at fs1 outputPath = Some Dir →
      single_file_run inputPath outputPath clearOutput w
        (Throw OutputIsDirectory) (probed outputPath fs1 w)
  | sf_skipped fs1 n :
      supportedExtensions_has (Path.extname_of inputPath) = true →
      Fs.mkdir_recursive (fs w) (Path.dirname outputPath) = Ok fs1 →
      Fs.node_at fs1 outputPath = Some n → n ≠ Dir →
      clearOutput = false →
      single_file_run inputPath outputPath clearOutput w
        (Ok tt)
        (observe (Console ConsoleLog (MsgSkipping outputPath))
           (probed outputPath fs1 w))
  | sf_probe_failed fs1 e :
      supportedExtensions_has (Path.extname_of inputPath) = true →
      Fs.mkdir_recursive (fs w) (Path.dirname outputPath) = Ok fs1 →
      Fs.stat fs1 outputPath = Throw e → not_ENOENT e = true →
      single_file_run inputPath outputPath clearOutput w
        (Throw e) (probed outputPath fs1 w)
  | sf_cleared fs1 n r w' :
      supportedExtensions_has (Path.extname_of inputPath) = true →
      Fs.mkdir_recursive (fs w) (Path.dirname outputPath) = Ok fs1 →
      Fs.node_at fs1 outputPath = Some n → n ≠ Dir →
      clearOutput = true →
      converted inputPath outputPath (cleared outputPath fs1 w) r w' →
      single_file_run inputPath outputPath clearOutput w r w'
  | sf_fresh fs1 e r w' :
      supportedExtensions_has (Path.extname_of inputPath) = true →
      Fs.mkdir_recursive (fs w) (Path.dirname outputPath) = Ok fs1 →
      Fs.stat fs1 outputPath = Throw e → not_ENOENT e = false →
      converted inputPath outputPath (probed outputPath fs1 w) r w' →
      single_file_run inputPath outputPath clearOutput w r w'.

(** Whether lines 204-217 let the loop body go on to the conversion:
    always when clearing, otherwise when the probe of line 206 failed
    with [ENOENT]. *)
Definition attempted (clearOutput : bool) (targetPath : path) (w : World)
  : bool :=
  if clearOutput then true
  else
    match Fs.access (fs w) targetPath with
    | Ok _ => false
    | Throw e => negb (not_ENOENT e)
    end.

(** The world in which lines 219-225 then start: after the probe, or
    after the [rm] of line 216, whose error is dropped. *)
Definition attempt_world (clearOutput : bool) (targetPath : path) (w : World)
  : World :=
  if clearOutput then
    match Fs.rm_force (fs w) targetPath with
    | Ok fs' => with_fs fs' (observe (FsCall SysRm targetPath) w)
    | Throw _ => observe (FsCall SysRm targetPath) w
    end
  else observe (FsCall SysAccess targetPath) w.

(** The [catch] of lines 223-225. *)
Definition finish (source : path) (r : Res unit) (w : World) : World :=
  match r with
  | Ok _ => w
  | Throw e => observe (Console ConsoleError (MsgFailedConvert source e)) w
  end.

(** The ways through the loop body, from the world [w]. *)
Inductive entry_run `{Platform} (inputDir outputDir : path)
    (clearOutput : bool) (entry : Fs.Dirent) (w : World) : World → Prop :=
  | er_skipped n :
      clearOutput = false →
      Fs.node_at (fs w) (targetPath_of outputDir entry) = Some n →
      entry_run inputDir outputDir clearOutput entry w
        (observe (Console ConsoleLog
                    (MsgSkipping (targetPath_of outputDir entry)))
           (observe (FsCall SysAccess (targetPath_of outputDir entry)) w))
  | er_probe_failed e :
      clearOutput = false →
      Fs.access (fs w) (targetPath_of outputDir entry) = Throw e →
      not_ENOENT e = true →
      entry_run inputDir outputDir clearOutput entry w
        (observe (Console ConsoleError
                    (MsgFailedProbe (targetPath_of outputDir entry) e))
           (observe (FsCall SysAccess (targetPath_of outputDir entry)) w))
  | er_attempted r w1 :
      attempted clearOutput (targetPath_of outputDir entry) w = true →
      converted (sourcePath_of inputDir entry) (targetPath_of outputDir entry)
        (attempt_world clearOutput (targetPath_of outputDir entry) w) r w1 →
      entry_run inputDir outputDir clearOutput entry w
        (finish (sourcePath_of inputDir entry) r w1).

(** What one entry adds to the trace: a skip, a failed probe, a
    conversion with its write, or a failure with its report. *)
Definition entry_report (inputDir outputDir : path) (entry : Fs.Dirent)
    (seg : list event) : Prop :=
  let source := sourcePath_of inputDir entry in
  let target := targetPath_of outputDir entry in
  seg = [FsCall SysAccess target; Console ConsoleLog (MsgSkipping target)]
  ∨ (∃ e, seg = [FsCall SysAccess target;
                 Console ConsoleError (MsgFailedProbe target e)])
  ∨ (∃ probe tr,
       seg = probe :: Adapter source
             :: tr ++ [FsCall SysWriteFile target;
                       Console ConsoleLog (MsgConverted source target)]
       ∧ Forall (fun ev => adapter_internal ev = true) tr)
  ∨ (∃ probe tr e,
       seg = probe :: Adapter source
             :: tr ++ [Console ConsoleError (MsgFailedConvert source e)]
       ∧ Forall (fun ev => adapter_internal ev = true
                           ∨ ev = FsCall SysWriteFile target) tr).

(** An event that does not touch what was on the disk [fs0] before a
    directory run without clearing: a write goes to a path that was not
    there, and the adapter runs on a source whose target was not
    there. *)
Definition spares (fs0 : FS) (inputDir outputDir : path) (ev : event)
  : Prop :=
  match ev with
  | FsCall SysWriteFile q => fs0 !! q = None
  | Adapter s =>
      ∀ entry, s = sourcePath_of inputDir entry →
               fs0 !! targetPath_of outputDir entry = None
  | _ => True
  end.

(** The calls before the loop when the set-up succeeds. *)
Definition setup_events (inputDir outputDir : path) (clearOutput : bool)
  : list event :=
  (if clearOutput then [FsCall SysRm outputDir] else [])
  ++ [FsCall SysMkdir outputDir; FsCall SysReaddir inputDir].

(** The file system the recursive [mkdir] of line 188 starts from. *)
Definition before_mkdir (outputDir : path) (clearOutput : bool) (fs : FS)
  : FS :=
  if clearOutput then Fs.rm_recursive_force fs outputDir else fs.

(** The text of section 8 of the specification and what it becomes. *)
Definition spec_pdf_text : string :=
  "Line A" +:+ Demo.nl +:+ Demo.nl +:+ "  " +:+ Demo.nl +:+ "Line B  "
  +:+ Demo.nl.

Definition spec_pdf_markdown : string :=
  "Line A" +:+ Demo.nl +:+ Demo.nl +:+ "Line B".

(** What lines 51-54 return for the file at [p], as a function of the
    file system: the Markdown of a [.docx] depends on its bytes only. *)
Definition docx_markdown `{Platform} (fs : FS) (p : path) : Res string :=
  match Fs.readFile fs p with
  | Ok bytes =>
      match mammoth_html bytes with
      | LibOk html => Ok (turndown html)
      | LibFail msg => Throw (LibraryError "mammoth" msg)
      end
  | Throw e => Throw e
  end.

(** The temporary directory and the converted file of lines 86-92, in
    the file system [fs]. *)
Definition tempDir_of `{Platform} (fs : FS) : path :=
  Path.join os_tmpdir ("input-docx-" +:+ mkdtemp_random fs).

Definition docxPath_of `{Platform} (fs : FS) (filePath : path) : path :=
  Path.join (tempDir_of fs)
    (Path.basename (Path.name filePath) (Path.extname_of filePath)
     +:+ ".docx").

(** ** Vocabulary of the further properties *)

(** The world in which the [mkdir] of line 188 is called: after the
    [rm] of line 185 when clearing. *)
Definition dir_start (outputDir : path) (clearOutput : bool) (w : World)
  : World :=
  if clearOutput then
    with_fs (Fs.rm_recursive_force (fs w) outputDir)
      (observe (FsCall SysRm outputDir) w)
  else w.

(** The world of line 190 when the set-up gave the file system [fs1]. *)
Definition setup_world (inputDir outputDir : path) (clearOutput : bool)
    (fs1 : FS) (w : World) : World :=
  {| fs := fs1;
     trace := trace w ++ setup_events inputDir outputDir clearOutput;
     exitCode := exitCode w |}.

(** The ways through lines 179-227, from the world [w]. *)
Inductive directory_run `{Platform} (inputDir outputDir : path)
    (clearOutput : bool) (w : World) : Res unit → World → Prop :=
  | dr_mkdir_failed e :
      Fs.mkdir_recursive (before_mkdir outputDir clearOutput (fs w)) outputDir
      = Throw e →
      directory_run inputDir outputDir clearOutput w (Throw e)
        (observe (FsCall SysMkdir outputDir)
           (dir_start outputDir clearOutput w))
  | dr_readdir_failed fs1 e :
      Fs.mkdir_recursive (before_mkdir outputDir clearOutput (fs w)) outputDir
      = Ok fs1 →
      Fs.readdir fs1 inputDir = Throw e →
      directory_run inputDir outputDir clearOutput w (Throw e)
        (setup_world inputDir outputDir clearOutput fs1 w)
  | dr_nothing fs1 entries :
      Fs.mkdir_recursive (before_mkdir outputDir clearOutput (fs w)) outputDir
      = Ok fs1 →
      Fs.readdir fs1 inputDir = Ok entries →
      supported_files entries = [] →
      directory_run inputDir outputDir clearOutput w (Ok tt)
        (observe (Console ConsoleWarn (MsgNoSupported inputDir))
           (setup_world inputDir outputDir clearOutput fs1 w))
  | dr_pass fs1 entries w' :
      Fs.mkdir_recursive (before_mkdir outputDir clearOutput (fs w)) outputDir
      = Ok fs1 →
      Fs.readdir fs1 inputDir = Ok entries →
      supported_files entries ≠ [] →
      forOf (supported_files entries)
        (convertEntry inputDir outputDir clearOutput)
        (setup_world inputDir outputDir clearOutput fs1 w)
      = (Ok tt, w') →
      directory_run inputDir outputDir clearOutput w (Ok tt) w'.


(** A platform whose office suite exits with 0 and writes nothing. *)
Definition silent_platform : Platform :=
  {| os_tmpdir := ["tmp"];
     mkdtemp_random := fun _ => "abc123";
     soffice := fun _ _ _ =>
       {| written := []; ended := ProcExit (Some 0) None |};
     mammoth_html := Demo.parse "html:";
     turndown := fun html => html;
     pdf_text := Demo.parse "" |}.

(** A disk with two eligible files of the same stem, the second one
    corrupt, and an output directory. *)
Definition same_stem_disk : list (path * node) :=
  [ (["in"], Dir); (["out"], Dir);
    (["in"; "a.docx"], File "A");
    (["in"; "a.pdf"], File "corrupt") ].

(** The events of a directory run that belong to one eligible entry of
    the listing [entries]: the adapter on its source, a write to its
    target. *)
Definition for_eligible (inputDir outputDir : path)
    (entries : list Fs.Dirent) (ev : event) : Prop :=
  match ev with
  | Adapter s =>
      ∃ entry, In entry (supported_files entries)
               ∧ s = sourcePath_of inputDir entry
  | FsCall SysWriteFile q =>
      ∃ entry, In entry (supported_files entries)
               ∧ q = targetPath_of outputDir entry
  | _ => True
  end.

(** The pieces of a text on both sides of its line feeds, as lists of
    characters, and a list of lines laid out with an empty line in
    between. *)
Definition lines_of (text : list ascii) : list (list ascii) :=
  Js.split_chars LF [] text.

Fixpoint paragraphs (ls : list (list ascii)) : list ascii :=
  match ls with
  | [] => []
  | [l] => l
  | l :: ls' => l ++ LF :: LF :: paragraphs ls'
  end.

(** A line as [pdf_markdown] leaves it: not empty, no line feed in it,
    no white space at either end. *)
Definition tidy (l : list ascii) : Prop :=
  l ≠ [] ∧ ¬ In LF l ∧ Js.trim_chars l = l.

(** * Facts about strings *)

Lemma nonempty_str (l : list ascii) :
  Js.nonempty (Js.str l) = match l with [] => false | _ => true end.
Proof. destruct l; reflexivity. Qed.

Lemma trimStart_all_space (l : list ascii) :
  forallb Js.is_space l = true → Js.trimStart_chars l = [].
Proof.
  induction l as [|c l IH]; simpl; [done|].
  destruct (Js.is_space c); simpl; [exact IH | discriminate].
Qed.

Lemma trimStart_keeps_last (l : list ascii) (c : ascii) :
  Js.is_space c = false → Js.trimStart_chars (l ++ [c]) ≠ [].
Proof.
  intros Hc. induction l as [|d l IH]; simpl.
  - rewrite Hc. discriminate.
  - destruct (Js.is_space d); [exact IH | discriminate].
Qed.

Lemma trimStart_some_char (l : list ascii) :
  forallb Js.is_space l = false →
  ∃ c l', Js.trimStart_chars l = c :: l' ∧ Js.is_space c = false.
Proof.
  induction l as [|c l IH]; simpl; [discriminate|].
  destruct (Js.is_space c) eqn:Hc; simpl; [exact IH | eauto].
Qed.

(** [line.trim()] is falsy exactly for a blank line. *)
Lemma trim_truthy (line : string) :
  Js.nonempty (Js.trim line) = negb (blank line).
Proof.
  unfold Js.trim, blank. rewrite nonempty_str.
  destruct (forallb Js.is_space (Js.chars line)) eqn:Hall; simpl.
  - unfold Js.trim_chars. rewrite (trimStart_all_space _ Hall). reflexivity.
  - destruct (trimStart_some_char _ Hall) as (c & l' & Heq & Hc).
    unfold Js.trim_chars, Js.trimEnd_chars. rewrite Heq. simpl rev.
    pose proof (trimStart_keeps_last (rev l') c Hc) as Hne.
    destruct (Js.trimStart_chars (rev l' ++ [c])) as [|x xs] eqn:E; [done|].
    simpl. destruct (rev xs ++ [x]) eqn:E'; [|reflexivity].
    destruct (rev xs); discriminate.
Qed.

(** The second filter of line 117 removes nothing. *)
Lemma second_filter_idle (lines : list string) :
  List.filter (fun line => Js.nonempty line)
    (map (fun line => Js.trim line)
       (List.filter (fun line => Js.nonempty (Js.trim line)) lines))
  = map Js.trim (List.filter (fun line => negb (blank line)) lines).
Proof.
  induction lines as [|l ls IH]; simpl; [done|].
  rewrite <- trim_truthy.
  destruct (Js.nonempty (Js.trim l)) eqn:E; simpl; [|exact IH].
  rewrite E. f_equal. exact IH.
Qed.

Lemma pdf_markdown_spec (text : string) :
  pdf_markdown text = pdf_reformat_spec text.
Proof.
  unfold pdf_markdown, pdf_lines, pdf_reformat_spec.
  by rewrite second_filter_idle.
Qed.

(** * Facts about the format gate *)

Lemma supported_iff (ext : string) :
  supportedExtensions_has ext = true ↔ In ext six_extensions.
Proof.
  unfold supportedExtensions_has, supportedExtensions.
  rewrite bool_decide_eq_true, elem_of_list_to_set, list_elem_of_In.
  reflexivity.
Qed.

Lemma supported_lowercase (ext : string) :
  supportedExtensions_has ext = true →
  Js.toLowerCase ext = ".docx" ∨ Js.toLowerCase ext = ".doc"
  ∨ Js.toLowerCase ext = ".pdf".
Proof.
  rewrite supported_iff. simpl.
  intros [<-|[<-|[<-|[<-|[<-|[<-|[]]]]]]]; vm_compute; auto.
Qed.

(** * Facts about the file system *)

Lemma dirname_join (d : path) (name : string) :
  Path.dirname (Path.join d name) = d.
Proof. apply removelast_last. Qed.

Lemma join_not_nil (d : path) (name : string) : Path.join d name ≠ [].
Proof. unfold Path.join. destruct d; discriminate. Qed.

Lemma app_ne_self (a l : path) : l ≠ [] → a ++ l ≠ a.
Proof.
  intros Hl Heq. apply (f_equal length) in Heq.
  rewrite length_app in Heq. destruct l; [done | simpl in Heq; lia].
Qed.

Lemma join_ne_dir (d : path) (name : string) : Path.join d name ≠ d.
Proof. by apply app_ne_self. Qed.

Lemma join_dirname_name (p : path) :
  p ≠ [] → Path.join (Path.dirname p) (Path.name p) = p.
Proof. intros Hp. symmetry. by apply app_removelast_last. Qed.

Lemma dirname_prefix (p : path) : Path.dirname p `prefix_of` p.
Proof.
  destruct (decide (p = [])) as [->|Hp]; [done|].
  exists [Path.name p]. symmetry. by apply join_dirname_name.
Qed.

Lemma node_at_lookup (fs : FS) (p : path) :
  p ≠ [] → Fs.node_at fs p = fs !! p.
Proof. by destruct p. Qed.

Lemma node_at_None (fs : FS) (p : path) :
  Fs.node_at fs p = None → p ≠ [] ∧ fs !! p = None.
Proof. by destruct p. Qed.

(** In a well-formed file system the ancestors of what is stored are
    directories. *)
Lemma wf_ancestor_dir (fs : FS) (a q : path) :
  Fs.wf fs → is_Some (fs !! q) → a `prefix_of` q → a ≠ q →
  Fs.node_at fs a = Some Dir.
Proof.
  intros Hwf Hq [l ->]. revert Hq.
  induction l as [|x l IH] using rev_ind; intros [n Hq] Hne.
  - by rewrite app_nil_r in Hne.
  - apply Hwf in Hq as [_ Hd]. rewrite app_assoc in Hd.
    change (Fs.node_at fs (Path.dirname (Path.join (a ++ l) x)) = Some Dir)
      in Hd.
    rewrite dirname_join in Hd.
    destruct (decide (l = [])) as [->|Hl].
    + by rewrite app_nil_r in Hd.
    + apply IH.
      * rewrite node_at_lookup in Hd; [by eexists|].
        intros Hnil. by apply app_eq_nil in Hnil as [_ ?].
      * intros Heq. symmetry in Heq. by apply app_ne_self in Heq.
Qed.

(** So nothing lives below a missing path. *)
Lemma wf_nothing_below (fs : FS) (t : path) :
  Fs.wf fs → Fs.node_at fs t = None →
  ∀ q, t `prefix_of` q → fs !! q = None.
Proof.
  intros Hwf Ht q Hpre.
  destruct (fs !! q) as [n|] eqn:E; [exfalso|done].
  destruct (decide (t = q)) as [->|Hne].
  - apply node_at_None in Ht as [_ Ht]. congruence.
  - rewrite (wf_ancestor_dir fs t q) in Ht; by eauto.
Qed.

(** *** [mkdir] *)

Lemma mkdir_from_spec (target cur rest : path) (fs fs' : FS) :
  Fs.mkdir_from target cur rest fs = Ok fs' →
  Fs.node_at fs cur = Some Dir →
  Fs.node_at fs' (cur ++ rest) = Some Dir
  ∧ fs ⊆ fs'
  ∧ (∀ q n, fs' !! q = Some n → fs !! q = Some n ∨ n = Dir)
  ∧ (Fs.wf fs → Fs.wf fs').
Proof.
  revert cur fs. induction rest as [|c rest IH]; intros cur fs; simpl.
  - intros [= <-] Hcur. rewrite app_nil_r. by eauto.
  - intros Hrun Hcur.
    assert (Hq : cur ++ [c] ≠ []) by apply join_not_nil.
    replace (cur ++ c :: rest) with ((cur ++ [c]) ++ rest)
      by (by rewrite <- app_assoc).
    destruct (fs !! (cur ++ [c])) as [[| |]|] eqn:E; try discriminate.
    + apply IH in Hrun; [exact Hrun|]. by rewrite node_at_lookup.
    + apply IH in Hrun as (Hd & Hsub & Hnew & Hwf).
      2:{ rewrite node_at_lookup by done. apply lookup_insert_eq. }
      split; [exact Hd|]. split; [|split].
      * etrans; [|exact Hsub]. by apply insert_subseteq.
      * intros q n Hqn. apply Hnew in Hqn as [Hqn | ->]; [|by right].
        rewrite lookup_insert in Hqn. case_decide; [right|left]; congruence.
      * intros Hwf0. apply Hwf. intros q n. rewrite lookup_insert.
        case_decide as Hc.
        -- subst q. intros _. split; [done|].
           change (cur ++ [c]) with (Path.join cur c).
           rewrite dirname_join.
           destruct (decide (cur = [])) as [->|Hcn]; [done|].
           rewrite node_at_lookup in Hcur |- * by done.
           rewrite lookup_insert_ne; [done|]. apply join_ne_dir.
        -- intros Hqn. destruct (Hwf0 _ _ Hqn) as [Hq' Hpar]. split; [done|].
           destruct (decide (Path.dirname q = [])) as [Hdn|Hdn].
           ++ by rewrite Hdn.
           ++ rewrite node_at_lookup in Hpar |- * by done.
              rewrite lookup_insert. case_decide; [|done]. congruence.
Qed.

Lemma mkdir_recursive_spec (fs fs' : FS) (p : path) :
  Fs.mkdir_recursive fs p = Ok fs' →
  Fs.node_at fs' p = Some Dir
  ∧ fs ⊆ fs'
  ∧ (∀ q n, fs' !! q = Some n → fs !! q = Some n ∨ n = Dir)
  ∧ (Fs.wf fs → Fs.wf fs').
Proof. intros Hrun. by apply (mkdir_from_spec p [] p). Qed.

(** Creating a directory that is there changes nothing. *)
Lemma mkdir_from_existing (target cur rest : path) (fs : FS) :
  Fs.wf fs → Fs.node_at fs (cur ++ rest) = Some Dir →
  Fs.mkdir_from target cur rest fs = Ok fs.
Proof.
  intros Hwf. revert cur. induction rest as [|c rest IH]; intros cur Hd.
  - done.
  - simpl. replace (cur ++ c :: rest) with ((cur ++ [c]) ++ rest) in Hd
      by (by rewrite <- app_assoc).
    assert (Hq : cur ++ [c] ≠ []) by apply join_not_nil.
    assert (Hex : fs !! (cur ++ [c]) = Some Dir).
    { rewrite <- node_at_lookup by done.
      destruct (decide (rest = [])) as [->|Hr].
      - by rewrite app_nil_r in Hd.
      - apply (wf_ancestor_dir fs _ ((cur ++ [c]) ++ rest)); [done| |by eexists|].
        + rewrite node_at_lookup in Hd; [by eexists|].
          intros Hnil. by apply app_eq_nil in Hnil as [? _].
        + intros Heq. symmetry in Heq. by apply app_ne_self in Heq. }
    rewrite Hex. by apply IH.
Qed.

Lemma mkdir_recursive_existing (fs : FS) (p : path) :
  Fs.wf fs → Fs.node_at fs p = Some Dir → Fs.mkdir_recursive fs p = Ok fs.
Proof. intros Hwf Hd. by apply mkdir_from_existing. Qed.

(** *** [rm] *)

Lemma rm_recursive_lookup (fs : FS) (p q : path) :
  Fs.rm_recursive_force fs p !! q
  = if decide (p `prefix_of` q) then None else fs !! q.
Proof.
  unfold Fs.rm_recursive_force. case_decide as Hpre.
  - apply map_lookup_filter_None. right. intros n _ Hn. by apply Hn.
  - destruct (fs !! q) as [n|] eqn:E.
    + by apply map_lookup_filter_Some.
    + apply map_lookup_filter_None. by left.
Qed.

Lemma rm_recursive_gone (fs : FS) (p : path) :
  Fs.rm_recursive_force fs p !! p = None.
Proof. rewrite rm_recursive_lookup. by rewrite decide_True. Qed.

Lemma rm_recursive_subseteq (fs : FS) (p : path) :
  Fs.rm_recursive_force fs p ⊆ fs.
Proof. apply map_filter_subseteq. Qed.

Lemma rm_force_spec (fs fs' : FS) (p : path) :
  Fs.rm_force fs p = Ok fs' →
  fs' = fs ∨ (fs' = delete p fs ∧ ∃ n, fs !! p = Some n ∧ n ≠ Dir).
Proof.
  unfold Fs.rm_force. destruct (Fs.node_at fs p) as [n|] eqn:E.
  - destruct p as [|c p]; [by inversion E; subst|]. simpl in E.
    destruct n; intros [= <-]; right; split; eauto.
  - destruct (Fs.missing fs p); intros [= <-]; by left.
Qed.

(** Removing something that is not a directory keeps the file system
    well formed. *)
Lemma wf_delete_leaf (fs : FS) (p : path) (n : node) :
  Fs.wf fs → fs !! p = Some n → n ≠ Dir → Fs.wf (delete p fs).
Proof.
  intros Hwf Hp Hn q m. rewrite lookup_delete. case_decide; [done|].
  intros Hq. destruct (Hwf _ _ Hq) as [Hq' Hd]. split; [done|].
  destruct (decide (Path.dirname q = [])) as [Hdn|Hdn]; [by rewrite Hdn|].
  rewrite node_at_lookup in Hd |- * by done.
  rewrite lookup_delete_ne; [done|]. congruence.
Qed.

(** *** [writeFile] *)

Lemma writeFile_spec (fs fs' : FS) (p : path) (data : string) :
  Fs.writeFile fs p data = Ok fs' →
  fs' = fs
  ∨ (fs' = <[p := File data]> fs ∧ p ≠ []
     ∧ (fs !! p = None ∧ Fs.node_at fs (Path.dirname p) = Some Dir
        ∨ ∃ c, fs !! p = Some (File c))).
Proof.
  unfold Fs.writeFile. destruct (Fs.node_at fs p) as [n|] eqn:E.
  - destruct p as [|c p]; [by inversion E; subst|]. simpl in E.
    destruct n; intros [= <-]; [right|left]; eauto 6.
  - apply node_at_None in E as [Hp E].
    destruct (Fs.node_at fs (Path.dirname p)) as [[| |]|] eqn:Ed;
      intros [= <-]. right. eauto.
Qed.

Lemma wf_insert_file (fs : FS) (p : path) (data : string) :
  Fs.wf fs → p ≠ [] → Fs.node_at fs (Path.dirname p) = Some Dir →
  fs !! p ≠ Some Dir → Fs.wf (<[p := File data]> fs).
Proof.
  intros Hwf Hp Hd Hnd q m Hq.
  assert (Hq' : q ≠ [] ∧ Fs.node_at fs (Path.dirname q) = Some Dir).
  { rewrite lookup_insert in Hq. case_decide; [by subst|]. by eapply Hwf. }
  destruct Hq' as [Hqn Hqd]. split; [done|].
  destruct (decide (Path.dirname q = [])) as [Hdn|Hdn]; [by rewrite Hdn|].
  rewrite node_at_lookup in Hqd |- * by done.
  rewrite lookup_insert. case_decide; [congruence | done].
Qed.

Lemma wf_writeFile (fs fs' : FS) (p : path) (data : string) :
  Fs.wf fs → Fs.writeFile fs p data = Ok fs' → Fs.wf fs'.
Proof.
  intros Hwf Hw.
  apply writeFile_spec in Hw as [->|(-> & Hp & [[Hnone Hd]|[c Hc]])];
    [done| |].
  - apply wf_insert_file; [done..|congruence].
  - apply wf_insert_file; [done..| |congruence]. by eapply Hwf.
Qed.

(** *** What the office suite leaves behind *)

Lemma drop_files_outside (d : path) (files : list (string * string))
    (fs : FS) (q : path) :
  Path.dirname q ≠ d ∨ q = [] → drop_files d files fs !! q = fs !! q.
Proof.
  intros Hq. unfold drop_files. destruct (Fs.node_at fs d) as [[| |]|]; try done.
  revert fs. induction files as [|[n c] files IH]; intros fs; simpl; [done|].
  rewrite IH. apply lookup_insert_ne. intros <-.
  destruct Hq as [Hq|Hq].
  - by rewrite dirname_join in Hq.
  - by apply join_not_nil in Hq.
Qed.

Lemma drop_files_new (d : path) (files : list (string * string))
    (fs : FS) (q : path) (n : node) :
  drop_files d files fs !! q = Some n →
  fs !! q = Some n ∨ (Path.dirname q = d ∧ q ≠ [] ∧ ∃ c, n = File c).
Proof.
  unfold drop_files. destruct (Fs.node_at fs d) as [[| |]|]; try by left.
  revert fs. induction files as [|[x c] files IH]; intros fs; simpl;
    [by left|].
  intros Hq. apply IH in Hq as [Hq|Hq]; [|by right].
  rewrite lookup_insert in Hq. case_decide as Hk; [|by left].
  right. subst q. rewrite dirname_join. split; [done|].
  split; [apply join_not_nil|]. simpl in Hq. injection Hq as <-. by eexists.
Qed.

(** *** The footprint of one conversion *)

Lemma dirname_not_below (t : path) : t ≠ [] → ¬ t `prefix_of` Path.dirname t.
Proof.
  intros Ht [l Hl]. rewrite <- (join_dirname_name t Ht) in Hl at 2.
  unfold Path.join in Hl. rewrite <- app_assoc in Hl.
  symmetry in Hl. by apply app_ne_self in Hl.
Qed.

Lemma filled_old (fs : FS) (t : path) files (q : path) :
  ¬ t `prefix_of` q → filled fs t files !! q = fs !! q.
Proof.
  intros Hq. unfold filled. rewrite drop_files_outside.
  - apply lookup_insert_ne. by intros <-.
  - destruct (decide (q = [])); [by right | left].
    intros <-. apply Hq. apply dirname_prefix.
Qed.

Lemma filled_dir (fs : FS) (t : path) files :
  t ≠ [] → filled fs t files !! t = Some Dir.
Proof.
  intros Ht. unfold filled. rewrite drop_files_outside.
  - apply lookup_insert_eq.
  - left. intros Heq. apply (dirname_not_below t Ht). by rewrite Heq.
Qed.

Lemma filled_new (fs : FS) (t : path) files (q : path) (n : node) :
  filled fs t files !! q = Some n →
  fs !! q = Some n ∧ q ≠ t ∨ (q = t ∧ n = Dir)
  ∨ (Path.dirname q = t ∧ q ≠ [] ∧ ∃ c, n = File c).
Proof.
  unfold filled. intros Hq. apply drop_files_new in Hq as [Hq|Hq]; [|auto].
  rewrite lookup_insert in Hq. case_decide; [right; left | left]; split;
    congruence.
Qed.

(** On a well-formed file system the temporary directory is all the
    adapter adds, and removing it gives the file system back. *)
Lemma filled_subseteq (fs : FS) (t : path) files :
  Fs.wf fs → fs !! t = None → t ≠ [] → fs ⊆ filled fs t files.
Proof.
  intros Hwf Ht Htn. apply map_subseteq_spec. intros q n Hq.
  rewrite filled_old; [done|]. intros Hpre.
  rewrite (wf_nothing_below fs t) in Hq; [done..| |done].
  by rewrite node_at_lookup.
Qed.

Lemma filled_wf (fs : FS) (t : path) files :
  Fs.wf fs → fs !! t = None → t ≠ [] →
  Fs.node_at fs (Path.dirname t) = Some Dir → Fs.wf (filled fs t files).
Proof.
  intros Hwf Ht Htn Hd q n Hq.
  assert (Hbelow : ∀ q, t `prefix_of` q → fs !! q = None).
  { apply wf_nothing_below; [done|]. by rewrite node_at_lookup. }
  assert (Hkeep : ∀ a, ¬ t `prefix_of` a →
            Fs.node_at fs a = Some Dir →
            Fs.node_at (filled fs t files) a = Some Dir).
  { intros a Ha Hda. destruct (decide (a = [])) as [->|Han]; [done|].
    rewrite node_at_lookup in Hda |- * by done. by rewrite filled_old. }
  apply filled_new in Hq as [[Hq Hqt]|[[-> ->]|(Hqd & Hqn & c & ->)]].
  - destruct (Hwf _ _ Hq) as [Hqn Hqd]. split; [done|].
    apply Hkeep; [|done]. intros Hpre.
    rewrite Hbelow in Hq; [done|]. etrans; [exact Hpre|apply dirname_prefix].
  - split; [done|]. apply Hkeep; [|done]. by apply dirname_not_below.
  - split; [done|]. rewrite Hqd, node_at_lookup by done. by apply filled_dir.
Qed.

Lemma filled_removed (fs : FS) (t : path) files :
  Fs.wf fs → fs !! t = None → t ≠ [] →
  Fs.rm_recursive_force (filled fs t files) t = fs.
Proof.
  intros Hwf Ht Htn. apply map_eq. intros q.
  rewrite rm_recursive_lookup. case_decide as Hpre.
  - symmetry. apply (wf_nothing_below fs t); [done| |done].
    by rewrite node_at_lookup.
  - by apply filled_old.
Qed.

Lemma footprint_wf (fs fs' : FS) :
  Fs.wf fs → footprint fs fs' → Fs.wf fs' ∧ fs ⊆ fs'.
Proof.
  intros Hwf [|t files Ht Htn Hd|t files Ht Htn Hd].
  - done.
  - split; [by apply filled_wf | by apply filled_subseteq].
  - by rewrite filled_removed.
Qed.

(** Without any assumption on the file system: a path that is missing in
    an existing directory does not become a regular file. *)
Lemma footprint_no_file (fs fs' : FS) (q : path) :
  footprint fs fs' → fs !! q = None →
  Fs.node_at fs (Path.dirname q) = Some Dir →
  ∀ c, fs' !! q ≠ Some (File c).
Proof.
  intros Hfp Hq Hd c.
  assert (Hfilled : ∀ t files, fs !! t = None → t ≠ [] →
            filled fs t files !! q ≠ Some (File c)).
  { intros t files Ht Htn Hf.
    apply filled_new in Hf as [[Hf _]|[[_ Hf]|(Hqd & Hqn & _)]];
      [congruence|done|].
    rewrite Hqd, node_at_lookup in Hd by done. congruence. }
  destruct Hfp as [|t files Ht Htn _|t files Ht Htn _].
  - congruence.
  - by apply Hfilled.
  - rewrite rm_recursive_lookup. case_decide; [done | by apply Hfilled].
Qed.

(** * The rules of [wp] *)

Lemma wp_run {A} (c : M A) Q w r w' : c w = (r, w') → wp c Q w → Q r w'.
Proof. unfold wp. by intros ->. Qed.

Lemma wp_mono {A} (c : M A) (Q Q' : Res A → World → Prop) w :
  wp c Q w → (∀ r w', Q r w' → Q' r w') → wp c Q' w.
Proof. unfold wp. auto. Qed.

Lemma wp_ret {A} (a : A) Q w : Q (Ok a) w → wp (ret a) Q w.
Proof. done. Qed.

Lemma wp_throw {A} (e : error) (Q : Res A → World → Prop) w :
  Q (Throw e) w → wp (throw e) Q w.
Proof. done. Qed.

Lemma wp_bind {A B} (c : M A) (k : A → M B) Q w :
  wp c (fun r w' =>
          match r with
          | Ok a => wp (k a) Q w'
          | Throw e => Q (Throw e) w'
          end) w →
  wp (c ≫= k) Q w.
Proof.
  unfold wp, mbind, M_bind, bind. by destruct (c w) as [[a|e] w'].
Qed.

Lemma wp_try_catch {A} (c : M A) (h : error → M A) Q w :
  wp c (fun r w' =>
          match r with
          | Ok a => Q (Ok a) w'
          | Throw e => wp (h e) Q w'
          end) w →
  wp (try_catch c h) Q w.
Proof. unfold wp, try_catch. by destruct (c w) as [[a|e] w']. Qed.

Lemma wp_try_finally {A} (c : M A) (f : M unit) Q w :
  wp c (fun r w' =>
          wp f (fun rf w'' =>
                  match rf with
                  | Ok _ => Q r w''
                  | Throw e => Q (Throw e) w''
                  end) w') w →
  wp (try_finally c f) Q w.
Proof.
  unfold wp, try_finally. destruct (c w) as [r w']. simpl.
  by destruct (f w') as [[[]|e] w''].
Qed.

Lemma wp_emit (e : event) Q w : Q (Ok tt) (observe e w) → wp (emit e) Q w.
Proof. done. Qed.

Lemma wp_on_fs {A} (f : FS → Res A) Q w : Q (f (fs w)) w → wp (on_fs f) Q w.
Proof. done. Qed.

Lemma wp_change_fs {A} (f : FS → Res (A * FS)) Q w :
  match f (fs w) with
  | Ok (a, fs') => Q (Ok a) (with_fs fs' w)
  | Throw e => Q (Throw e) w
  end →
  wp (change_fs f) Q w.
Proof. unfold wp, change_fs. by destruct (f (fs w)) as [[a fs']|e]. Qed.

Lemma wp_fs_query {A} (call : syscall) (p : path) (f : FS → Res A) Q w :
  Q (f (fs w)) (observe (FsCall call p) w) → wp (fs_query call p f) Q w.
Proof.
  intros HQ. unfold fs_query. apply wp_bind, wp_emit. cbv beta iota.
  by apply wp_on_fs.
Qed.

Lemma wp_fs_update {A} (call : syscall) (p : path)
    (f : FS → Res (A * FS)) Q w :
  match f (fs w) with
  | Ok (a, fs') => Q (Ok a) (with_fs fs' (observe (FsCall call p) w))
  | Throw e => Q (Throw e) (observe (FsCall call p) w)
  end →
  wp (fs_update call p f) Q w.
Proof.
  intros HQ. unfold fs_update. apply wp_bind, wp_emit. cbv beta iota.
  by apply wp_change_fs.
Qed.

Lemma wp_set_exitCode n Q w :
  Q (Ok tt) {| fs := fs w; trace := trace w; exitCode := Some n |} →
  wp (set_exitCode n) Q w.
Proof. done. Qed.

Ltac wp_step :=
  cbv beta iota;
  lazymatch goal with
  | |- wp (mbind _ (convertDocument _)) _ _ => fail "the adapter"
  | |- wp (try_catch (mbind _ (convertDocument _)) _) _ _ =>
      fail "the adapter"
  | |- wp (mbind _ _) _ _ => apply wp_bind
  | |- wp (ret _) _ _ => apply wp_ret
  | |- wp (throw _) _ _ => apply wp_throw
  | |- wp (emit _) _ _ => apply wp_emit
  | |- wp (fs_query _ _ _) _ _ => apply wp_fs_query
  | |- wp (fs_update _ _ _) _ _ => apply wp_fs_update
  | |- wp (on_fs _) _ _ => apply wp_on_fs
  | |- wp (change_fs _) _ _ => apply wp_change_fs
  | |- wp (try_catch _ _) _ _ => apply wp_try_catch
  | |- wp (try_finally _ _) _ _ => apply wp_try_finally
  | |- wp (set_exitCode _) _ _ => apply wp_set_exitCode
  end;
  cbv beta iota; cbn [trace exitCode fs observe with_fs].

Ltac wp_steps :=
  repeat (unfold fs_stat, fs_access, fs_readFile, fs_readdir,
            fs_mkdir_recursive, fs_rm_force, fs_rm_recursive_force,
            fs_writeFile, console_log, console_warn, console_error;
          wp_step).


Lemma since_refl w : since w w [].
Proof. split; [by rewrite app_nil_r | done]. Qed.

Lemma since_observe w w' tr e :
  since w w' tr → since w (observe e w') (tr ++ [e]).
Proof. intros [Ht He]. split; simpl; [by rewrite Ht, app_assoc | done]. Qed.

Lemma since_trans w1 w2 w3 tr tr' :
  since w1 w2 tr → since w2 w3 tr' → since w1 w3 (tr ++ tr').
Proof.
  intros [Ht He] [Ht' He']. split; [|congruence].
  by rewrite Ht', Ht, app_assoc.
Qed.

Ltac world_simpl :=
  cbn [trace exitCode fs observe with_fs probed cleared] in *.

Ltac since_solve :=
  unfold since; world_simpl; rewrite <- ?app_assoc; cbn [app];
  split; reflexivity.

(** * The adapter *)

Section AdapterFacts.

Context `{Platform}.

Lemma mkdtemp_spec (fs fs' : FS) (dir : path) (pre rnd : string) (t : path) :
  Fs.mkdtemp fs dir pre rnd = Ok (t, fs') →
  t = Path.join dir (pre +:+ rnd) ∧ fs !! t = None
  ∧ Fs.node_at fs (Path.dirname t) = Some Dir ∧ fs' = <[t := Dir]> fs.
Proof.
  unfold Fs.mkdtemp.
  destruct (Fs.node_at fs dir) as [[| |]|] eqn:Ed; try discriminate.
  destruct (fs !! Path.join dir (pre +:+ rnd)) eqn:Et; [discriminate|].
  intros [= <- <-]. by rewrite dirname_join.
Qed.

(** Lines 51-54 make one library call and change nothing. *)
Lemma convertDocxToMarkdown_run (p : path) (w : World) :
  convertDocxToMarkdown p w
  = (docx_markdown (fs w) p, observe (MammothCall p) w).
Proof.
  unfold convertDocxToMarkdown, mammoth_convertToHtml, docx_markdown.
  unfold mbind, M_bind, bind, emit, on_fs, lift_lib. world_simpl.
  destruct (Fs.readFile (fs w) p) as [bytes|e]; [|done].
  by destruct (mammoth_html bytes).
Qed.

Lemma wp_convertDocxToMarkdown (p : path) Q w :
  Q (docx_markdown (fs w) p) (observe (MammothCall p) w) →
  wp (convertDocxToMarkdown p) Q w.
Proof. unfold wp. by rewrite convertDocxToMarkdown_run. Qed.

(** Lines 103-119 read the file, call the parser and change nothing. *)
Lemma wp_convertPdfToMarkdown (p : path) (Q : Res string → World → Prop) w :
  (∀ r tr, Forall (fun e => adapter_internal e = true) tr →
           (∀ w', since w w' tr → fs w' = fs w → Q r w')) →
  wp (convertPdfToMarkdown p) Q w.
Proof.
  intros HQ. unfold convertPdfToMarkdown. wp_steps.
  destruct (Fs.readFile (fs w) p) as [bytes|e].
  - wp_steps. unfold lift_lib.
    destruct (pdf_text bytes); wp_steps;
      (eapply HQ; [|since_solve|done]); by repeat constructor.
  - eapply HQ; [|since_solve|done]. by repeat constructor.
Qed.

(** What one call of the adapter does to the world: it announces
    itself, makes calls of its own, prints nothing, leaves
    [process.exitCode] alone, and its footprint on the file system is the
    temporary directory. *)
Lemma convertDocument_spec (p : path) (w : World) :
  wp (convertDocument p)
    (fun _ w' =>
       ∃ tr, since w w' (Adapter p :: tr)
             ∧ Forall (fun e => adapter_internal e = true) tr
             ∧ footprint (fs w) (fs w')) w.
Proof.
  unfold convertDocument. wp_steps.
  destruct (String.eqb _ ".docx").
  { apply wp_convertDocxToMarkdown. eexists. split; [since_solve|].
    split; [by repeat constructor | constructor]. }
  destruct (String.eqb _ ".doc").
  2:{ destruct (String.eqb _ ".pdf").
      - apply wp_convertPdfToMarkdown. intros r tr Htr w' Hs Hfs.
        exists tr. split; [|split; [done|]].
        + destruct Hs as [Ht He]. split; world_simpl; [|done].
          by rewrite Ht, <- app_assoc.
        + rewrite Hfs. constructor.
      - wp_steps. exists []. split; [since_solve|]. split; constructor. }
  unfold convertDocToDocx, fs_mkdtemp. wp_steps. world_simpl.
  destruct (Fs.mkdtemp _ _ _ _) as [[t fs1]|e] eqn:Emk.
  2:{ exists [FsCall SysMkdtemp (Path.join os_tmpdir "input-docx-")].
      split; [since_solve|]. split; [by repeat constructor | constructor]. }
  apply mkdtemp_spec in Emk as (Ht & Hnone & Hdir & ->).
  assert (Htn : t ≠ []) by (rewrite Ht; apply join_not_nil).
  unfold runLibreOfficeConversion, spawn_soffice. wp_steps. world_simpl.
  set (run := soffice (<[t:=Dir]> (fs w)) p t).
  fold (filled (fs w) t (written run)).
  assert (Hleft : footprint (fs w) (filled (fs w) t (written run)))
    by (by constructor).
  destruct (ended run) as [code|code signal].
  { wp_steps. eexists. split; [since_solve|].
    split; [by repeat constructor | done]. }
  case_bool_decide.
  2:{ wp_steps. eexists. split; [since_solve|].
      split; [by repeat constructor | done]. }
  wp_steps. world_simpl.
  destruct (Fs.access _ _).
  2:{ eexists. split; [since_solve|].
      split; [by repeat constructor | done]. }
  wp_steps. cbn [fst snd]. apply wp_convertDocxToMarkdown.
  wp_steps. world_simpl.
  assert (Hrem : footprint (fs w)
            (Fs.rm_recursive_force (filled (fs w) t (written run)) t))
    by (by constructor).
  eexists. split; [since_solve|]. split; [by repeat constructor | done].
Qed.

Lemma convert_and_write_spec (source target : path) (w : World) :
  wp (convert_and_write source target) (converted source target w) w.
Proof.
  unfold convert_and_write. apply wp_bind.
  pose proof (convertDocument_spec source w) as Hspec. unfold wp in Hspec.
  unfold wp at 1.
  destruct (convertDocument source w) as [[md|e] w1] eqn:E;
    cbn [fst snd] in *; destruct Hspec as (tr & Hs & Hin & Hfp).
  - wp_steps. unfold with_unit.
    destruct (Fs.writeFile (fs w1) target md) as [fs4|e] eqn:Ew.
    + wp_steps. eapply (cw_written _ _ _ md (fs w1)); try done.
      * by rewrite E.
      * eapply (since_trans _ _ _ (Adapter source :: tr)); [done|].
        since_solve.
    + eapply (cw_write_failed _ _ _ md); try done.
      * by rewrite E.
      * eapply (since_trans _ _ _ (Adapter source :: tr)); [done|].
        since_solve.
  - eapply cw_conversion_failed; try done. by rewrite E.
Qed.

End AdapterFacts.


(** * The single-file orchestrator *)

Section SingleFileFacts.

Context `{Platform}.

Lemma stat_node (fs : FS) (p : path) (n : node) :
  Fs.stat fs p = Ok n ↔ Fs.node_at fs p = Some n.
Proof.
  unfold Fs.stat. destruct (Fs.node_at fs p); split; intros; simplify_eq; done.
Qed.

Lemma rm_force_leaf (fs : FS) (p : path) (n : node) :
  Fs.node_at fs p = Some n → n ≠ Dir → Fs.rm_force fs p = Ok (delete p fs).
Proof. unfold Fs.rm_force. intros -> Hn. by destruct n. Qed.

Lemma convertSingleFile_spec (inputPath outputPath : path)
    (clearOutput : bool) (w : World) :
  wp (convertSingleFile inputPath outputPath clearOutput)
    (single_file_run inputPath outputPath clearOutput w) w.
Proof.
  unfold convertSingleFile.
  destruct (supportedExtensions_has (Path.extname_of inputPath)) eqn:Hext;
    cbn [negb].
  2:{ wp_steps. by constructor. }
  wp_steps. unfold with_unit.
  destruct (Fs.mkdir_recursive (fs w) (Path.dirname outputPath))
    as [fs1|e] eqn:Emk.
  2:{ by constructor. }
  wp_steps.
  destruct (Fs.stat fs1 outputPath) as [n|e] eqn:Est.
  - apply stat_node in Est.
    destruct (decide (n = Dir)) as [->|Hn].
    { cbn [Fs.isDirectory]. wp_steps.
      change (not_ENOENT OutputIsDirectory) with true. wp_steps.
      by eapply sf_output_is_directory. }
    replace (Fs.isDirectory n) with false by (by destruct n).
    destruct clearOutput.
    + wp_steps. rewrite (rm_force_leaf fs1 outputPath n) by done.
      wp_steps.
      apply (wp_mono _ _ _ _ (convert_and_write_spec inputPath outputPath _)).
      intros r w' Hc. by eapply sf_cleared.
    + wp_steps. by eapply sf_skipped.
  - wp_steps. destruct (not_ENOENT e) eqn:Ecode.
    + wp_steps. by eapply sf_probe_failed.
    + wp_steps.
      apply (wp_mono _ _ _ _ (convert_and_write_spec inputPath outputPath _)).
      intros r w' Hc. by eapply sf_fresh.
Qed.

Lemma node_at_mono (fs fs' : FS) (p : path) (n : node) :
  fs ⊆ fs' → Fs.node_at fs p = Some n → Fs.node_at fs' p = Some n.
Proof.
  destruct p; [done|]. cbn [Fs.node_at]. intros Hsub Hp.
  by eapply lookup_weaken.
Qed.

Lemma dirname_ne (p : path) : p ≠ [] → Path.dirname p ≠ p.
Proof.
  intros Hp Heq. apply (dirname_not_below p Hp). by rewrite Heq.
Qed.

Lemma node_at_delete_ne (fs : FS) (p q : path) :
  q ≠ p → Fs.node_at (delete p fs) q = Fs.node_at fs q.
Proof. destruct q; [done|]. intros Hq. by apply lookup_delete_ne. Qed.

Lemma node_at_insert_ne (fs : FS) (p q : path) (n : node) :
  q ≠ p → Fs.node_at (<[p := n]> fs) q = Fs.node_at fs q.
Proof. destruct q; [done|]. intros Hq. by apply lookup_insert_ne. Qed.

Lemma wf_parent (fs : FS) (p : path) (n : node) :
  Fs.wf fs → Fs.node_at fs p = Some n →
  Fs.node_at fs (Path.dirname p) = Some Dir.
Proof.
  intros Hwf Hp. destruct (decide (p = [])) as [->|Hn]; [done|].
  rewrite node_at_lookup in Hp by done. by apply Hwf in Hp as [_ ?].
Qed.

(** Once the gate is passed, the [mkdir] of line 152 is the first call. *)
Lemma single_file_run_trace inputPath outputPath clearOutput w r w' :
  single_file_run inputPath outputPath clearOutput w r w' →
  supportedExtensions_has (Path.extname_of inputPath) = true →
  ∃ tr, since w w' (FsCall SysMkdir (Path.dirname outputPath) :: tr).
Proof.
  intros Hrun Hext.
  assert (Hconv : ∀ w0 pre, since w w0 pre →
            converted inputPath outputPath w0 r w' →
            ∃ tr, since w w' (pre ++ tr)).
  { intros w0 pre Hpre Hc. destruct Hc; eexists; by eapply since_trans. }
  destruct Hrun as [Hno| | | | |fs1 n r w' _ _ _ _ _ Hc|fs1 e r w' _ _ _ _ Hc].
  - congruence.
  - eexists. since_solve.
  - eexists. since_solve.
  - eexists. since_solve.
  - eexists. since_solve.
  - eapply (Hconv _ [_; _; _]) in Hc; [|since_solve].
    destruct Hc as [tr Hc]. by eexists.
  - eapply (Hconv _ [_; _]) in Hc; [|since_solve].
    destruct Hc as [tr Hc]. by eexists.
Qed.

(** The file system after a run that ended in [converted], seen from a
    path that the write does not touch. *)
Lemma converted_keeps_dir source target w r w' (d : path) :
  converted source target w r w' → Fs.wf (fs w) →
  Fs.node_at (fs w) d = Some Dir → d ≠ target →
  Fs.node_at (fs w') d = Some Dir.
Proof.
  intros Hc Hwf Hd Hne.
  destruct Hc as [e w' tr _ _ _ Hfp|md e w' tr _ _ _ Hfp _
                 |md fs_mid w' tr _ _ _ Hfp Hw].
  - apply footprint_wf in Hfp as [_ Hsub]; [|done]. by eapply node_at_mono.
  - apply footprint_wf in Hfp as [_ Hsub]; [|done]. by eapply node_at_mono.
  - apply footprint_wf in Hfp as [_ Hsub]; [|done].
    apply writeFile_spec in Hw as [->|(-> & _)].
    + by eapply node_at_mono.
    + rewrite node_at_insert_ne by done. by eapply node_at_mono.
Qed.

(** A run that ended in [converted] with an error left no regular file
    at a target that was missing in an existing directory. *)
Lemma converted_error_no_file source target w e w' :
  converted source target w (Throw e) w' →
  fs w !! target = None →
  Fs.node_at (fs w) (Path.dirname target) = Some Dir →
  ∀ c, fs w' !! target ≠ Some (File c).
Proof.
  intros Hc Hnone Hd. inversion Hc; subst; by eapply footprint_no_file.
Qed.

End SingleFileFacts.

(** * The claims about the format gate and the single-file mode *)

Section SingleFileClaims.

Context `{Platform}.

Lemma convertSingleFile_run inputPath outputPath clearOutput w r w' :
  convertSingleFile inputPath outputPath clearOutput w = (r, w') →
  single_file_run inputPath outputPath clearOutput w r w'.
Proof.
  intros Hrun. exact (wp_run _ _ _ _ _ Hrun (convertSingleFile_spec _ _ _ _)).
Qed.

(** C3.  The gate of lines 148 and 192 lets a path through exactly when
    [path.extname] of it is one of the six literal strings [.docx],
    [.DOCX], [.doc], [.DOC], [.pdf], [.PDF].  [.Docx], [.txt] and a name
    without extension are not let through.  In single-file mode a path
    that is not let through ends the call with the error "Unsupported
    input file" before anything else happens, and a path that is let
    through reaches the [mkdir] of line 152; in directory mode the files
    that are enumerated are the regular files whose extension is one of
    the six. *)
Theorem C3_format_gate :
  (∀ p : path,
     supportedExtensions_has (Path.extname_of p) = true
     ↔ In (Path.extname_of p) six_extensions)
  ∧ (∀ ext, In ext six_extensions → Path.extname ("resume" +:+ ext) = ext)
  ∧ (supportedExtensions_has (Path.extname "resume.Docx") = false
     ∧ supportedExtensions_has (Path.extname "report.txt") = false
     ∧ supportedExtensions_has (Path.extname "README") = false)
  ∧ (∀ inputPath outputPath clearOutput w,
       supportedExtensions_has (Path.extname_of inputPath) = false →
       convertSingleFile inputPath outputPath clearOutput w
       = (Throw (UnsupportedInputFile inputPath), w))
  ∧ (∀ inputPath outputPath clearOutput w,
       supportedExtensions_has (Path.extname_of inputPath) = true →
       ∃ tr, since w (convertSingleFile inputPath outputPath clearOutput w).2
               (FsCall SysMkdir (Path.dirname outputPath) :: tr))
  ∧ (∀ entries entry,
       In entry (supported_files entries)
       ↔ In entry entries ∧ Fs.isFile (Fs.kind entry) = true
         ∧ In (Path.extname (Fs.name entry)) six_extensions).
Proof.
  split; [intros p; apply supported_iff|].
  split.
  { simpl. intros ext [<-|[<-|[<-|[<-|[<-|[<-|[]]]]]]]; by vm_compute. }
  split; [by vm_compute|].
  split.
  { intros inputPath outputPath clearOutput w Hext.
    unfold convertSingleFile. by rewrite Hext. }
  split.
  { intros inputPath outputPath clearOutput w Hext.
    eapply single_file_run_trace; [|done].
    apply convertSingleFile_run. apply surjective_pairing. }
  intros entries entry. unfold supported_files.
  rewrite !filter_In, supported_iff. tauto.
Qed.

(** C6.  In single-file mode, whenever the output path exists and is a
    directory, the call ends with an error, whatever [clearOutput] is;
    the only calls it has made are the [mkdir] of line 152 and the [stat]
    of line 155, so the adapter was not invoked and nothing was written;
    the regular files on disk are the ones that were there.  On a
    well-formed file system and with a supported input the error is the
    one of line 157 and the file system is unchanged. *)
Theorem C6_output_path_is_directory (inputPath outputPath : path)
    (clearOutput : bool) (w : World) :
  Fs.node_at (fs w) outputPath = Some Dir →
  ∃ e w' tr,
    convertSingleFile inputPath outputPath clearOutput w = (Throw e, w')
    ∧ since w w' tr
    ∧ tr `prefix_of` [FsCall SysMkdir (Path.dirname outputPath);
                      FsCall SysStat outputPath]
    ∧ (∀ q c, fs w' !! q = Some (File c) ↔ fs w !! q = Some (File c))
    ∧ (supportedExtensions_has (Path.extname_of inputPath) = true →
       Fs.wf (fs w) → e = OutputIsDirectory ∧ fs w' = fs w).
Proof.
  intros Hdir.
  destruct (convertSingleFile inputPath outputPath clearOutput w)
    as [r w'] eqn:Hrun.
  apply convertSingleFile_run in Hrun.
  assert (Hmk : ∀ fs1,
            Fs.mkdir_recursive (fs w) (Path.dirname outputPath) = Ok fs1 →
            Fs.node_at fs1 outputPath = Some Dir
            ∧ (∀ q c, fs1 !! q = Some (File c) ↔ fs w !! q = Some (File c))
            ∧ (Fs.wf (fs w) → fs1 = fs w)).
  { intros fs1 Hfs1. pose proof Hfs1 as Hspec.
    apply mkdir_recursive_spec in Hspec as (_ & Hsub & Hnew & _).
    split; [by eapply node_at_mono|]. split.
    - intros q c. split.
      + intros Hq. by apply Hnew in Hq as [Hq|Hq].
      + intros Hq. by eapply lookup_weaken.
    - intros Hwf.
      rewrite mkdir_recursive_existing in Hfs1; [congruence|done|].
      by eapply wf_parent. }
  destruct Hrun as [Hno|e Hext Hfail|fs1 Hext Hfs1 Hout|fs1 n Hext Hfs1 Hout Hn
                   |fs1 e Hext Hfs1 Hst|fs1 n r w' Hext Hfs1 Hout Hn
                   |fs1 e r w' Hext Hfs1 Hst].
  - exists (UnsupportedInputFile inputPath), w, []. split; [done|].
    split; [apply since_refl|]. split; [by eexists|]. split; [done|].
    congruence.
  - eexists e, _, [_]. split; [done|]. split; [since_solve|].
    split; [by eexists|]. split; [done|].
    intros _ Hwf. rewrite mkdir_recursive_existing in Hfail; [done..|].
    by eapply wf_parent.
  - destruct (Hmk _ Hfs1) as (_ & Hfiles & Hsame).
    eexists OutputIsDirectory, _, [_; _]. split; [done|].
    split; [since_solve|]. split; [done|]. split; [done|].
    intros _ Hwf. split; [done|]. by apply Hsame.
  - destruct (Hmk _ Hfs1) as (Hd & _). congruence.
  - destruct (Hmk _ Hfs1) as (Hd & _). apply stat_node in Hd. congruence.
  - destruct (Hmk _ Hfs1) as (Hd & _). congruence.
  - destruct (Hmk _ Hfs1) as (Hd & _). apply stat_node in Hd. congruence.
Qed.

(** C8.  In single-file mode with [clearOutput] set and a regular file at
    the output path (on a well-formed file system, with a supported
    input): the calls of the run are the [mkdir], the [stat], the [rm] of
    line 163 and only then the adapter, which starts in a world where the
    output path is gone.  If the adapter fails in that world, its error
    is the result of the call; and whenever the call ends with an error,
    there is no regular file at the output path: the old output is
    lost. *)
Theorem C8_cleared_output_is_lost (inputPath outputPath : path)
    (w : World) (old : string) :
  supportedExtensions_has (Path.extname_of inputPath) = true →
  Fs.wf (fs w) →
  fs w !! outputPath = Some (File old) →
  fs (cleared outputPath (fs w) w) !! outputPath = None
  ∧ ∀ r w', convertSingleFile inputPath outputPath true w = (r, w') →
      (∃ tr, since w w'
               ([FsCall SysMkdir (Path.dirname outputPath);
                 FsCall SysStat outputPath;
                 FsCall SysRm outputPath;
                 Adapter inputPath] ++ tr))
      ∧ (∀ e, (convertDocument inputPath (cleared outputPath (fs w) w)).1
              = Throw e → r = Throw e)
      ∧ (∀ e, r = Throw e → ∀ c, fs w' !! outputPath ≠ Some (File c)).
Proof.
  intros Hext Hwf Hold.
  assert (Hout : outputPath ≠ []).
  { intros ->. by apply Hwf in Hold as [? _]. }
  assert (Hnode : Fs.node_at (fs w) outputPath = Some (File old))
    by (by rewrite node_at_lookup).
  assert (Hparent : Fs.node_at (fs w) (Path.dirname outputPath) = Some Dir)
    by (by eapply wf_parent).
  assert (Hmk : Fs.mkdir_recursive (fs w) (Path.dirname outputPath)
                = Ok (fs w)) by (by apply mkdir_recursive_existing).
  split; [world_simpl; apply lookup_delete_eq|].
  intros r w' Hrun. apply convertSingleFile_run in Hrun.
  destruct Hrun as [Hno|e _ Hfail|fs1 _ Hfs1 Hdir|fs1 n _ Hfs1 _ _ Hclear
                   |fs1 e _ Hfs1 Hst _|fs1 n r w' _ Hfs1 _ _ _ Hc
                   |fs1 e r w' _ Hfs1 Hst _ _]; try congruence.
  - rewrite Hmk in Hfs1. injection Hfs1 as <-.
    apply stat_node in Hnode. congruence.
  - rewrite Hmk in Hfs1. injection Hfs1 as <-.
    assert (Hgone : fs (cleared outputPath (fs w) w) !! outputPath = None)
      by (world_simpl; apply lookup_delete_eq).
    assert (Hpar : Fs.node_at (fs (cleared outputPath (fs w) w))
                     (Path.dirname outputPath) = Some Dir).
    { world_simpl. rewrite node_at_delete_ne; [done|]. by apply dirname_ne. }
    split; [|split].
    + assert (Hpre : since w (cleared outputPath (fs w) w)
                       [FsCall SysMkdir (Path.dirname outputPath);
                        FsCall SysStat outputPath; FsCall SysRm outputPath])
        by since_solve.
      destruct Hc as [e w' tr _ Hs _ _|md e w' tr _ Hs _ _ _
                     |md fs_mid w' tr _ Hs _ _ _];
        eexists; (eapply (since_trans _ _ _ [_; _; _]) in Hs; [|exact Hpre]);
        exact Hs.
    + intros e He. inversion Hc; subst; congruence.
    + intros e -> c. by eapply converted_error_no_file.
  - rewrite Hmk in Hfs1. injection Hfs1 as <-.
    apply stat_node in Hnode. congruence.
Qed.

(** C10.  In single-file mode the rejection of an unsupported extension
    leaves the world as it was: no call is made.  With a supported
    extension the first call of every run is the recursive [mkdir] of the
    directory of the output path, before any probe of the output path.
    When that [mkdir] fails, its error ends the run and nothing else is
    called; when it succeeds, the directory exists from then on, and (on
    a well-formed file system) it still exists when the run ends,
    however it ends: skipped, failed in the conversion or the write, or
    converted. *)
Theorem C10_parent_directory_created (inputPath outputPath : path)
    (clearOutput : bool) (w : World) :
  (supportedExtensions_has (Path.extname_of inputPath) = false →
   convertSingleFile inputPath outputPath clearOutput w
   = (Throw (UnsupportedInputFile inputPath), w))
  ∧ (supportedExtensions_has (Path.extname_of inputPath) = true →
     ∀ r w', convertSingleFile inputPath outputPath clearOutput w = (r, w') →
       (∃ tr, since w w' (FsCall SysMkdir (Path.dirname outputPath) :: tr))
       ∧ (∀ e, Fs.mkdir_recursive (fs w) (Path.dirname outputPath) = Throw e →
               r = Throw e
               ∧ w' = observe (FsCall SysMkdir (Path.dirname outputPath)) w)
       ∧ (∀ fs1, Fs.mkdir_recursive (fs w) (Path.dirname outputPath) = Ok fs1 →
                 Fs.node_at fs1 (Path.dirname outputPath) = Some Dir
                 ∧ (Fs.wf (fs w) →
                    Fs.node_at (fs w') (Path.dirname outputPath) = Some Dir))).
Proof.
  split.
  { intros Hext. unfold convertSingleFile. by rewrite Hext. }
  intros Hext r w' Hrun. apply convertSingleFile_run in Hrun.
  split; [by eapply single_file_run_trace|].
  assert (Hmk : ∀ fs1,
            Fs.mkdir_recursive (fs w) (Path.dirname outputPath) = Ok fs1 →
            Fs.node_at fs1 (Path.dirname outputPath) = Some Dir
            ∧ (Fs.wf (fs w) → Fs.wf fs1)).
  { intros fs1 Hfs1.
    by apply mkdir_recursive_spec in Hfs1 as (? & _ & _ & ?). }
  destruct Hrun as [Hno|e0 _ Hfail|fs1 _ Hfs1 Hdir|fs1 n _ Hfs1 Hout Hn _
                   |fs1 e0 _ Hfs1 Hst _|fs1 n r w' _ Hfs1 Hout Hn _ Hc
                   |fs1 e0 r w' _ Hfs1 Hst _ Hc]; [congruence|..].
  - split; [intros e He; split; congruence | congruence].
  - split; [congruence|]. intros fs1' Heq.
    rewrite Hfs1 in Heq. injection Heq as <-.
    destruct (Hmk _ Hfs1) as [Hd _]. by split.
  - split; [congruence|]. intros fs1' Heq.
    rewrite Hfs1 in Heq. injection Heq as <-.
    destruct (Hmk _ Hfs1) as [Hd _]. by split.
  - split; [congruence|]. intros fs1' Heq.
    rewrite Hfs1 in Heq. injection Heq as <-.
    destruct (Hmk _ Hfs1) as [Hd _]. by split.
  - split; [congruence|]. intros fs1' Heq.
    rewrite Hfs1 in Heq. injection Heq as <-.
    destruct (Hmk _ Hfs1) as [Hd Hwf1]. split; [done|]. intros Hwf.
    assert (Hnn : outputPath ≠ []).
    { intros ->. cbn in Hout. congruence. }
    rewrite node_at_lookup in Hout by done.
    eapply converted_keeps_dir; [exact Hc| | |by apply dirname_ne].
    + world_simpl. eapply wf_delete_leaf; eauto.
    + world_simpl. rewrite node_at_delete_ne; [done|]. by apply dirname_ne.
  - split; [congruence|]. intros fs1' Heq.
    rewrite Hfs1 in Heq. injection Heq as <-.
    destruct (Hmk _ Hfs1) as [Hd Hwf1]. split; [done|]. intros Hwf.
    assert (Hnn : outputPath ≠ []).
    { intros ->. by cbn in Hst. }
    eapply converted_keeps_dir; [exact Hc| | |by apply dirname_ne].
    + world_simpl. by apply Hwf1.
    + by world_simpl.
Qed.

End SingleFileClaims.

(** * The claims about the adapter *)

Section AdapterClaims.

Context `{Platform}.

Lemma readFile_error (fs : FS) (p : path) (e : error) :
  Fs.readFile fs p = Throw e → adapter_error e = true.
Proof.
  unfold Fs.readFile. destruct (Fs.node_at fs p) as [[| |]|];
    intros [= <-]; done.
Qed.

Lemma docx_markdown_error (fs : FS) (p : path) (e : error) :
  docx_markdown fs p = Throw e → adapter_error e = true.
Proof.
  unfold docx_markdown. destruct (Fs.readFile fs p) as [bytes|e'] eqn:E.
  - destruct (mammoth_html bytes); intros [= <-]; done.
  - intros [= <-]. by eapply readFile_error.
Qed.

(** An adapter that found its branch ends with an error of the platform,
    of the office suite or of a parser, if it ends with an error. *)
Lemma convertDocument_errors (filePath : path) (w : World) :
  supportedExtensions_has (Path.extname_of filePath) = true →
  wp (convertDocument filePath)
    (fun r _ => ∀ e, r = Throw e → adapter_error e = true) w.
Proof.
  intros Hext. apply supported_lowercase in Hext.
  unfold convertDocument. wp_steps.
  destruct (String.eqb _ ".docx") eqn:E1.
  { apply wp_convertDocxToMarkdown. apply docx_markdown_error. }
  destruct (String.eqb _ ".doc") eqn:E2.
  2:{ destruct (String.eqb _ ".pdf") eqn:E3.
      - unfold convertPdfToMarkdown. wp_steps.
        destruct (Fs.readFile (fs w) filePath) as [bytes|e] eqn:Er.
        + wp_steps. unfold lift_lib.
          destruct (pdf_text bytes); wp_steps; by intros e [= <-].
        + intros e' [= <-]. by eapply readFile_error.
      - apply String.eqb_neq in E1, E2, E3. by destruct Hext as [?|[?|?]]. }
  unfold convertDocToDocx, fs_mkdtemp. wp_steps.
  destruct (Fs.mkdtemp _ _ _ _) as [[t fs1]|e] eqn:Emk.
  2:{ unfold Fs.mkdtemp in Emk. intros e' [= <-].
      destruct (Fs.node_at (fs w) os_tmpdir) as [[| |]|];
        [|destruct (fs w !! _)|..]; by simplify_eq. }
  unfold runLibreOfficeConversion, spawn_soffice. wp_steps.
  destruct (ended _) as [code|code signal].
  { wp_steps. by intros e [= <-]. }
  case_bool_decide.
  2:{ wp_steps. by intros e [= <-]. }
  wp_steps. unfold Fs.access.
  destruct (Fs.node_at _ _).
  2:{ by intros e [= <-]. }
  wp_steps. cbn [fst snd]. apply wp_convertDocxToMarkdown. wp_steps.
  apply docx_markdown_error.
Qed.

(** C9.  For a path whose extension is in the supported set, the
    lower-cased extension is [.docx], [.doc] or [.pdf], so that one of
    the three branches of lines 123-138 is taken: the adapter does not
    end with the error of line 140, and an error it ends with comes from
    the platform, the office suite or a parser. *)
Theorem C9_unsupported_branch_unreachable (filePath : path) (w : World) :
  supportedExtensions_has (Path.extname_of filePath) = true →
  (Js.toLowerCase (Path.extname_of filePath) = ".docx"
   ∨ Js.toLowerCase (Path.extname_of filePath) = ".doc"
   ∨ Js.toLowerCase (Path.extname_of filePath) = ".pdf")
  ∧ (∀ p, (convertDocument filePath w).1 ≠ Throw (UnsupportedFileType p))
  ∧ (∀ e, (convertDocument filePath w).1 = Throw e → adapter_error e = true).
Proof.
  intros Hext. split; [by apply supported_lowercase|].
  pose proof (convertDocument_errors filePath w Hext) as Herr.
  unfold wp in Herr. split; [|exact Herr].
  intros p Hp. by apply Herr in Hp.
Qed.

(** C5.  The reformatting of lines 110-118 is what the specification
    says: split on line feeds, drop the blank lines, trim the others,
    join with an empty line in between.  On the text of the
    specification it gives exactly the Markdown of the specification; and
    it is what [convertPdfToMarkdown] returns for the text that pdf-parse
    extracted from the file. *)
Theorem C5_pdf_reformatting :
  (∀ text, pdf_markdown text = pdf_reformat_spec text)
  ∧ pdf_markdown spec_pdf_text = spec_pdf_markdown
  ∧ (∀ filePath w bytes text,
       Fs.readFile (fs w) filePath = Ok bytes →
       pdf_text bytes = LibOk text →
       (convertPdfToMarkdown filePath w).1 = Ok (pdf_markdown text)).
Proof.
  split; [exact pdf_markdown_spec|]. split; [by vm_compute|].
  intros filePath w bytes text Hread Htext.
  unfold convertPdfToMarkdown, fs_readFile, fs_query, lift_lib.
  unfold mbind, M_bind, bind, emit, on_fs. world_simpl.
  by rewrite Hread, Htext.
Qed.

(** The [.doc] pipeline when the office suite delivers: the Markdown is
    the one lines 51-54 make of the temporary [.docx], and the temporary
    directory is gone when the call returns, whether mammoth failed or
    not. *)
Lemma doc_pipeline_delivered (filePath : path) (w : World) :
  Js.toLowerCase (Path.extname_of filePath) = ".doc" →
  let t := tempDir_of (fs w) in
  let run := soffice (<[t := Dir]> (fs w)) filePath t in
  let full := filled (fs w) t (written run) in
  Fs.mkdtemp (fs w) os_tmpdir "input-docx-" (mkdtemp_random (fs w))
  = Ok (t, <[t := Dir]> (fs w)) →
  ended run = ProcExit (Some 0) None →
  is_Some (full !! docxPath_of (fs w) filePath) →
  (convertDocument filePath w).1
  = docx_markdown full (docxPath_of (fs w) filePath)
  ∧ fs (convertDocument filePath w).2 !! t = None.
Proof.
  intros Hext t run full Hmk Hend Hdocx.
  change (wp (convertDocument filePath)
            (fun r w' =>
               r = docx_markdown full (docxPath_of (fs w) filePath)
               ∧ fs w' !! t = None) w).
  unfold convertDocument. wp_steps. rewrite Hext.
  change (String.eqb ".doc" ".docx") with false.
  change (String.eqb ".doc" ".doc") with true.
  unfold convertDocToDocx, fs_mkdtemp. wp_steps. rewrite Hmk.
  unfold runLibreOfficeConversion, spawn_soffice. wp_steps.
  fold run. rewrite Hend. rewrite bool_decide_eq_true_2 by done.
  wp_steps. fold (filled (fs w) t (written run)). fold full.
  unfold Fs.access. rewrite node_at_lookup by apply join_not_nil.
  change (Path.join t _) with (docxPath_of (fs w) filePath).
  destruct Hdocx as [n ->]. wp_steps. cbn [fst snd].
  apply wp_convertDocxToMarkdown. wp_steps.
  split; [done|]. apply rm_recursive_gone.
Qed.

(** The same pipeline when the office suite fails: the error of line 77
    ends the call and the temporary directory of line 86 is still
    there. *)
Lemma doc_pipeline_leaks (filePath : path) (w : World) (code : Z) :
  Js.toLowerCase (Path.extname_of filePath) = ".doc" →
  let t := tempDir_of (fs w) in
  let run := soffice (<[t := Dir]> (fs w)) filePath t in
  Fs.mkdtemp (fs w) os_tmpdir "input-docx-" (mkdtemp_random (fs w))
  = Ok (t, <[t := Dir]> (fs w)) →
  ended run = ProcExit (Some code) None → code ≠ 0 →
  (convertDocument filePath w).1
  = Throw (LibreOfficeFailed (ByExitCode (Some code)))
  ∧ fs w !! t = None
  ∧ fs (convertDocument filePath w).2 !! t = Some Dir.
Proof.
  intros Hext t run Hmk Hend Hcode.
  pose proof (mkdtemp_spec _ _ _ _ _ _ Hmk) as (_ & Hnone & _ & _).
  change (wp (convertDocument filePath)
            (fun r w' =>
               r = Throw (LibreOfficeFailed (ByExitCode (Some code)))
               ∧ fs w !! t = None ∧ fs w' !! t = Some Dir) w).
  unfold convertDocument. wp_steps. rewrite Hext.
  change (String.eqb ".doc" ".docx") with false.
  change (String.eqb ".doc" ".doc") with true.
  unfold convertDocToDocx, fs_mkdtemp. wp_steps. rewrite Hmk.
  unfold runLibreOfficeConversion, spawn_soffice. wp_steps.
  fold run. rewrite Hend. rewrite bool_decide_eq_false_2 by congruence.
  wp_steps. split; [done|]. split; [done|].
  apply filled_dir. apply join_not_nil.
Qed.

End AdapterClaims.

(** C2.  A [.doc] input on which the office suite fails: [/in/f.DOC] on
    the demonstration disk, where [soffice] exits with 77.  The
    temporary directory [/tmp/input-docx-abc123] does not exist before
    the call; the call ends with the error of line 77; the directory
    exists after the call.  The [finally] of line 131 is not reached,
    because line 128 is outside the [try]. *)
Theorem C2_temp_dir_left_behind :
  let w := Demo.world Demo.disk in
  let out := convertDocument (H := Demo.platform) ["in"; "f.DOC"] w in
  fs w !! ["tmp"; "input-docx-abc123"] = None
  ∧ out.1 = Throw (LibreOfficeFailed (ByExitCode (Some 77)))
  ∧ fs out.2 !! ["tmp"; "input-docx-abc123"] = Some Dir.
Proof. by vm_compute. Qed.

(** * The directory orchestrator *)

Section DirectoryFacts.

Context `{Platform}.

(** The loop: an invariant that holds of the entries done so far holds
    of all of them at the end, and the loop does not throw when its body
    does not. *)
Lemma wp_forOf {A} (body : A → M unit) (I : list A → World → Prop)
    (l done : list A) (w : World) :
  I done w →
  (∀ done x w, I done w →
     wp (body x) (fun r w' => r = Ok tt ∧ I (done ++ [x]) w') w) →
  wp (forOf l body) (fun r w' => r = Ok tt ∧ I (done ++ l) w') w.
Proof.
  intros Hstart Hstep. revert done w Hstart.
  induction l as [|x l IH]; intros done w Hstart; cbn [forOf].
  - apply wp_ret. by rewrite app_nil_r.
  - apply (wp_bind (body x) (fun _ => forOf l body)).
    eapply wp_mono; [by apply Hstep|].
    intros r w' [-> Hnext]. cbv beta iota.
    replace (done ++ x :: l) with ((done ++ [x]) ++ l)
      by (by rewrite <- app_assoc).
    by apply IH.
Qed.

Lemma access_node (fs : FS) (p : path) :
  Fs.access fs p = Ok tt ↔ is_Some (Fs.node_at fs p).
Proof.
  unfold Fs.access. destruct (Fs.node_at fs p); split; intros Hx;
    try done; by destruct Hx.
Qed.

Lemma convertEntry_spec (inputDir outputDir : path) (clearOutput : bool)
    (entry : Fs.Dirent) (w : World) :
  wp (convertEntry inputDir outputDir clearOutput entry)
    (fun r w' =>
       r = Ok tt ∧ entry_run inputDir outputDir clearOutput entry w w') w.
Proof.
  unfold convertEntry.
  set (source := sourcePath_of inputDir entry).
  set (target := targetPath_of outputDir entry).
  assert (Htail : ∀ w0,
            attempted clearOutput target w = true →
            w0 = attempt_world clearOutput target w →
            wp (try_catch (convert_and_write source target)
                  (fun error =>
                     console_error (MsgFailedConvert source error)))
              (fun r w' =>
                 r = Ok tt
                 ∧ entry_run inputDir outputDir clearOutput entry w w') w0).
  { intros w0 Hatt ->. apply wp_try_catch.
    apply (wp_mono _ _ _ _ (convert_and_write_spec source target _)).
    intros r w1 Hc. destruct r as [[]|e].
    - split; [done|]. by apply (er_attempted _ _ _ _ _ (Ok tt) w1).
    - wp_steps. split; [done|].
      by apply (er_attempted _ _ _ _ _ (Throw e) w1). }
  destruct clearOutput; cbn [negb].
  - wp_steps. unfold with_unit.
    destruct (Fs.rm_force (fs w) target) as [fs'|e] eqn:Erm; wp_steps;
      apply Htail; try done; unfold attempt_world; by rewrite Erm.
  - wp_steps. destruct (Fs.access (fs w) target) as [[]|e] eqn:Eacc.
    + wp_steps. split; [done|].
      apply access_node in Eacc as [n Hn]. by eapply er_skipped.
    + wp_steps. destruct (not_ENOENT e) eqn:Ecode.
      * wp_steps. split; [done|]. by eapply er_probe_failed.
      * wp_steps. apply Htail; [|done].
        unfold attempted. by rewrite Eacc, Ecode.
Qed.

(** When the body goes on to the conversion, it is lines 219-225 run in
    the world of the attempt: whatever the three statements end with, the
    body ends normally, after the report of line 224 if they threw. *)
Lemma convertEntry_attempt inputDir outputDir clearOutput entry w :
  attempted clearOutput (targetPath_of outputDir entry) w = true →
  convertEntry inputDir outputDir clearOutput entry w
  = (Ok tt,
     finish (sourcePath_of inputDir entry)
       (convert_and_write (sourcePath_of inputDir entry)
          (targetPath_of outputDir entry)
          (attempt_world clearOutput (targetPath_of outputDir entry) w)).1
       (convert_and_write (sourcePath_of inputDir entry)
          (targetPath_of outputDir entry)
          (attempt_world clearOutput (targetPath_of outputDir entry) w)).2).
Proof.
  intros Hatt.
  set (source := sourcePath_of inputDir entry).
  set (target := targetPath_of outputDir entry) in *.
  rewrite (surjective_pairing (convertEntry _ _ _ _ _)).
  change (wp (convertEntry inputDir outputDir clearOutput entry)
            (fun r w' =>
               (r, w')
               = (Ok tt,
                  finish source
                    (convert_and_write source target
                       (attempt_world clearOutput target w)).1
                    (convert_and_write source target
                       (attempt_world clearOutput target w)).2)) w).
  assert (Htail : ∀ w0,
            w0 = attempt_world clearOutput target w →
            wp (try_catch (convert_and_write source target)
                  (fun error =>
                     console_error (MsgFailedConvert source error)))
              (fun r w' =>
                 (r, w')
                 = (Ok tt,
                    finish source
                      (convert_and_write source target w0).1
                      (convert_and_write source target w0).2)) w0).
  { intros w0 _. apply wp_try_catch. unfold wp at 1.
    destruct (convert_and_write source target w0) as [[[]|e] w1];
      cbn [fst snd finish]; [done|]. by wp_steps. }
  unfold convertEntry. fold source. fold target.
  unfold attempted, attempt_world in *.
  destruct clearOutput; cbn [negb].
  - wp_steps. unfold with_unit.
    destruct (Fs.rm_force (fs w) target) as [fs'|e] eqn:Erm; wp_steps;
      by apply Htail.
  - wp_steps. destruct (Fs.access (fs w) target) as [[]|e] eqn:Eacc;
      [done|].
    wp_steps. destruct (not_ENOENT e); [done|]. wp_steps. by apply Htail.
Qed.

Lemma entry_run_report inputDir outputDir clearOutput entry w w' :
  entry_run inputDir outputDir clearOutput entry w w' →
  exitCode w' = exitCode w
  ∧ ∃ seg, trace w' = trace w ++ seg
           ∧ entry_report inputDir outputDir entry seg.
Proof.
  intros [n _ _|e _ _ _|r w1 Hatt Hc].
  - split; [done|]. eexists. split; [since_solve|]. by left.
  - split; [done|]. eexists. split; [since_solve|]. right; left. by eexists.
  - set (source := sourcePath_of inputDir entry) in *.
    set (target := targetPath_of outputDir entry) in *.
    assert (Hpre : ∃ probe,
              since w (attempt_world clearOutput target w) [probe]).
    { unfold attempt_world. destruct clearOutput.
      - destruct (Fs.rm_force _ _); eexists; since_solve.
      - eexists; since_solve. }
    destruct Hpre as [probe Hpre].
    destruct Hc as [e w1 tr _ Hs Hin _|md e w1 tr _ Hs Hin _ _
                   |md fs_mid w1 tr _ Hs Hin _ _]; cbn [finish].
    + pose proof (since_observe _ _ _
                    (Console ConsoleError (MsgFailedConvert source e))
                    (since_trans _ _ _ _ _ Hpre Hs)) as [Ht He].
      split; [done|]. eexists. split; [exact Ht|].
      right; right; right. exists probe, tr, e. split; [done|].
      eapply Forall_impl; [exact Hin|]. by left.
    + pose proof (since_observe _ _ _
                    (Console ConsoleError (MsgFailedConvert source e))
                    (since_trans _ _ _ _ _ Hpre Hs)) as [Ht He].
      split; [done|]. eexists. split; [exact Ht|].
      right; right; right. exists probe, (tr ++ [FsCall SysWriteFile target]), e.
      split; [done|].
      apply Forall_app. split.
      * eapply Forall_impl; [exact Hin|]. by left.
      * constructor; [by right | constructor].
    + pose proof (since_trans _ _ _ _ _ Hpre Hs) as [Ht He].
      split; [done|]. eexists. split; [exact Ht|].
      right; right; left. by exists probe, tr.
Qed.

(** *** A run without clearing spares what is on the disk *)

Lemma internal_spares (fs0 : FS) (inputDir outputDir : path) (ev : event) :
  adapter_internal ev = true → spares fs0 inputDir outputDir ev.
Proof. destruct ev as [| [] | | | |]; done. Qed.

Lemma spares_mono (fs0 fs1 : FS) (inputDir outputDir : path) (ev : event) :
  fs0 ⊆ fs1 → spares fs1 inputDir outputDir ev →
  spares fs0 inputDir outputDir ev.
Proof.
  intros Hsub. destruct ev as [| [] q | | | |s]; cbn [spares]; try done.
  - intros Hq. by eapply lookup_weaken_None.
  - intros Hs entry He. eapply lookup_weaken_None; [|done]. by apply Hs.
Qed.

(** Two entries with the same source have the same target. *)
Lemma same_source_same_target (inputDir outputDir : path)
    (entry entry' : Fs.Dirent) :
  sourcePath_of inputDir entry = sourcePath_of inputDir entry' →
  targetPath_of outputDir entry = targetPath_of outputDir entry'.
Proof.
  unfold sourcePath_of, targetPath_of, Path.join. intros Heq.
  apply app_inv_head in Heq. injection Heq as Heq. by rewrite Heq.
Qed.

Lemma targetPath_not_nil (outputDir : path) (entry : Fs.Dirent) :
  targetPath_of outputDir entry ≠ [].
Proof. apply join_not_nil. Qed.

(** One pass of the loop body without clearing: the file system stays
    well formed and only grows; the events spare what was there; and an
    entry whose target is there is skipped. *)
Lemma entry_run_spares inputDir outputDir entry w w' :
  entry_run inputDir outputDir false entry w w' →
  Fs.wf (fs w) →
  Fs.wf (fs w') ∧ fs w ⊆ fs w'
  ∧ ∃ seg, since w w' seg
      ∧ Forall (spares (fs w) inputDir outputDir) seg
      ∧ (is_Some (fs w !! targetPath_of outputDir entry) →
         seg = [FsCall SysAccess (targetPath_of outputDir entry);
                Console ConsoleLog
                  (MsgSkipping (targetPath_of outputDir entry))]
         ∧ fs w' = fs w).
Proof.
  intros Hrun Hwf.
  destruct Hrun as [n _ Hn|e _ Hacc _|r w1 Hatt Hc];
    set (source := sourcePath_of inputDir entry) in *;
    set (target := targetPath_of outputDir entry) in *;
    assert (Htn : target ≠ []) by apply targetPath_not_nil.
  - split; [done|]. split; [done|]. eexists. split; [since_solve|].
    split; [by repeat constructor|]. done.
  - split; [done|]. split; [done|]. eexists. split; [since_solve|].
    split; [by repeat constructor|]. intros Hsome.
    rewrite <- node_at_lookup in Hsome by done.
    apply access_node in Hsome. congruence.
  - unfold attempted in Hatt. cbn [attempt_world] in Hc.
    destruct (Fs.access (fs w) target) as [[]|e0] eqn:Eacc; [done|].
    assert (Hnone : fs w !! target = None).
    { unfold Fs.access in Eacc. rewrite node_at_lookup in Eacc by done.
      by destruct (fs w !! target). }
    assert (Hsrc : spares (fs w) inputDir outputDir (Adapter source)).
    { intros entry' Heq.
      by rewrite <- (same_source_same_target inputDir outputDir entry entry'). }
    assert (Hint : ∀ tr, Forall (fun ev => adapter_internal ev = true) tr →
              Forall (spares (fs w) inputDir outputDir) tr).
    { intros tr Htr. eapply Forall_impl; [exact Htr|].
      intros ev. apply internal_spares. }
    assert (Hpre : since w (observe (FsCall SysAccess target) w)
                     [FsCall SysAccess target]) by since_solve.
    destruct Hc as [e w1 tr _ Hs Hin Hfp|md e w1 tr _ Hs Hin Hfp _
                   |md fs_mid w1 tr _ Hs Hin Hfp Hw]; cbn [finish].
    + apply footprint_wf in Hfp as [Hwf1 Hsub]; [|done].
      split; [done|]. split; [done|]. eexists. split.
      { apply since_observe. eapply since_trans; [exact Hpre | exact Hs]. }
      split; [|intros [? ?]; congruence].
      cbn [app].
      repeat first [ by apply Hint | done | apply Forall_app; split
                   | constructor ].
    + apply footprint_wf in Hfp as [Hwf1 Hsub]; [|done].
      split; [done|]. split; [done|]. eexists. split.
      { apply since_observe. eapply since_trans; [exact Hpre | exact Hs]. }
      split; [|intros [? ?]; congruence].
      cbn [app].
      repeat first [ by apply Hint | done | apply Forall_app; split
                   | constructor ].
    + apply footprint_wf in Hfp as [Hwf1 Hsub]; [|done].
      change (fs (observe (FsCall SysAccess target) w)) with (fs w) in *.
      split; [exact (wf_writeFile _ _ _ _ Hwf1 Hw)|]. split.
      { apply writeFile_spec in Hw as [->|(-> & _)]; [done|].
        by apply insert_subseteq_r. }
      eexists. split.
      { eapply since_trans; [exact Hpre | exact Hs]. }
      split; [|intros [? ?]; congruence].
      cbn [app].
      repeat first [ by apply Hint | done | apply Forall_app; split
                   | constructor ].
Qed.

End DirectoryFacts.

(** * The claims about the directory mode *)

Section DirectoryClaims.

Context `{Platform}.

(** Lines 184-192: when the set-up succeeds, the rest of the function
    runs on the entries that were read, in a world whose file system is
    the one [mkdir] left. *)
Lemma wp_convertDirectory_setup inputDir outputDir clearOutput w fs1 entries
    (Q : Res unit → World → Prop) :
  Fs.mkdir_recursive (before_mkdir outputDir clearOutput (fs w)) outputDir
  = Ok fs1 →
  Fs.readdir fs1 inputDir = Ok entries →
  (∀ w0, fs w0 = fs1 → exitCode w0 = exitCode w →
         trace w0 = trace w ++ setup_events inputDir outputDir clearOutput →
         wp (if (length (supported_files entries) =? 0)%nat
             then console_warn (MsgNoSupported inputDir)
             else forOf (supported_files entries)
                    (convertEntry inputDir outputDir clearOutput)) Q w0) →
  wp (convertDirectory inputDir outputDir clearOutput) Q w.
Proof.
  intros Hmk Hrd HQ. unfold convertDirectory, before_mkdir, setup_events in *.
  destruct clearOutput.
  - wp_steps. unfold with_unit. rewrite Hmk. wp_steps. rewrite Hrd.
    cbv beta iota. apply HQ; [done..|]. world_simpl.
    by rewrite <- !app_assoc.
  - wp_steps. unfold with_unit. rewrite Hmk. wp_steps. rewrite Hrd.
    cbv beta iota. apply HQ; [done..|]. world_simpl.
    by rewrite <- !app_assoc.
Qed.

(** The loop never throws, leaves [process.exitCode] alone, and adds one
    report per entry to the trace, in the order of the entries. *)
Lemma wp_loop_reports inputDir outputDir clearOutput files w :
  wp (forOf files (convertEntry inputDir outputDir clearOutput))
    (fun r w' =>
       r = Ok tt
       ∧ exitCode w' = exitCode w
       ∧ ∃ segs, trace w' = trace w ++ concat segs
                 ∧ Forall2 (entry_report inputDir outputDir) files segs) w.
Proof.
  apply (wp_forOf _
           (fun done w' =>
              exitCode w' = exitCode w
              ∧ ∃ segs, trace w' = trace w ++ concat segs
                        ∧ Forall2 (entry_report inputDir outputDir) done segs)
           files []).
  - split; [done|]. exists []. split; [by rewrite app_nil_r | constructor].
  - intros done x w1 (He & segs & Ht & Hrep).
    eapply wp_mono; [apply convertEntry_spec|].
    intros r w2 [-> Hrun]. split; [done|].
    apply entry_run_report in Hrun as (He2 & seg & Ht2 & Hseg).
    split; [congruence|]. exists (segs ++ [seg]). split.
    + rewrite Ht2, Ht, concat_app. cbn [concat].
      by rewrite app_nil_r, app_assoc.
    + apply Forall2_app; [done|]. by constructor.
Qed.

(** C1.  In directory mode a failure of one file does not leave the loop
    body: when the three statements of lines 220-222 throw, in the
    conversion or in the write, the body reports the failure with the
    source path and the error and ends normally.  So the loop does not
    throw whatever the files are, makes one report per eligible file in
    their order (skipped, probe failed, converted and written, or
    failed), each conversion with its own call of the adapter; and when
    the set-up of lines 184-189 succeeds, [main] returns without
    assigning [process.exitCode]. *)
Theorem C1_failure_isolation (inputDir outputDir : path)
    (clearOutput : bool) :
  (∀ entry w e w1,
     attempted clearOutput (targetPath_of outputDir entry) w = true →
     convert_and_write (sourcePath_of inputDir entry)
       (targetPath_of outputDir entry)
       (attempt_world clearOutput (targetPath_of outputDir entry) w)
     = (Throw e, w1) →
     convertEntry inputDir outputDir clearOutput entry w
     = (Ok tt,
        observe (Console ConsoleError
                   (MsgFailedConvert (sourcePath_of inputDir entry) e)) w1))
  ∧ (∀ files w, ∃ w' segs,
       forOf files (convertEntry inputDir outputDir clearOutput) w
       = (Ok tt, w')
       ∧ exitCode w' = exitCode w
       ∧ trace w' = trace w ++ concat segs
       ∧ Forall2 (entry_report inputDir outputDir) files segs)
  ∧ (∀ w fs1 entries,
       Fs.node_at (fs w) inputDir = Some Dir →
       Fs.mkdir_recursive (before_mkdir outputDir clearOutput (fs w))
         outputDir = Ok fs1 →
       Fs.readdir fs1 inputDir = Ok entries →
       ∃ w', main inputDir outputDir clearOutput w = (Ok tt, w')
             ∧ exitCode w' = exitCode w
             ∧ (exitCode w = None → exit_status w' = 0)
             ∧ (supported_files entries ≠ [] →
                ∃ segs,
                  trace w'
                  = trace w
                    ++ FsCall SysStat inputDir
                       :: setup_events inputDir outputDir clearOutput
                    ++ concat segs
                  ∧ Forall2 (entry_report inputDir outputDir)
                      (supported_files entries) segs)).
Proof.
  split; [|split].
  - intros entry w e w1 Hatt Hcw.
    rewrite convertEntry_attempt by done. by rewrite Hcw.
  - intros files w.
    pose proof (wp_loop_reports inputDir outputDir clearOutput files w)
      as Hloop. unfold wp in Hloop.
    destruct (forOf files _ w) as [r w']. cbn [fst snd] in Hloop.
    destruct Hloop as (-> & He & segs & Ht & Hrep). by exists w', segs.
  - intros w fs1 entries Hdir Hmk Hrd.
    assert (Hmain : wp (main inputDir outputDir clearOutput)
              (fun r w' =>
                 r = Ok tt ∧ exitCode w' = exitCode w
                 ∧ (exitCode w = None → exit_status w' = 0)
                 ∧ (supported_files entries ≠ [] →
                    ∃ segs,
                      trace w'
                      = trace w
                        ++ FsCall SysStat inputDir
                           :: setup_events inputDir outputDir clearOutput
                        ++ concat segs
                      ∧ Forall2 (entry_report inputDir outputDir)
                          (supported_files entries) segs)) w).
    { unfold main. wp_steps. unfold Fs.stat. rewrite Hdir. wp_steps.
      cbn [Fs.isFile Fs.isDirectory].
      eapply wp_convertDirectory_setup; [done..|].
      intros w0 Hfs He Ht. world_simpl.
      destruct (supported_files entries) as [|f files] eqn:Hfiles.
      - cbn [length Nat.eqb]. wp_steps. split; [done|]. split; [done|].
        split; [|done]. intros Hzero. unfold exit_status. world_simpl.
        by rewrite He, Hzero.
      - cbn [length Nat.eqb].
        eapply wp_mono; [apply wp_loop_reports|].
        intros r w' (-> & He' & segs & Ht' & Hrep).
        split; [done|]. split; [congruence|].
        split; [intros Hzero; unfold exit_status; by rewrite He', He, Hzero|].
        intros _. exists segs.
        split; [|done]. rewrite Ht', Ht. by rewrite <- !app_assoc. }
    unfold wp in Hmain.
    destruct (main inputDir outputDir clearOutput w) as [r w'].
    cbn [fst snd] in Hmain. destruct Hmain as (-> & He & Hrest). by exists w'.
Qed.

(** C7.  In directory mode, when the set-up succeeds and no entry of the
    input directory is eligible, the run warns and returns normally:
    the calls are the optional [rm], the [mkdir], the [readdir] and the
    warning, nothing is written, the file system is the one [mkdir]
    left, in which the output directory exists and no regular file is
    new; [main] then returns without assigning [process.exitCode], so
    that the process ends with status 0. *)
Theorem C7_no_eligible_files (inputDir outputDir : path)
    (clearOutput : bool) (w : World) (fs1 : FS)
    (entries : list Fs.Dirent) :
  Fs.mkdir_recursive (before_mkdir outputDir clearOutput (fs w)) outputDir
  = Ok fs1 →
  Fs.readdir fs1 inputDir = Ok entries →
  supported_files entries = [] →
  (∃ w', convertDirectory inputDir outputDir clearOutput w = (Ok tt, w')
         ∧ trace w'
           = trace w ++ setup_events inputDir outputDir clearOutput
             ++ [Console ConsoleWarn (MsgNoSupported inputDir)]
         ∧ exitCode w' = exitCode w
         ∧ fs w' = fs1
         ∧ Fs.node_at (fs w') outputDir = Some Dir
         ∧ ∀ q c, fs w' !! q = Some (File c) → fs w !! q = Some (File c))
  ∧ (Fs.node_at (fs w) inputDir = Some Dir →
     ∃ w', main inputDir outputDir clearOutput w = (Ok tt, w')
           ∧ exitCode w' = exitCode w
           ∧ (exitCode w = None → exit_status w' = 0)).
Proof.
  intros Hmk Hrd Hnone.
  assert (Hdir : wp (convertDirectory inputDir outputDir clearOutput)
            (fun r w' =>
               r = Ok tt
               ∧ trace w'
                 = trace w ++ setup_events inputDir outputDir clearOutput
                   ++ [Console ConsoleWarn (MsgNoSupported inputDir)]
               ∧ exitCode w' = exitCode w ∧ fs w' = fs1) w).
  { eapply wp_convertDirectory_setup; [done..|].
    intros w0 Hfs He Ht. rewrite Hnone. cbn [length Nat.eqb]. wp_steps.
    split; [done|]. split; [|done]. by rewrite Ht, <- app_assoc. }
  pose proof Hmk as Hspec.
  apply mkdir_recursive_spec in Hspec as (Hout & _ & Hnew & _).
  split.
  - unfold wp in Hdir.
    destruct (convertDirectory inputDir outputDir clearOutput w) as [r w'].
    cbn [fst snd] in Hdir. destruct Hdir as (-> & Ht & He & Hfs). exists w'.
    split; [done|]. split; [done|]. split; [done|]. split; [done|].
    rewrite Hfs. split; [done|]. intros q c Hq.
    apply Hnew in Hq as [Hq|Hq]; [|done].
    unfold before_mkdir in Hq. destruct clearOutput; [|done].
    by eapply lookup_weaken; [|apply rm_recursive_subseteq].
  - intros Hin.
    assert (Hmain : wp (main inputDir outputDir clearOutput)
              (fun r w' => r = Ok tt ∧ exitCode w' = exitCode w) w).
    { unfold main. wp_steps. unfold Fs.stat. rewrite Hin. wp_steps.
      cbn [Fs.isFile Fs.isDirectory].
      eapply wp_convertDirectory_setup; [done..|].
      intros w0 Hfs He Ht. rewrite Hnone. cbn [length Nat.eqb]. wp_steps.
      by split. }
    unfold wp in Hmain.
    destruct (main inputDir outputDir clearOutput w) as [r w'].
    cbn [fst snd] in Hmain. destruct Hmain as (-> & He). exists w'. split; [done|]. split; [done|].
    intros Hzero. unfold exit_status. by rewrite He, Hzero.
Qed.

(** The loop without clearing, started on a well-formed file system
    [fs1] that contains the disk [fs0] of before the run. *)
Lemma wp_loop_spares (inputDir outputDir : path) (fs0 fs1 : FS)
    (files : list Fs.Dirent) (w0 : World) :
  Fs.wf fs1 → fs0 ⊆ fs1 → fs w0 = fs1 →
  wp (forOf files (convertEntry inputDir outputDir false))
    (fun r w' =>
       r = Ok tt
       ∧ fs1 ⊆ fs w'
       ∧ ∃ tr, since w0 w' tr
           ∧ Forall (spares fs0 inputDir outputDir) tr
           ∧ (∀ entry, In entry files →
                is_Some (fs0 !! targetPath_of outputDir entry) →
                In (Console ConsoleLog
                      (MsgSkipping (targetPath_of outputDir entry))) tr)
           ∧ ((∀ entry, In entry files →
                 is_Some (fs0 !! targetPath_of outputDir entry)) →
              fs w' = fs1)) w0.
Proof.
  intros Hwf1 Hsub Hfs.
  eapply wp_mono.
  { apply (wp_forOf _
             (fun done wc =>
                Fs.wf (fs wc) ∧ fs1 ⊆ fs wc
                ∧ ∃ tr, since w0 wc tr
                    ∧ Forall (spares fs0 inputDir outputDir) tr
                    ∧ (∀ entry, In entry done →
                         is_Some (fs0 !! targetPath_of outputDir entry) →
                         In (Console ConsoleLog
                               (MsgSkipping (targetPath_of outputDir entry)))
                            tr)
                    ∧ ((∀ entry, In entry done →
                          is_Some (fs0 !! targetPath_of outputDir entry)) →
                       fs wc = fs1))
             files []).
    - rewrite Hfs. split; [done|]. split; [done|]. exists [].
      split; [apply since_refl|]. split; [constructor|]. by split.
    - intros done x wc (Hwfc & Hsubc & tr & Hs & Hsp & Hskip & Hsame).
      eapply wp_mono; [apply convertEntry_spec|].
      intros r w' [-> Hrun]. split; [done|].
      apply entry_run_spares in Hrun
        as (Hwf' & Hsub' & seg & Hs' & Hsp' & Hskip'); [|done].
      split; [done|]. split; [by etrans|].
      exists (tr ++ seg). split; [by eapply since_trans|].
      split; [|split].
      + apply Forall_app. split; [done|].
        eapply Forall_impl; [exact Hsp'|].
        intros ev. apply spares_mono. by etrans.
      + intros entry Hin Hsome. apply in_app_iff.
        apply in_app_iff in Hin as [Hin|[<-|[]]].
        * left. by apply Hskip.
        * right. destruct Hskip' as [-> _]; [|cbn; auto].
          destruct Hsome as [n Hn]. exists n.
          eapply lookup_weaken; [exact Hn|]. by etrans.
      + intros Hall.
        destruct Hskip' as [_ ->].
        * destruct (Hall x) as [n Hn]; [apply in_app_iff; cbn; auto|].
          exists n. eapply lookup_weaken; [exact Hn|]. by etrans.
        * apply Hsame. intros entry Hin. apply Hall.
          apply in_app_iff. by left. }
  cbv beta. intros r w' (-> & _ & Hsubc & Hrest). by rewrite app_nil_l in Hrest.
Qed.

(** C4.  A directory run without clearing that starts on a well-formed
    file system changes and removes nothing that is on the disk: every
    file keeps its bytes.  No write goes to a path that was there, and
    the adapter is not invoked for an entry whose target was there; when
    the set-up succeeds, every eligible entry whose target was there is
    reported as skipped; and when the targets of all eligible entries
    were there, the run ends normally with the file system that [mkdir]
    left. *)
Theorem C4_second_run_skips (inputDir outputDir : path) (w : World) :
  Fs.wf (fs w) →
  ∀ r w', convertDirectory inputDir outputDir false w = (r, w') →
    fs w ⊆ fs w'
    ∧ ∃ tr, since w w' tr
        ∧ (∀ q, is_Some (fs w !! q) → ¬ In (FsCall SysWriteFile q) tr)
        ∧ (∀ entry, is_Some (fs w !! targetPath_of outputDir entry) →
                    ¬ In (Adapter (sourcePath_of inputDir entry)) tr)
        ∧ (∀ fs1 entries,
             Fs.mkdir_recursive (fs w) outputDir = Ok fs1 →
             Fs.readdir fs1 inputDir = Ok entries →
             (∀ entry, In entry (supported_files entries) →
                is_Some (fs w !! targetPath_of outputDir entry) →
                In (Console ConsoleLog
                      (MsgSkipping (targetPath_of outputDir entry))) tr)
             ∧ ((∀ entry, In entry (supported_files entries) →
                   is_Some (fs w !! targetPath_of outputDir entry)) →
                r = Ok tt ∧ fs w' = fs1)).
Proof.
  intros Hwf r w' Hrun.
  assert (Hgoal : wp (convertDirectory inputDir outputDir false)
            (fun r w' =>
               fs w ⊆ fs w'
               ∧ ∃ tr, since w w' tr
                   ∧ Forall (spares (fs w) inputDir outputDir) tr
                   ∧ (∀ fs1 entries,
                        Fs.mkdir_recursive (fs w) outputDir = Ok fs1 →
                        Fs.readdir fs1 inputDir = Ok entries →
                        (∀ entry, In entry (supported_files entries) →
                           is_Some (fs w !! targetPath_of outputDir entry) →
                           In (Console ConsoleLog
                                 (MsgSkipping
                                    (targetPath_of outputDir entry))) tr)
                        ∧ ((∀ entry, In entry (supported_files entries) →
                              is_Some
                                (fs w !! targetPath_of outputDir entry)) →
                           r = Ok tt ∧ fs w' = fs1))) w).
  { unfold convertDirectory. wp_steps. unfold with_unit.
    destruct (Fs.mkdir_recursive (fs w) outputDir) as [fs1|e] eqn:Emk.
    2:{ split; [done|]. eexists. split; [since_solve|].
        split; [by repeat constructor|]. congruence. }
    pose proof (mkdir_recursive_spec _ _ _ Emk) as (_ & Hsub & _ & Hwf1).
    wp_steps.
    destruct (Fs.readdir fs1 inputDir) as [entries|e] eqn:Erd.
    2:{ split; [done|]. eexists. split; [since_solve|].
        split; [by repeat constructor|]. congruence. }
    cbv beta iota.
    destruct (supported_files entries) as [|f files] eqn:Hfiles.
    - cbn [length Nat.eqb]. wp_steps. split; [done|]. eexists.
      split; [since_solve|]. split; [by repeat constructor|].
      intros fs1' entries' [= <-] Hrd'. rewrite Erd in Hrd'.
      injection Hrd' as <-. rewrite Hfiles. by split.
    - cbn [length Nat.eqb].
      eapply wp_mono;
        [apply (wp_loop_spares inputDir outputDir (fs w) fs1);
           [by apply Hwf1 | done | done]|].
      intros r0 w0 (-> & Hsubc & tr & Hs & Hsp & Hskip & Hsame).
      split; [by etrans|].
      exists ([FsCall SysMkdir outputDir; FsCall SysReaddir inputDir] ++ tr).
      split; [eapply since_trans; [|exact Hs]; since_solve|].
      split; [apply Forall_app; split; [by repeat constructor | done]|].
      intros fs1' entries' [= <-] Hrd'. rewrite Erd in Hrd'.
      injection Hrd' as <-. rewrite Hfiles. split.
      + intros entry Hin Hsome. apply in_app_iff. right. by apply Hskip.
      + intros Hall. split; [done|]. by apply Hsame. }
  apply (wp_run _ _ _ _ _ Hrun) in Hgoal
    as (Hsub & tr & Hs & Hsp & Hrest).
  split; [done|]. exists tr. split; [done|].
  rewrite List.Forall_forall in Hsp.
  split; [|split; [|done]].
  - intros q [n Hq] Hin. apply Hsp in Hin. cbn in Hin. congruence.
  - intros entry [n Hq] Hin. apply Hsp in Hin.
    specialize (Hin entry eq_refl). congruence.
Qed.

End DirectoryClaims.

(** * The theorems at work on the demonstration disk *)

Lemma demo_disk_wf : Fs.wf (fs (Demo.world Demo.disk)).
Proof. apply (@bool_decide_unpack _ (Fs.wf_dec _)). by vm_compute. Defined.

Lemma C3_format_gate_witness :
  supportedExtensions_has (Path.extname_of ["in"; "e.Docx"]) = false
  ∧ convertSingleFile (H := Demo.platform) ["in"; "e.Docx"] ["out"; "e.md"]
      false (Demo.world Demo.disk)
    = (Throw (UnsupportedInputFile ["in"; "e.Docx"]), Demo.world Demo.disk).
Proof.
  split; [by vm_compute|].
  apply (proj1 (proj2 (proj2 (proj2 (C3_format_gate (H := Demo.platform)))))).
  by vm_compute.
Defined.

Lemma C5_pdf_reformatting_witness :
  Fs.readFile (fs (Demo.world Demo.disk)) ["in"; "c.doc"] = Ok "C"
  ∧ pdf_text (Platform := Demo.platform) "C" = LibOk "C"
  ∧ (convertPdfToMarkdown (H := Demo.platform) ["in"; "c.doc"]
       (Demo.world Demo.disk)).1
    = Ok (pdf_markdown "C").
Proof.
  split; [by vm_compute|]. split; [by vm_compute|].
  apply (proj2 (proj2 (C5_pdf_reformatting (H := Demo.platform))) _ _ "C");
    by vm_compute.
Defined.

Lemma C6_output_path_is_directory_witness :
  Fs.node_at (fs (Demo.world Demo.disk)) ["in"] = Some Dir
  ∧ ∃ e w' tr,
      convertSingleFile (H := Demo.platform) ["in"; "a.docx"] ["in"] true
        (Demo.world Demo.disk) = (Throw e, w')
      ∧ since (Demo.world Demo.disk) w' tr
      ∧ tr `prefix_of` [FsCall SysMkdir (Path.dirname ["in"]);
                        FsCall SysStat ["in"]]
      ∧ (∀ q c, fs w' !! q = Some (File c)
                ↔ fs (Demo.world Demo.disk) !! q = Some (File c))
      ∧ (supportedExtensions_has (Path.extname_of ["in"; "a.docx"]) = true →
         Fs.wf (fs (Demo.world Demo.disk)) →
         e = OutputIsDirectory ∧ fs w' = fs (Demo.world Demo.disk)).
Proof.
  split; [by vm_compute|].
  apply (C6_output_path_is_directory (H := Demo.platform)). by vm_compute.
Defined.

Lemma C8_cleared_output_is_lost_witness :
  fs (cleared ["in"; "d.txt"] (fs (Demo.world Demo.disk))
        (Demo.world Demo.disk)) !! ["in"; "d.txt"] = None
  ∧ ∀ r w',
      convertSingleFile (H := Demo.platform) ["in"; "b.pdf"] ["in"; "d.txt"]
        true (Demo.world Demo.disk) = (r, w') →
      (∃ tr, since (Demo.world Demo.disk) w'
               ([FsCall SysMkdir (Path.dirname ["in"; "d.txt"]);
                 FsCall SysStat ["in"; "d.txt"];
                 FsCall SysRm ["in"; "d.txt"];
                 Adapter ["in"; "b.pdf"]] ++ tr))
      ∧ (∀ e, (convertDocument (H := Demo.platform) ["in"; "b.pdf"]
                 (cleared ["in"; "d.txt"] (fs (Demo.world Demo.disk))
                    (Demo.world Demo.disk))).1 = Throw e →
              r = Throw e)
      ∧ (∀ e, r = Throw e → ∀ c, fs w' !! ["in"; "d.txt"] ≠ Some (File c)).
Proof.
  apply (C8_cleared_output_is_lost (H := Demo.platform) ["in"; "b.pdf"]
           ["in"; "d.txt"] (Demo.world Demo.disk) "D").
  - by vm_compute.
  - exact demo_disk_wf.
  - by vm_compute.
Defined.

Lemma C9_unsupported_branch_unreachable_witness :
  supportedExtensions_has (Path.extname_of ["in"; "f.DOC"]) = true
  ∧ ∀ p, (convertDocument (H := Demo.platform) ["in"; "f.DOC"]
            (Demo.world Demo.disk)).1 ≠ Throw (UnsupportedFileType p).
Proof.
  split; [by vm_compute|].
  apply (C9_unsupported_branch_unreachable (H := Demo.platform)).
  by vm_compute.
Defined.

Lemma C10_parent_directory_created_witness :
  supportedExtensions_has (Path.extname_of ["in"; "b.pdf"]) = true
  ∧ ∀ r w',
      convertSingleFile (H := Demo.platform) ["in"; "b.pdf"]
        ["out"; "x"; "b.md"] false (Demo.world Demo.disk) = (r, w') →
      ∃ tr, since (Demo.world Demo.disk) w'
              (FsCall SysMkdir (Path.dirname ["out"; "x"; "b.md"]) :: tr).
Proof.
  split; [by vm_compute|]. intros r w' Hrun.
  apply (proj2 (C10_parent_directory_created (H := Demo.platform)
                  ["in"; "b.pdf"] ["out"; "x"; "b.md"] false
                  (Demo.world Demo.disk)) eq_refl r w' Hrun).
Defined.

Lemma C1_failure_isolation_witness :
  convertEntry (H := Demo.platform) ["in"] ["out"] true
    {| Fs.name := "b.pdf"; Fs.kind := File "corrupt" |}
    (Demo.world Demo.disk)
  = (Ok tt,
     observe
       (Console ConsoleError
          (MsgFailedConvert ["in"; "b.pdf"]
             (LibraryError "pdf-parse" "cannot parse")))
       (convert_and_write (H := Demo.platform) ["in"; "b.pdf"]
          ["out"; "b.md"]
          (attempt_world true ["out"; "b.md"] (Demo.world Demo.disk))).2).
Proof.
  apply (proj1 (C1_failure_isolation (H := Demo.platform) ["in"] ["out"] true)
           {| Fs.name := "b.pdf"; Fs.kind := File "corrupt" |}
           (Demo.world Demo.disk)).
  - by vm_compute.
  - by vm_compute.
Defined.

Lemma C4_second_run_skips_witness :
  Fs.wf (fs (Demo.second_run_world))
  ∧ fs Demo.second_run_world
    ⊆ fs (convertDirectory (H := Demo.platform) ["in"] ["out"] false
            Demo.second_run_world).2.
Proof.
  assert (Hwf : Fs.wf (fs (Demo.second_run_world))).
  { apply (@bool_decide_unpack _ (Fs.wf_dec _)). by vm_compute. }
  split; [exact Hwf|].
  apply (C4_second_run_skips (H := Demo.platform) ["in"] ["out"]
           Demo.second_run_world Hwf _ _ (surjective_pairing _)).
Defined.

Lemma C7_no_eligible_files_witness :
  ∃ w', convertDirectory (H := Demo.platform) ["tmp"] ["out"] false
          (Demo.world Demo.disk) = (Ok tt, w')
        ∧ trace w'
          = trace (Demo.world Demo.disk)
            ++ setup_events ["tmp"] ["out"] false
            ++ [Console ConsoleWarn (MsgNoSupported ["tmp"])]
        ∧ exitCode w' = exitCode (Demo.world Demo.disk)
        ∧ fs w' = <[ ["out"] := Dir ]> (fs (Demo.world Demo.disk))
        ∧ Fs.node_at (fs w') ["out"] = Some Dir
        ∧ ∀ q c, fs w' !! q = Some (File c) →
                 fs (Demo.world Demo.disk) !! q = Some (File c).
Proof.
  apply (proj1 (C7_no_eligible_files (H := Demo.platform) ["tmp"] ["out"]
                  false (Demo.world Demo.disk)
                  (<[ ["out"] := Dir ]> (fs (Demo.world Demo.disk))) []
                  eq_refl eq_refl eq_refl)).
Defined.

(** A whole directory run on the demonstration disk: two of the four
    eligible files fail, the other two are converted, and
    [process.exitCode] is not assigned. *)
Example demo_directory_run :
  let w' := (main (H := Demo.platform) ["in"] ["out"] false
               (Demo.world Demo.disk)).2 in
  exitCode w' = None
  ∧ fs w' !! ["out"; "a.md"] = Some (File "html:A")
  ∧ fs w' !! ["out"; "b.md"] = None
  ∧ fs w' !! ["out"; "c.md"] = Some (File "html:docx:C")
  ∧ fs w' !! ["out"; "f.md"] = None
  ∧ fs w' !! ["out"; "d.md"] = None
  ∧ fs w' !! ["out"; "e.md"] = None.
Proof. by vm_compute. Qed.

(** A single-file run that clears an existing output and then fails in
    the conversion: the error comes out, [process.exitCode] becomes 1 and
    the old output is gone. *)
Example demo_single_file_clear_then_fail :
  let w' := (main (H := Demo.platform) ["in"; "b.pdf"] ["in"; "d.txt"] true
               (Demo.world Demo.disk)).2 in
  fs (Demo.world Demo.disk) !! ["in"; "d.txt"] = Some (File "D")
  ∧ exitCode w' = Some 1
  ∧ fs w' !! ["in"; "d.txt"] = None
  ∧ trace w'
    = [FsCall SysStat ["in"; "b.pdf"]; FsCall SysMkdir ["in"];
       FsCall SysStat ["in"; "d.txt"]; FsCall SysRm ["in"; "d.txt"];
       Adapter ["in"; "b.pdf"]; FsCall SysReadFile ["in"; "b.pdf"];
       PdfParseCall;
       Console ConsoleError
         (MsgFailedToProcess (LibraryError "pdf-parse" "cannot parse"))].
Proof. by vm_compute. Qed.

(** A single-file run without clearing on an existing output: skipped,
    after the [mkdir] and the [stat]. *)
Example demo_single_file_skip :
  let w' := (main (H := Demo.platform) ["in"; "a.docx"] ["in"; "d.txt"]
               false (Demo.world Demo.disk)).2 in
  exitCode w' = None
  ∧ map_to_list (fs w') = map_to_list (fs (Demo.world Demo.disk))
  ∧ trace w'
    = [FsCall SysStat ["in"; "a.docx"]; FsCall SysMkdir ["in"];
       FsCall SysStat ["in"; "d.txt"];
       Console ConsoleLog (MsgSkipping ["in"; "d.txt"])].
Proof. by vm_compute. Qed.

(** The second directory run on the demonstration disk: the two targets
    of the first run are skipped and keep their bytes. *)
Example demo_second_run :
  let w' := (convertDirectory (H := Demo.platform) ["in"] ["out"] false
               Demo.second_run_world).2 in
  map_to_list (fs w') = map_to_list (fs Demo.second_run_world)
  ∧ In (Console ConsoleLog (MsgSkipping ["out"; "a.md"])) (trace w')
  ∧ In (Console ConsoleLog (MsgSkipping ["out"; "c.md"])) (trace w').
Proof.
  split; [by vm_compute|]. split; vm_compute; tauto.
Qed.

(** * Further properties of the adapter *)

Section AdapterProperties.

Context `{Platform}.

Lemma proper_prefix_of_dirname (a p : path) :
  a `prefix_of` p → a ≠ p → a `prefix_of` Path.dirname p.
Proof.
  intros [l ->] Hne. destruct (decide (l = [])) as [->|Hl].
  - by rewrite app_nil_r in Hne.
  - unfold Path.dirname. rewrite removelast_app by done. by eexists.
Qed.

Lemma ancestors_spec (a p : path) :
  In a (Fs.ancestors p) → a `prefix_of` p ∧ a ≠ p.
Proof.
  unfold Fs.ancestors. rewrite in_map_iff. intros (n & <- & Hn).
  apply in_seq in Hn. split.
  - apply prefix_take.
  - intros Heq. apply (f_equal length) in Heq.
    rewrite length_take in Heq. lia.
Qed.

(** A path all of whose ancestors are directories is simply missing. *)
Lemma missing_ENOENT (fs : FS) (p : path) :
  (∀ a, a `prefix_of` p → a ≠ p → Fs.node_at fs a = Some Dir) →
  Fs.missing fs p = ENOENT.
Proof.
  intros Hanc. unfold Fs.missing.
  destruct (existsb _ (Fs.ancestors p)) eqn:E; [|done].
  apply existsb_exists in E as (a & Ha & Hbad).
  apply ancestors_spec in Ha as [Hpre Hne].
  by rewrite (Hanc a Hpre Hne) in Hbad.
Qed.

(** The adapter on a path whose lower-cased extension is one of the
    three: its errors are those of the platform, the office suite and
    the parsers. *)
Lemma convertDocument_branch_errors (filePath : path) (w : World) :
  Js.toLowerCase (Path.extname_of filePath) = ".docx"
  ∨ Js.toLowerCase (Path.extname_of filePath) = ".doc"
  ∨ Js.toLowerCase (Path.extname_of filePath) = ".pdf" →
  wp (convertDocument filePath)
    (fun r _ => ∀ e, r = Throw e → adapter_error e = true) w.
Proof.
  intros Hext. unfold convertDocument. wp_steps.
  destruct (String.eqb _ ".docx") eqn:E1.
  { apply wp_convertDocxToMarkdown. apply docx_markdown_error. }
  destruct (String.eqb _ ".doc") eqn:E2.
  2:{ destruct (String.eqb _ ".pdf") eqn:E3.
      - unfold convertPdfToMarkdown. wp_steps.
        destruct (Fs.readFile (fs w) filePath) as [bytes|e] eqn:Er.
        + wp_steps. unfold lift_lib.
          destruct (pdf_text bytes); wp_steps; by intros e [= <-].
        + intros e' [= <-]. by eapply readFile_error.
      - apply String.eqb_neq in E1, E2, E3. by destruct Hext as [?|[?|?]]. }
  unfold convertDocToDocx, fs_mkdtemp. wp_steps.
  destruct (Fs.mkdtemp _ _ _ _) as [[t fs1]|e] eqn:Emk.
  2:{ unfold Fs.mkdtemp in Emk. intros e' [= <-].
      destruct (Fs.node_at (fs w) os_tmpdir) as [[| |]|];
        [|destruct (fs w !! _)|..]; by simplify_eq. }
  unfold runLibreOfficeConversion, spawn_soffice. wp_steps.
  destruct (ended _) as [code|code signal].
  { wp_steps. by intros e [= <-]. }
  case_bool_decide.
  2:{ wp_steps. by intros e [= <-]. }
  wp_steps. unfold Fs.access.
  destruct (Fs.node_at _ _).
  2:{ by intros e [= <-]. }
  wp_steps. cbn [fst snd]. apply wp_convertDocxToMarkdown. wp_steps.
  apply docx_markdown_error.
Qed.

(** X1.  The dispatch of lines 122-140 looks at the lower-cased
    extension only.  When it is none of [.docx], [.doc], [.pdf], the
    adapter throws "Unsupported file type" for the path it was given,
    without any platform or library call.  When it is one of the three,
    whatever the case of the letters (so also for [.Docx], which line 148
    rejects), the adapter never ends with that error. *)
Theorem X1_dispatch_ignores_case (filePath : path) (w : World) :
  (Js.toLowerCase (Path.extname_of filePath) ≠ ".docx" →
   Js.toLowerCase (Path.extname_of filePath) ≠ ".doc" →
   Js.toLowerCase (Path.extname_of filePath) ≠ ".pdf" →
   convertDocument filePath w
   = (Throw (UnsupportedFileType filePath), observe (Adapter filePath) w))
  ∧ (Js.toLowerCase (Path.extname_of filePath) = ".docx"
     ∨ Js.toLowerCase (Path.extname_of filePath) = ".doc"
     ∨ Js.toLowerCase (Path.extname_of filePath) = ".pdf" →
     ∀ p, (convertDocument filePath w).1 ≠ Throw (UnsupportedFileType p)).
Proof.
  split.
  - intros H1 H2 H3. apply String.eqb_neq in H1, H2, H3.
    unfold convertDocument, mbind, M_bind, bind, emit.
    by rewrite H1, H2, H3.
  - intros Hext p Hp.
    pose proof (convertDocument_branch_errors filePath w Hext) as Herr.
    unfold wp in Herr. by apply Herr in Hp.
Qed.

(** The adapter changes the file system below its temporary directory
    only, and not at all for a [.docx] or a [.pdf]. *)
Lemma convertDocument_frame (filePath : path) (w : World) :
  wp (convertDocument filePath)
    (fun _ w' =>
       (∀ q, ¬ tempDir_of (fs w) `prefix_of` q → fs w' !! q = fs w !! q)
       ∧ (Js.toLowerCase (Path.extname_of filePath) ≠ ".doc" →
          fs w' = fs w)
       ∧ exitCode w' = exitCode w) w.
Proof.
  unfold convertDocument. wp_steps.
  destruct (String.eqb _ ".docx") eqn:E1.
  { apply wp_convertDocxToMarkdown. by world_simpl. }
  destruct (String.eqb _ ".doc") eqn:E2.
  2:{ destruct (String.eqb _ ".pdf") eqn:E3.
      - apply wp_convertPdfToMarkdown. intros r tr Htr w' [_ He] Hfs.
        world_simpl. by rewrite Hfs.
      - wp_steps. by world_simpl. }
  apply String.eqb_eq in E2.
  unfold convertDocToDocx, fs_mkdtemp. wp_steps.
  destruct (Fs.mkdtemp _ _ _ _) as [[t fs1]|e] eqn:Emk.
  2:{ done. }
  apply mkdtemp_spec in Emk as (Ht & Hnone & Hdir & ->).
  change (t = tempDir_of (fs w)) in Ht.
  assert (Htn : t ≠ []) by (rewrite Ht; apply join_not_nil).
  unfold runLibreOfficeConversion, spawn_soffice. wp_steps.
  set (run := soffice (<[t:=Dir]> (fs w)) filePath t).
  fold (filled (fs w) t (written run)).
  assert (Hleft : ∀ q, ¬ tempDir_of (fs w) `prefix_of` q →
            filled (fs w) t (written run) !! q = fs w !! q).
  { intros q Hq. apply filled_old. by rewrite Ht. }
  destruct (ended run) as [code|code signal].
  { wp_steps. done. }
  case_bool_decide.
  2:{ wp_steps. done. }
  wp_steps.
  destruct (Fs.access _ _).
  2:{ done. }
  wp_steps. cbn [fst snd]. apply wp_convertDocxToMarkdown. wp_steps.
  split; [|done]. intros q Hq. rewrite rm_recursive_lookup.
  rewrite decide_False by (by rewrite Ht). by apply Hleft.
Qed.

(** X2.  Whatever the adapter does and however it ends, a path that is
    not the temporary directory of line 86 or below it holds after the
    call what it held before; for a [.docx] or a [.pdf] the file system
    is exactly the one of before; and [process.exitCode] is not
    assigned. *)
Theorem X2_adapter_footprint (filePath : path) (w : World) :
  (∀ q, ¬ tempDir_of (fs w) `prefix_of` q →
        fs (convertDocument filePath w).2 !! q = fs w !! q)
  ∧ (Js.toLowerCase (Path.extname_of filePath) ≠ ".doc" →
     fs (convertDocument filePath w).2 = fs w)
  ∧ exitCode (convertDocument filePath w).2 = exitCode w.
Proof. exact (convertDocument_frame filePath w). Qed.

(** X3.  The check of line 93: when the office suite exits with 0 but
    the expected [.docx] is not in the temporary directory, the adapter
    fails with [ENOENT] for that path right after the [access], and
    mammoth is not called. *)
Theorem X3_missing_artifact (filePath : path) (w : World)
    (signal : option string) :
  Js.toLowerCase (Path.extname_of filePath) = ".doc" →
  Fs.wf (fs w) →
  let t := tempDir_of (fs w) in
  let run := soffice (<[t := Dir]> (fs w)) filePath t in
  Fs.mkdtemp (fs w) os_tmpdir "input-docx-" (mkdtemp_random (fs w))
  = Ok (t, <[t := Dir]> (fs w)) →
  ended run = ProcExit (Some 0) signal →
  filled (fs w) t (written run) !! docxPath_of (fs w) filePath = None →
  (convertDocument filePath w).1
  = Throw (SysError ENOENT SysAccess (docxPath_of (fs w) filePath))
  ∧ trace (convertDocument filePath w).2
    = trace w
      ++ [Adapter filePath;
          FsCall SysMkdtemp (Path.join os_tmpdir "input-docx-");
          SofficeCall filePath t;
          FsCall SysAccess (docxPath_of (fs w) filePath)].
Proof.
  intros Hext Hwf t run Hmk Hend Hnone.
  pose proof (mkdtemp_spec _ _ _ _ _ _ Hmk) as (_ & Htnone & Hdir & _).
  assert (Htn : t ≠ []) by apply join_not_nil.
  assert (Hmiss : Fs.missing (filled (fs w) t (written run))
                    (docxPath_of (fs w) filePath) = ENOENT).
  { apply missing_ENOENT. intros a Hpre Hne.
    apply proper_prefix_of_dirname in Hpre; [|done].
    unfold docxPath_of in Hpre. rewrite dirname_join in Hpre. fold t in Hpre.
    destruct (decide (a = t)) as [->|Hat].
    { rewrite node_at_lookup by done. by apply filled_dir. }
    apply proper_prefix_of_dirname in Hpre; [|done].
    assert (Ha : Fs.node_at (fs w) a = Some Dir).
    { destruct (decide (a = Path.dirname t)) as [->|Had]; [done|].
      destruct (decide (Path.dirname t = [])) as [Hnil|Hnn].
      - rewrite Hnil in Hpre. apply prefix_nil_inv in Hpre. by subst a.
      - eapply wf_ancestor_dir; [done| |exact Hpre|done].
        rewrite node_at_lookup in Hdir by done. by eexists. }
    destruct (decide (a = [])) as [->|Han]; [done|].
    rewrite node_at_lookup in Ha |- * by done.
    rewrite filled_old; [done|]. intros Hta.
    apply (dirname_not_below t Htn). by etrans. }
  change (wp (convertDocument filePath)
            (fun r w' =>
               r = Throw (SysError ENOENT SysAccess
                            (docxPath_of (fs w) filePath))
               ∧ trace w'
                 = trace w
                   ++ [Adapter filePath;
                       FsCall SysMkdtemp (Path.join os_tmpdir "input-docx-");
                       SofficeCall filePath t;
                       FsCall SysAccess (docxPath_of (fs w) filePath)]) w).
  unfold convertDocument. wp_steps. rewrite Hext.
  change (String.eqb ".doc" ".docx") with false.
  change (String.eqb ".doc" ".doc") with true.
  unfold convertDocToDocx, fs_mkdtemp. wp_steps. rewrite Hmk.
  unfold runLibreOfficeConversion, spawn_soffice. wp_steps.
  fold run. rewrite Hend. rewrite bool_decide_eq_true_2 by done.
  wp_steps. fold (filled (fs w) t (written run)).
  unfold Fs.access. rewrite node_at_lookup by apply join_not_nil.
  change (Path.join t _) with (docxPath_of (fs w) filePath).
  rewrite Hnone, Hmiss. split; [done|].
  by rewrite <- !app_assoc.
Qed.

(** X4.  When the office suite delivers, a [.doc] gives the Markdown of
    a native [.docx] with the same bytes: the adapter on the [.doc]
    returns what it returns on any [.docx] path whose content is the
    content of the temporary [.docx]. *)
Theorem X4_doc_as_native_docx (filePath native : path) (w : World) :
  Js.toLowerCase (Path.extname_of filePath) = ".doc" →
  Js.toLowerCase (Path.extname_of native) = ".docx" →
  let t := tempDir_of (fs w) in
  let run := soffice (<[t := Dir]> (fs w)) filePath t in
  let full := filled (fs w) t (written run) in
  Fs.mkdtemp (fs w) os_tmpdir "input-docx-" (mkdtemp_random (fs w))
  = Ok (t, <[t := Dir]> (fs w)) →
  ended run = ProcExit (Some 0) None →
  is_Some (full !! docxPath_of (fs w) filePath) →
  Fs.readFile full (docxPath_of (fs w) filePath)
  = Fs.readFile (fs w) native →
  (convertDocument filePath w).1 = (convertDocument native w).1.
Proof.
  intros Hdoc Hdocx t run full Hmk Hend Hthere Hbytes.
  destruct (doc_pipeline_delivered filePath w Hdoc Hmk Hend Hthere)
    as [-> _].
  assert (Hnat : (convertDocument native w).1
                 = docx_markdown (fs w) native).
  { change (wp (convertDocument native)
              (fun r _ => r = docx_markdown (fs w) native) w).
    unfold convertDocument. wp_steps. rewrite Hdocx.
    change (String.eqb ".docx" ".docx") with true. cbv iota.
    by apply wp_convertDocxToMarkdown. }
  rewrite Hnat. unfold docx_markdown. fold t run full. by rewrite Hbytes.
Qed.

End AdapterProperties.

(** * Further properties of the orchestrators *)

Section OrchestratorProperties.

Context `{Platform}.

Lemma world_eq (w1 w2 : World) :
  fs w1 = fs w2 → trace w1 = trace w2 → exitCode w1 = exitCode w2 → w1 = w2.
Proof. destruct w1, w2. cbn. by intros -> -> ->. Qed.

Lemma fs_dir_start (outputDir : path) (clearOutput : bool) (w : World) :
  fs (dir_start outputDir clearOutput w)
  = before_mkdir outputDir clearOutput (fs w).
Proof. by destruct clearOutput. Qed.

Lemma convertDirectory_spec (inputDir outputDir : path) (clearOutput : bool)
    (w : World) :
  wp (convertDirectory inputDir outputDir clearOutput)
    (directory_run inputDir outputDir clearOutput w) w.
Proof.
  destruct (Fs.mkdir_recursive (before_mkdir outputDir clearOutput (fs w))
              outputDir) as [fs1|e] eqn:Emk.
  2:{ unfold convertDirectory, before_mkdir in *.
      destruct clearOutput; wp_steps; unfold with_unit; rewrite Emk;
        by apply dr_mkdir_failed. }
  destruct (Fs.readdir fs1 inputDir) as [entries|e] eqn:Erd.
  2:{ unfold convertDirectory, before_mkdir in *.
      destruct clearOutput; wp_steps; unfold with_unit; rewrite Emk;
        wp_steps; rewrite Erd;
        (erewrite world_eq; [by eapply dr_readdir_failed|done| |done]);
        unfold setup_events; world_simpl; by rewrite <- !app_assoc. }
  eapply wp_convertDirectory_setup; [done..|].
  intros w0 Hfs He Ht.
  assert (Hw0 : w0 = setup_world inputDir outputDir clearOutput fs1 w)
    by (by apply world_eq).
  subst w0.
  destruct (supported_files entries) as [|f files] eqn:Hfiles.
  - cbn [length Nat.eqb]. wp_steps. by eapply dr_nothing.
  - cbn [length Nat.eqb].
    pose proof (wp_loop_reports inputDir outputDir clearOutput (f :: files)
                  (setup_world inputDir outputDir clearOutput fs1 w))
      as Hloop.
    unfold wp in Hloop |- *.
    destruct (forOf (f :: files) _ _) as [r w'] eqn:Erun.
    cbn [fst snd] in *. destruct Hloop as (-> & _).
    eapply dr_pass; [done..| |by rewrite Hfiles]. by rewrite Hfiles.
Qed.

Lemma convertDirectory_run inputDir outputDir clearOutput w r w' :
  convertDirectory inputDir outputDir clearOutput w = (r, w') →
  directory_run inputDir outputDir clearOutput w r w'.
Proof.
  intros Hrun.
  exact (wp_run _ _ _ _ _ Hrun (convertDirectory_spec _ _ _ _)).
Qed.

Lemma directory_run_exitCode inputDir outputDir clearOutput w r w' :
  directory_run inputDir outputDir clearOutput w r w' →
  exitCode w' = exitCode w.
Proof.
  intros Hrun.
  destruct Hrun as [e _|fs1 e _ _|fs1 entries _ _ _
                   |fs1 entries w2 _ _ _ Hloop].
  - by destruct clearOutput.
  - done.
  - done.
  - pose proof (wp_loop_reports inputDir outputDir clearOutput
                  (supported_files entries)
                  (setup_world inputDir outputDir clearOutput fs1 w)) as Hl.
    unfold wp in Hl. rewrite Hloop in Hl. cbn [fst snd] in Hl.
    by destruct Hl as (_ & ? & _).
Qed.

Lemma single_file_run_exitCode inputPath outputPath clearOutput w r w' :
  single_file_run inputPath outputPath clearOutput w r w' →
  exitCode w' = exitCode w.
Proof.
  intros Hrun.
  destruct (supportedExtensions_has (Path.extname_of inputPath)) eqn:Hext.
  - by destruct (single_file_run_trace _ _ _ _ _ _ Hrun Hext) as (tr & _ & ?).
  - inversion Hrun; subst; congruence.
Qed.

(** X5.  [main] never throws: whatever the arguments and the world, it
    returns normally.  [process.exitCode] is assigned, and then to 1,
    exactly when the orchestrator that was chosen threw (then the last
    event is the report of line 241); otherwise it is left alone.  When
    the input path cannot be [stat]ed, or is neither a file nor a
    directory, there is no other call than that [stat]: the file system
    is untouched and the exit code is 1. *)
Theorem X5_main_never_throws (inputPath outputPath : path)
    (clearOutput : bool) (w : World) :
  ∃ w', main inputPath outputPath clearOutput w = (Ok tt, w')
    ∧ (exitCode w' = exitCode w
       ∨ exitCode w' = Some 1
         ∧ ∃ e, last (trace w')
                = Some (Console ConsoleError (MsgFailedToProcess e)))
    ∧ (∀ c e w1,
         Fs.node_at (fs w) inputPath = Some (File c) →
         convertSingleFile inputPath outputPath clearOutput
           (observe (FsCall SysStat inputPath) w) = (Throw e, w1) →
         exitCode w' = Some 1 ∧ fs w' = fs w1)
    ∧ (∀ c w1,
         Fs.node_at (fs w) inputPath = Some (File c) →
         convertSingleFile inputPath outputPath clearOutput
           (observe (FsCall SysStat inputPath) w) = (Ok tt, w1) →
         w' = w1 ∧ exitCode w' = exitCode w)
    ∧ (∀ e w1,
         Fs.node_at (fs w) inputPath = Some Dir →
         convertDirectory inputPath outputPath clearOutput
           (observe (FsCall SysStat inputPath) w) = (Throw e, w1) →
         exitCode w' = Some 1 ∧ fs w' = fs w1)
    ∧ (∀ w1,
         Fs.node_at (fs w) inputPath = Some Dir →
         convertDirectory inputPath outputPath clearOutput
           (observe (FsCall SysStat inputPath) w) = (Ok tt, w1) →
         w' = w1 ∧ exitCode w' = exitCode w)
    ∧ (Fs.node_at (fs w) inputPath = None
       ∨ Fs.node_at (fs w) inputPath = Some Special →
       exitCode w' = Some 1 ∧ fs w' = fs w
       ∧ ∃ e, trace w'
              = trace w ++ [FsCall SysStat inputPath;
                            Console ConsoleError (MsgFailedToProcess e)]).
Proof.
  set (w0 := observe (FsCall SysStat inputPath) w).
  set (P := fun w' : World =>
    (exitCode w' = exitCode w
     ∨ exitCode w' = Some 1
       ∧ ∃ e, last (trace w')
              = Some (Console ConsoleError (MsgFailedToProcess e)))
    ∧ (∀ c e w1,
         Fs.node_at (fs w) inputPath = Some (File c) →
         convertSingleFile inputPath outputPath clearOutput w0
         = (Throw e, w1) →
         exitCode w' = Some 1 ∧ fs w' = fs w1)
    ∧ (∀ c w1,
         Fs.node_at (fs w) inputPath = Some (File c) →
         convertSingleFile inputPath outputPath clearOutput w0 = (Ok tt, w1) →
         w' = w1 ∧ exitCode w' = exitCode w)
    ∧ (∀ e w1,
         Fs.node_at (fs w) inputPath = Some Dir →
         convertDirectory inputPath outputPath clearOutput w0
         = (Throw e, w1) →
         exitCode w' = Some 1 ∧ fs w' = fs w1)
    ∧ (∀ w1,
         Fs.node_at (fs w) inputPath = Some Dir →
         convertDirectory inputPath outputPath clearOutput w0 = (Ok tt, w1) →
         w' = w1 ∧ exitCode w' = exitCode w)
    ∧ (Fs.node_at (fs w) inputPath = None
       ∨ Fs.node_at (fs w) inputPath = Some Special →
       exitCode w' = Some 1 ∧ fs w' = fs w
       ∧ ∃ e, trace w'
              = trace w ++ [FsCall SysStat inputPath;
                            Console ConsoleError (MsgFailedToProcess e)])).
  assert (Hmain : wp (main inputPath outputPath clearOutput)
                    (fun r w' => r = Ok tt ∧ P w') w).
  { assert (Hlast : ∀ e (w1 : World),
              last (trace w1 ++ [Console ConsoleError (MsgFailedToProcess e)])
              = Some (Console ConsoleError (MsgFailedToProcess e)))
      by (intros; apply last_snoc).
    unfold main. wp_steps. fold w0. unfold Fs.stat.
    destruct (Fs.node_at (fs w) inputPath) as [[c| |]|] eqn:Enode;
      cbn [Fs.isFile Fs.isDirectory]; cbv beta iota.
    - unfold wp at 1.
      destruct (convertSingleFile inputPath outputPath clearOutput w0)
        as [[[]|e] w1] eqn:Erun; cbn [fst snd];
        pose proof (single_file_run_exitCode _ _ _ _ _ _
                      (convertSingleFile_run _ _ _ _ _ _ Erun)) as He.
      + split; [done|]. unfold P.
        split; [by left|]. split; [intros; congruence|].
        split; [intros ? ? _ [= <-]; by split|].
        split; [intros; congruence|].
        split; [intros; congruence|].
        intros [Hd|Hd]; congruence.
      + wp_steps. split; [done|]. unfold P. world_simpl.
        split; [right; split; [done|]; eexists; apply Hlast|].
        split; [intros ? ? ? _ [= <- <-]; by split|].
        split; [intros; congruence|].
        split; [intros; congruence|].
        split; [intros; congruence|].
        intros [Hd|Hd]; congruence.
    - assert (Hnf : ∀ c, Fs.node_at (fs w) inputPath ≠ Some (File c))
        by congruence.
      unfold wp at 1.
      destruct (convertDirectory inputPath outputPath clearOutput w0)
        as [[[]|e] w1] eqn:Erun; cbn [fst snd];
        pose proof (directory_run_exitCode _ _ _ _ _ _
                      (convertDirectory_run _ _ _ _ _ _ Erun)) as He.
      + split; [done|]. unfold P.
        split; [by left|].
        split; [intros; congruence|].
        split; [intros; congruence|].
        split; [intros; congruence|].
        split; [intros ? _ [= <-]; by split|].
        intros [Hd|Hd]; congruence.
      + wp_steps. split; [done|]. unfold P. world_simpl.
        split; [right; split; [done|]; eexists; apply Hlast|].
        split; [intros; congruence|].
        split; [intros; congruence|].
        split; [intros ? ? _ [= <- <-]; by split|].
        split; [intros; congruence|].
        intros [Hd|Hd]; congruence.
    - assert (Hnf : ∀ c, Fs.node_at (fs w) inputPath ≠ Some (File c))
        by congruence.
      wp_steps. split; [done|]. unfold P. world_simpl.
      split; [right; split; [done|]; eexists; apply Hlast|].
      split; [intros; congruence|].
      split; [intros; congruence|].
      split; [intros; congruence|].
      split; [intros; congruence|].
      intros _. split; [done|]. split; [done|]. eexists.
      unfold w0. world_simpl. by rewrite <- app_assoc.
    - assert (Hnf : ∀ c, Fs.node_at (fs w) inputPath ≠ Some (File c))
        by congruence.
      wp_steps. split; [done|]. unfold P. world_simpl.
      split; [right; split; [done|]; eexists; apply Hlast|].
      split; [intros; congruence|].
      split; [intros; congruence|].
      split; [intros; congruence|].
      split; [intros; congruence|].
      intros _. split; [done|]. split; [done|]. eexists.
      unfold w0. world_simpl. by rewrite <- app_assoc. }
  unfold wp in Hmain.
  destruct (main inputPath outputPath clearOutput w) as [r w'].
  cbn [fst snd] in Hmain. destruct Hmain as [-> HP]. by exists w'.
Qed.

(** *** More about the file system *)

(** [mkdir] only adds the path it was asked for and ancestors of it. *)
Lemma mkdir_from_keys (target cur rest : path) (fs fs' : FS) :
  Fs.mkdir_from target cur rest fs = Ok fs' →
  ∀ q n, fs' !! q = Some n →
         fs !! q = Some n ∨ q `prefix_of` (cur ++ rest).
Proof.
  revert cur fs. induction rest as [|c rest IH]; intros cur fs; cbn.
  - intros [= <-] q n Hq. by left.
  - intros Hrun q n Hq.
    replace (cur ++ c :: rest) with ((cur ++ [c]) ++ rest)
      by (by rewrite <- app_assoc).
    destruct (fs !! (cur ++ [c])) as [[| |]|] eqn:E; try discriminate.
    + by eapply IH.
    + eapply IH in Hq as [Hq|Hq]; [|by right|exact Hrun].
      rewrite lookup_insert in Hq. case_decide as Hk; [|by left].
      right. subst q. by apply prefix_app_r.
Qed.

Lemma readdir_spec (fs : FS) (d : path) (entries : list Fs.Dirent)
    (entry : Fs.Dirent) :
  Fs.readdir fs d = Ok entries → In entry entries →
  fs !! Path.join d (Fs.name entry) = Some (Fs.kind entry).
Proof.
  unfold Fs.readdir. destruct (Fs.node_at fs d) as [[| |]|]; try done.
  intros [= <-] Hin. apply list_elem_of_In, list_elem_of_omap in Hin
    as ([k n] & Hkv & Hentry).
  apply elem_of_map_to_list in Hkv. unfold Fs.entry_of in Hentry.
  case_bool_decide as Hk; [|done]. injection Hentry as <-.
  cbn [Fs.name Fs.kind fst snd] in *. destruct Hk as [Hk _].
  by rewrite <- Hk.
Qed.

Lemma footprint_not_special (fs fs' : FS) (q : path) :
  footprint fs fs' → fs' !! q = Some Special → fs !! q = Some Special.
Proof.
  assert (Hfilled : ∀ t files,
            filled fs t files !! q = Some Special → fs !! q = Some Special).
  { intros t files Hq.
    by apply filled_new in Hq as [[Hq _]|[[_ Hq]|(_ & _ & c & Hq)]]. }
  intros [|t files _ _ _|t files _ _ _]; [done|apply Hfilled|].
  rewrite rm_recursive_lookup. case_decide; [done|apply Hfilled].
Qed.

(** *** What the three statements leave at the target *)

Lemma converted_content source target w0 w1 :
  converted source target w0 (Ok tt) w1 →
  fs w0 !! target ≠ Some Special →
  ∃ md, (convertDocument source w0).1 = Ok md
        ∧ fs w1 !! target = Some (File md)
        ∧ last (trace w1)
          = Some (Console ConsoleLog (MsgConverted source target)).
Proof.
  intros Hc Hns. inversion Hc as [| |md fs_mid w1' tr Hmd Hs Hin Hfp Hw];
    subst. exists md. split; [done|]. split.
  - unfold Fs.writeFile in Hw.
    destruct (Fs.node_at fs_mid target) as [[c| |]|] eqn:En.
    + injection Hw as <-. apply lookup_insert_eq.
    + done.
    + exfalso. apply Hns. eapply footprint_not_special; [done|].
      by destruct target.
    + destruct (Fs.node_at fs_mid (Path.dirname target)) as [[| |]|];
        try done. injection Hw as <-. apply lookup_insert_eq.
  - destruct Hs as [-> _].
    replace (trace w0 ++ Adapter source :: tr
             ++ [FsCall SysWriteFile target;
                 Console ConsoleLog (MsgConverted source target)])
      with ((trace w0 ++ Adapter source :: tr
             ++ [FsCall SysWriteFile target])
            ++ [Console ConsoleLog (MsgConverted source target)]).
    + apply last_snoc.
    + rewrite <- app_assoc. cbn [app]. by rewrite <- app_assoc.
Qed.

(** The three statements leave alone what is stored elsewhere than at
    the target, on a well-formed file system. *)
Lemma converted_frame source target w0 r w1 :
  converted source target w0 r w1 → Fs.wf (fs w0) →
  ∀ q n, fs w0 !! q = Some n → q ≠ target → fs w1 !! q = Some n.
Proof.
  intros Hc Hwf q n Hq Hne.
  destruct Hc as [e w1 tr _ _ _ Hfp|md e w1 tr _ _ _ Hfp _
                 |md fs_mid w1 tr _ _ _ Hfp Hw];
    apply footprint_wf in Hfp as [_ Hsub]; try done;
    try (by eapply lookup_weaken).
  apply writeFile_spec in Hw as [->|(-> & _)].
  - by eapply lookup_weaken.
  - rewrite lookup_insert_ne by done. by eapply lookup_weaken.
Qed.


(** *** The loop touches eligible entries only *)

Lemma internal_for_eligible (inputDir outputDir : path)
    (entries : list Fs.Dirent) (ev : event) :
  adapter_internal ev = true → for_eligible inputDir outputDir entries ev.
Proof. destruct ev as [| [] | | | |]; done. Qed.

Lemma entry_run_eligible inputDir outputDir clearOutput entries entry w w' :
  entry_run inputDir outputDir clearOutput entry w w' →
  In entry (supported_files entries) →
  ∃ seg, since w w' seg
         ∧ Forall (for_eligible inputDir outputDir entries) seg.
Proof.
  intros [n _ _|e _ _ _|r w1 Hatt Hc] Hin.
  - eexists. split; [since_solve|]. by repeat constructor.
  - eexists. split; [since_solve|]. by repeat constructor.
  - set (source := sourcePath_of inputDir entry) in *.
    set (target := targetPath_of outputDir entry) in *.
    assert (Hpre : ∃ probe,
              since w (attempt_world clearOutput target w) [probe]
              ∧ for_eligible inputDir outputDir entries probe).
    { unfold attempt_world. destruct clearOutput.
      - destruct (Fs.rm_force _ _); eexists; (split; [since_solve|done]).
      - eexists; (split; [since_solve|done]). }
    destruct Hpre as (probe & Hpre & Hprobe).
    assert (Hsrc : for_eligible inputDir outputDir entries (Adapter source))
      by (by exists entry).
    assert (Htgt : for_eligible inputDir outputDir entries
                     (FsCall SysWriteFile target)) by (by exists entry).
    assert (Hint : ∀ tr, Forall (fun ev => adapter_internal ev = true) tr →
              Forall (for_eligible inputDir outputDir entries) tr).
    { intros tr Htr. eapply Forall_impl; [exact Htr|].
      intros ev. apply internal_for_eligible. }
    destruct Hc as [e w1 tr _ Hs Hall _|md e w1 tr _ Hs Hall _ _
                   |md fs_mid w1 tr _ Hs Hall _ _]; cbn [finish].
    + eexists. split.
      { apply since_observe. eapply since_trans; [exact Hpre | exact Hs]. }
      cbn [app].
      repeat first [ by apply Hint | done | apply Forall_app; split
                   | constructor ].
    + eexists. split.
      { apply since_observe. eapply since_trans; [exact Hpre | exact Hs]. }
      cbn [app].
      repeat first [ by apply Hint | done | apply Forall_app; split
                   | constructor ].
    + eexists. split.
      { eapply since_trans; [exact Hpre | exact Hs]. }
      cbn [app].
      repeat first [ by apply Hint | done | apply Forall_app; split
                   | constructor ].
Qed.

Lemma wp_loop_eligible inputDir outputDir clearOutput entries files w :
  (∀ entry, In entry files → In entry (supported_files entries)) →
  wp (forOf files (convertEntry inputDir outputDir clearOutput))
    (fun r w' =>
       r = Ok tt
       ∧ ∃ tr, since w w' tr
               ∧ Forall (for_eligible inputDir outputDir entries) tr) w.
Proof.
  revert w. induction files as [|x files IH]; intros w Hin; cbn [forOf].
  - apply wp_ret. split; [done|]. exists []. split; [apply since_refl|done].
  - apply (wp_bind (convertEntry inputDir outputDir clearOutput x)
             (fun _ => forOf files
                         (convertEntry inputDir outputDir clearOutput))).
    eapply wp_mono; [apply convertEntry_spec|].
    intros r w1 [-> Hrun]. cbv beta iota.
    eapply entry_run_eligible in Hrun as (seg & Hs1 & Hseg);
      [|apply Hin; by left].
    eapply wp_mono; [apply IH; intros; apply Hin; by right|].
    intros r w2 (-> & tr & Hs2 & Htr). split; [done|].
    exists (seg ++ tr). split; [by eapply since_trans|].
    by apply Forall_app.
Qed.

Lemma supported_files_spec (entries : list Fs.Dirent) (entry : Fs.Dirent) :
  In entry (supported_files entries)
  ↔ In entry entries ∧ Fs.isFile (Fs.kind entry) = true
    ∧ supportedExtensions_has (Path.extname (Fs.name entry)) = true.
Proof. unfold supported_files. rewrite !filter_In. tauto. Qed.

(** X7.  The directory mode works on the eligible entries of the
    listing and on nothing else.  When the set-up gave the file system
    [fs1] and the listing [entries]: every eligible entry is a regular
    file that sits directly in the input directory, with one of the six
    extensions; after the calls of the set-up, every call of the adapter
    is on the path of such an entry and every [writeFile] goes to the
    target of such an entry, a file directly in the output directory.
    Sub-directories are not entered and nothing is written elsewhere. *)
Theorem X7_only_eligible_files (inputDir outputDir : path)
    (clearOutput : bool) (w : World) (fs1 : FS) (entries : list Fs.Dirent) :
  Fs.mkdir_recursive (before_mkdir outputDir clearOutput (fs w)) outputDir
  = Ok fs1 →
  Fs.readdir fs1 inputDir = Ok entries →
  (∀ entry, In entry (supported_files entries) →
     (∃ c, fs1 !! sourcePath_of inputDir entry = Some (File c))
     ∧ Path.dirname (sourcePath_of inputDir entry) = inputDir
     ∧ Path.dirname (targetPath_of outputDir entry) = outputDir
     ∧ supportedExtensions_has (Path.extname (Fs.name entry)) = true)
  ∧ ∃ tr,
      since w (convertDirectory inputDir outputDir clearOutput w).2
        (setup_events inputDir outputDir clearOutput ++ tr)
      ∧ Forall (for_eligible inputDir outputDir entries) tr.
Proof.
  intros Hmk Hrd. split.
  - intros entry Hin. apply supported_files_spec in Hin as (Hin & Hfile & Hext).
    pose proof (readdir_spec _ _ _ _ Hrd Hin) as Hnode.
    split; [|unfold sourcePath_of, targetPath_of; by rewrite !dirname_join].
    destruct (Fs.kind entry) as [c| |]; try done. by exists c.
  - destruct (convertDirectory inputDir outputDir clearOutput w)
      as [r w'] eqn:Erun. cbn [fst snd].
    apply convertDirectory_run in Erun.
    destruct Erun as [e0 Hmk'|fs1' e0 Hmk' Hrd'|fs1' entries' Hmk' Hrd' _
                     |fs1' entries' w2 Hmk' Hrd' _ Hloop];
      try congruence.
    + exists [Console ConsoleWarn (MsgNoSupported inputDir)].
      split; [|by repeat constructor]. split; [|done].
      cbn [setup_world observe trace]. by rewrite app_assoc.
    + assert (fs1' = fs1) as -> by congruence.
      assert (entries' = entries) as -> by congruence.
      pose proof (wp_loop_eligible inputDir outputDir clearOutput entries
                    (supported_files entries)
                    (setup_world inputDir outputDir clearOutput fs1 w)
                    (fun _ Hin => Hin)) as Hl.
      unfold wp in Hl. rewrite Hloop in Hl. cbn [fst snd] in Hl.
      destruct Hl as (_ & tr & [Ht He] & Htr).
      exists tr. split; [|done]. split; [|done].
      rewrite Ht. cbn [setup_world trace]. by rewrite app_assoc.
Qed.

(** *** Clearing the output directory *)

Lemma rm_recursive_wf (fs : FS) (p : path) :
  Fs.wf fs → Fs.wf (Fs.rm_recursive_force fs p).
Proof.
  intros Hwf q n. rewrite rm_recursive_lookup.
  case_decide as Hpre; [done|]. intros Hq.
  destruct (Hwf q n Hq) as [Hne Hdir]. split; [done|].
  destruct (decide (Path.dirname q = [])) as [->|Hd]; [done|].
  rewrite node_at_lookup in Hdir |- * by done.
  rewrite rm_recursive_lookup. case_decide as Hpre'; [|done].
  destruct Hpre. etrans; [exact Hpre'|apply dirname_prefix].
Qed.

Lemma prefix_antisym (p q : path) :
  p `prefix_of` q → q `prefix_of` p → p = q.
Proof.
  intros Hpq Hqp. apply prefix_length_eq; [done|]. by apply prefix_length.
Qed.

Lemma missing_ENOENT_gone (fs : FS) (p : path) :
  (∀ a, a `prefix_of` p → a ≠ p →
        Fs.node_at fs a = Some Dir ∨ Fs.node_at fs a = None) →
  Fs.missing fs p = ENOENT.
Proof.
  intros Hanc. unfold Fs.missing.
  destruct (existsb _ (Fs.ancestors p)) eqn:E; [|done].
  apply existsb_exists in E as (a & Ha & Hbad).
  apply ancestors_spec in Ha as [Hpre Hne].
  by destruct (Hanc a Hpre Hne) as [Hx|Hx]; rewrite Hx in Hbad.
Qed.

(** After [rm] and [mkdir] there is nothing below the directory. *)
Lemma mkdir_cleared_below (fs fs1 : FS) (d : path) :
  Fs.mkdir_recursive (Fs.rm_recursive_force fs d) d = Ok fs1 →
  ∀ q, d `prefix_of` q → q ≠ d → fs1 !! q = None.
Proof.
  intros Hmk q Hpre Hne. destruct (fs1 !! q) as [n|] eqn:Hq; [|done].
  exfalso.
  destruct (mkdir_from_keys _ _ _ _ _ Hmk q n Hq) as [Hold|Hnew].
  - rewrite rm_recursive_lookup in Hold. by case_decide.
  - apply Hne. by apply prefix_antisym.
Qed.

Lemma readdir_nothing_below (fs : FS) (d : path) :
  Fs.node_at fs d = Some Dir →
  (∀ q, d `prefix_of` q → q ≠ d → fs !! q = None) →
  Fs.readdir fs d = Ok [].
Proof.
  intros Hd Hnone. unfold Fs.readdir. rewrite Hd. f_equal.
  destruct (omap (Fs.entry_of d) (map_to_list fs)) as [|entry l] eqn:E;
    [done|].
  assert (Hin : entry ∈ omap (Fs.entry_of d) (map_to_list fs))
    by (rewrite E; by left).
  apply list_elem_of_omap in Hin as ([k n] & Hkv & Hentry).
  apply elem_of_map_to_list in Hkv. unfold Fs.entry_of in Hentry.
  case_bool_decide as Hk; [|done]. cbn [fst snd] in *.
  destruct Hk as [Hk _]. rewrite Hnone in Hkv; [done| |].
  - rewrite Hk. by apply prefix_app_r.
  - rewrite Hk. apply join_ne_dir.
Qed.

(** X8.  What [--clear-output] does in directory mode (lines 184-188): when the
    set-up succeeds, the loop starts with an output directory that
    exists and has nothing in it.  The input directory is not looked at
    before: when it is the output directory, every file in it is
    deleted, nothing is converted and the run ends normally with the
    warning of line 195; when it lies below the output directory, on a
    well-formed file system, it is deleted with the rest and the run
    fails with [ENOENT] from [readdir]. *)
Theorem X8_clear_empties_output_directory (inputDir outputDir : path)
    (w : World) (fs1 : FS) :
  Fs.mkdir_recursive (Fs.rm_recursive_force (fs w) outputDir) outputDir
  = Ok fs1 →
  Fs.node_at fs1 outputDir = Some Dir
  ∧ (∀ q, outputDir `prefix_of` q → q ≠ outputDir → fs1 !! q = None)
  ∧ Fs.readdir fs1 outputDir = Ok []
  ∧ (inputDir = outputDir →
     convertDirectory inputDir outputDir true w
     = (Ok tt,
        observe (Console ConsoleWarn (MsgNoSupported inputDir))
          (setup_world inputDir outputDir true fs1 w)))
  ∧ (Fs.wf (fs w) → outputDir `prefix_of` inputDir → inputDir ≠ outputDir →
     convertDirectory inputDir outputDir true w
     = (Throw (SysError ENOENT SysReaddir inputDir),
        setup_world inputDir outputDir true fs1 w)).
Proof.
  intros Hmk.
  pose proof (mkdir_recursive_spec _ _ _ Hmk) as (Hdir & _ & _ & Hwf1).
  pose proof (mkdir_cleared_below _ _ _ Hmk) as Hbelow.
  pose proof (readdir_nothing_below _ _ Hdir Hbelow) as Hrd.
  split; [done|]. split; [done|]. split; [done|]. split.
  - intros ->.
    destruct (convertDirectory outputDir outputDir true w)
      as [r w'] eqn:Erun.
    apply convertDirectory_run in Erun.
    destruct Erun as [e0 Hmk'|fs1' e0 Hmk' Hrd'|fs1' entries' Hmk' Hrd' _
                     |fs1' entries' w2 Hmk' Hrd' Hne _];
      cbn [before_mkdir] in *; try congruence.
    assert (entries' = []) as -> by congruence. by destruct Hne.
  - intros Hwf Hpre Hne.
    assert (Hgone : Fs.node_at fs1 inputDir = None).
    { rewrite node_at_lookup; [by apply Hbelow|].
      intros ->. apply Hne. symmetry. by apply prefix_nil_inv. }
    assert (Hmiss : Fs.missing fs1 inputDir = ENOENT).
    { apply missing_ENOENT_gone. intros a Ha Hane.
      destruct (prefix_weak_total a outputDir inputDir Ha Hpre) as [Hao|Hoa].
      - left. destruct (decide (a = outputDir)) as [->|Hne']; [done|].
        destruct (decide (outputDir = [])) as [->|Hout].
        { destruct Hne'. by apply prefix_nil_inv. }
        eapply wf_ancestor_dir; [apply Hwf1; by apply rm_recursive_wf| |done..].
        rewrite <- node_at_lookup by done. by rewrite Hdir.
      - destruct (decide (a = outputDir)) as [->|Hne']; [by left|].
        right. rewrite node_at_lookup; [by apply Hbelow|].
        intros ->. apply Hne'. symmetry. by apply prefix_nil_inv. }
    assert (Hrd' : Fs.readdir fs1 inputDir
                   = Throw (SysError ENOENT SysReaddir inputDir)).
    { unfold Fs.readdir. by rewrite Hgone, Hmiss. }
    destruct (convertDirectory inputDir outputDir true w)
      as [r w'] eqn:Erun.
    apply convertDirectory_run in Erun.
    destruct Erun as [e0 Hmk'|fs1' e0 Hmk' Hrd''|fs1' entries' Hmk' Hrd'' _
                     |fs1' entries' w2 Hmk' Hrd'' _ _];
      cbn [before_mkdir] in *; congruence.
Qed.

(** *** What the single-file mode leaves behind *)

Lemma converted_wf source target w0 r w1 :
  converted source target w0 r w1 → Fs.wf (fs w0) → Fs.wf (fs w1).
Proof.
  intros Hc Hwf.
  destruct Hc as [e w1 tr _ _ _ Hfp|md e w1 tr _ _ _ Hfp _
                 |md fs_mid w1 tr _ _ _ Hfp Hw];
    apply footprint_wf in Hfp as [Hwf1 _]; try done.
  exact (wf_writeFile _ _ _ _ Hwf1 Hw).
Qed.



Lemma single_file_run_frame inputPath outputPath clearOutput w r w' :
  single_file_run inputPath outputPath clearOutput w r w' →
  Fs.wf (fs w) →
  Fs.wf (fs w')
  ∧ ∀ q n, fs w !! q = Some n → clearOutput = false ∨ q ≠ outputPath →
           fs w' !! q = Some n.
Proof.
  intros Hrun Hwf.
  destruct Hrun as [Hext|e Hext Hmk|fs1 Hext Hmk Hn|fs1 n Hext Hmk Hn Hnd Hc
                   |fs1 e Hext Hmk Hst Hcode
                   |fs1 n r w' Hext Hmk Hn Hnd Hc Hconv
                   |fs1 e r w' Hext Hmk Hst Hcode Hconv];
    try (split; [done|]; intros q n0 Hq _; done);
    pose proof (mkdir_recursive_spec _ _ _ Hmk) as (_ & Hsub & _ & Hwf1);
    specialize (Hwf1 Hwf);
    try (split; [done|]; intros q n0 Hq _; world_simpl;
         by eapply lookup_weaken).
  - assert (Hout : outputPath ≠ [])
      by (intros ->; cbn [Fs.node_at] in Hn; congruence).
    rewrite node_at_lookup in Hn by done.
    assert (Hwfc : Fs.wf (fs (cleared outputPath fs1 w)))
      by (world_simpl; by eapply wf_delete_leaf).
    split; [by eapply converted_wf|].
    intros q n0 Hq [Hf|Hne]; [congruence|].
    eapply converted_frame; [done..| |done]. world_simpl.
    rewrite lookup_delete_ne by done. by eapply lookup_weaken.
  - assert (Hnone : Fs.node_at fs1 outputPath = None).
    { unfold Fs.stat in Hst. by destruct (Fs.node_at fs1 outputPath). }
    apply node_at_None in Hnone as [Hout Hnone].
    split; [by eapply converted_wf|].
    intros q n0 Hq _. apply (lookup_weaken _ _ _ _ Hq) in Hsub.
    eapply converted_frame; [done..|]. congruence.
Qed.

(** X10.  The single-file mode keeps its hands off the rest of the disk.
    On a well-formed file system, however the call ends, every file and
    directory that was there is still there with the same content, with
    one exception: what was at the output path when [--clear-output] is given.
    Without [--clear-output] nothing that was on the disk is changed or removed.
    The file system stays well formed. *)
Theorem X10_single_file_frame (inputPath outputPath : path)
    (clearOutput : bool) (w : World) :
  Fs.wf (fs w) →
  Fs.wf (fs (convertSingleFile inputPath outputPath clearOutput w).2)
  ∧ ∀ q n, fs w !! q = Some n → clearOutput = false ∨ q ≠ outputPath →
      fs (convertSingleFile inputPath outputPath clearOutput w).2 !! q
      = Some n.
Proof.
  intros Hwf.
  destruct (convertSingleFile inputPath outputPath clearOutput w)
    as [r w'] eqn:Erun. cbn [snd].
  apply convertSingleFile_run in Erun.
  by eapply single_file_run_frame.
Qed.

(** *** What one pass of the loop body reports *)


Lemma last_observe (e : event) (w : World) :
  last (trace (observe e w)) = Some e.
Proof. cbn [observe trace]. apply last_snoc. Qed.


(** *** What the directory mode leaves alone *)

Lemma attempt_world_frame (clearOutput : bool) (target : path) (w : World) :
  Fs.wf (fs w) → attempted clearOutput target w = true → target ≠ [] →
  Fs.wf (fs (attempt_world clearOutput target w))
  ∧ (∀ q n, fs w !! q = Some n → q ≠ target →
            fs (attempt_world clearOutput target w) !! q = Some n)
  ∧ (clearOutput = false → fs w !! target = None).
Proof.
  intros Hwf Hatt Hne. unfold attempted, attempt_world in *.
  destruct clearOutput.
  - split; [|split; [|done]].
    + destruct (Fs.rm_force (fs w) target) as [fs'|e] eqn:Erm; [|done].
      world_simpl.
      apply rm_force_spec in Erm as [->|(-> & n & Hn & Hnd)]; [done|].
      by eapply wf_delete_leaf.
    + intros q n Hq Hqt.
      destruct (Fs.rm_force (fs w) target) as [fs'|e] eqn:Erm; [|done].
      world_simpl.
      apply rm_force_spec in Erm as [->|(-> & _)]; [done|].
      by rewrite lookup_delete_ne.
  - split; [done|]. split; [done|]. intros _. unfold Fs.access in Hatt.
    destruct (Fs.node_at (fs w) target) as [n|] eqn:En; [done|].
    by apply node_at_None in En as [_ En].
Qed.

Lemma entry_run_frame inputDir outputDir clearOutput entry w w' :
  entry_run inputDir outputDir clearOutput entry w w' →
  Fs.wf (fs w) →
  Fs.wf (fs w')
  ∧ ∀ q n, fs w !! q = Some n →
           clearOutput = false ∨ q ≠ targetPath_of outputDir entry →
           fs w' !! q = Some n.
Proof.
  intros Hrun Hwf.
  destruct Hrun as [n _ _|e _ _ _|r w1 Hatt Hc]; [done..|].
  set (target := targetPath_of outputDir entry) in *.
  destruct (attempt_world_frame clearOutput target w Hwf Hatt
              (targetPath_not_nil _ _)) as (Hwfa & Hkeep & Hnone).
  assert (Hfs : fs (finish (sourcePath_of inputDir entry) r w1) = fs w1)
    by (by destruct r).
  rewrite Hfs. split; [by eapply converted_wf|].
  intros q n Hq Hcase.
  assert (Hqt : q ≠ target).
  { destruct Hcase as [Hf|Hqt]; [|done]. intros ->.
    rewrite (Hnone Hf) in Hq. done. }
  eapply converted_frame; [done..| |done]. by apply Hkeep.
Qed.

Lemma wp_loop_frame inputDir outputDir clearOutput files w :
  Fs.wf (fs w) →
  wp (forOf files (convertEntry inputDir outputDir clearOutput))
    (fun _ w' =>
       Fs.wf (fs w')
       ∧ ∀ q n, fs w !! q = Some n →
                clearOutput = false ∨ ¬ outputDir `prefix_of` q →
                fs w' !! q = Some n) w.
Proof.
  revert w. induction files as [|x files IH]; intros w Hwf; cbn [forOf].
  - by apply wp_ret.
  - apply (wp_bind (convertEntry inputDir outputDir clearOutput x)
             (fun _ => forOf files
                         (convertEntry inputDir outputDir clearOutput))).
    eapply wp_mono; [apply convertEntry_spec|].
    intros r w1 [-> Hrun]. cbv beta iota.
    apply entry_run_frame in Hrun as [Hwf1 Hkeep1]; [|done].
    eapply wp_mono; [by apply IH|].
    intros r w2 [Hwf2 Hkeep2]. split; [done|].
    intros q n Hq Hcase. apply Hkeep2; [|done]. apply Hkeep1; [done|].
    destruct Hcase as [?|Hout]; [by left|right].
    intros ->. apply Hout. by apply prefix_app_r.
Qed.

Lemma before_mkdir_frame (outputDir : path) (clearOutput : bool) (fs0 : FS) :
  Fs.wf fs0 →
  Fs.wf (before_mkdir outputDir clearOutput fs0)
  ∧ ∀ q n, fs0 !! q = Some n →
           clearOutput = false ∨ ¬ outputDir `prefix_of` q →
           before_mkdir outputDir clearOutput fs0 !! q = Some n.
Proof.
  intros Hwf. destruct clearOutput; cbn [before_mkdir]; [|done].
  split; [by apply rm_recursive_wf|].
  intros q n Hq [?|Hout]; [done|].
  rewrite rm_recursive_lookup. by case_decide.
Qed.

Lemma directory_run_frame inputDir outputDir clearOutput w r w' :
  directory_run inputDir outputDir clearOutput w r w' →
  Fs.wf (fs w) →
  Fs.wf (fs w')
  ∧ ∀ q n, fs w !! q = Some n →
           clearOutput = false ∨ ¬ outputDir `prefix_of` q →
           fs w' !! q = Some n.
Proof.
  intros Hrun Hwf.
  destruct (before_mkdir_frame outputDir clearOutput (fs w) Hwf)
    as [Hwf0 Hkeep0].
  destruct Hrun as [e Hmk|fs1 e Hmk Hrd|fs1 entries Hmk Hrd _
                   |fs1 entries w' Hmk Hrd _ Hloop].
  - cbn [observe fs]. by rewrite fs_dir_start.
  - pose proof (mkdir_recursive_spec _ _ _ Hmk) as (_ & Hsub & _ & Hwf1).
    split; [by apply Hwf1|]. intros q n Hq Hcase. cbn [setup_world fs].
    eapply lookup_weaken; [by apply Hkeep0|done].
  - pose proof (mkdir_recursive_spec _ _ _ Hmk) as (_ & Hsub & _ & Hwf1).
    split; [by apply Hwf1|]. intros q n Hq Hcase.
    cbn [observe setup_world fs].
    eapply lookup_weaken; [by apply Hkeep0|done].
  - pose proof (mkdir_recursive_spec _ _ _ Hmk) as (_ & Hsub & _ & Hwf1).
    pose proof (wp_loop_frame inputDir outputDir clearOutput
                  (supported_files entries)
                  (setup_world inputDir outputDir clearOutput fs1 w))
      as Hl.
    unfold wp in Hl. rewrite Hloop in Hl. cbn [fst snd setup_world fs] in Hl.
    destruct (Hl (Hwf1 Hwf0)) as [Hwf2 Hkeep2]. split; [done|].
    intros q n Hq Hcase. apply Hkeep2; [|done].
    eapply lookup_weaken; [by apply Hkeep0|done].
Qed.

(** X12.  The directory mode keeps its hands off the rest of the disk.
    On a well-formed file system, however the call ends, every file and
    directory that was there and does not lie in the output directory is
    still there with the same content; without [--clear-output] that holds of
    the output directory too.  The file system stays well formed. *)
Theorem X12_directory_frame (inputDir outputDir : path)
    (clearOutput : bool) (w : World) :
  Fs.wf (fs w) →
  Fs.wf (fs (convertDirectory inputDir outputDir clearOutput w).2)
  ∧ ∀ q n, fs w !! q = Some n →
      clearOutput = false ∨ ¬ outputDir `prefix_of` q →
      fs (convertDirectory inputDir outputDir clearOutput w).2 !! q
      = Some n.
Proof.
  intros Hwf.
  destruct (convertDirectory inputDir outputDir clearOutput w)
    as [r w'] eqn:Erun. cbn [snd].
  apply convertDirectory_run in Erun.
  by eapply directory_run_frame.
Qed.

(** X13.  The whole program, from [main]: on a well-formed file system,
    whatever the arguments and however the run ends, nothing that was on
    the disk outside the output path is changed or removed, and without
    [--clear-output] nothing at all; what the run adds leaves the file system
    well formed. *)
Theorem X13_main_frame (inputPath outputPath : path)
    (clearOutput : bool) (w : World) :
  Fs.wf (fs w) →
  Fs.wf (fs (main inputPath outputPath clearOutput w).2)
  ∧ ∀ q n, fs w !! q = Some n →
      clearOutput = false ∨ ¬ outputPath `prefix_of` q →
      fs (main inputPath outputPath clearOutput w).2 !! q = Some n.
Proof.
  intros Hwf.
  change (wp (main inputPath outputPath clearOutput)
            (fun _ w' =>
               Fs.wf (fs w')
               ∧ ∀ q n, fs w !! q = Some n →
                   clearOutput = false ∨ ¬ outputPath `prefix_of` q →
                   fs w' !! q = Some n) w).
  unfold main. wp_steps. unfold Fs.stat.
  set (w0 := observe (FsCall SysStat inputPath) w).
  destruct (Fs.node_at (fs w) inputPath) as [[c| |]|];
    cbn [Fs.isFile Fs.isDirectory]; cbv beta iota.
  - unfold wp at 1.
    destruct (convertSingleFile inputPath outputPath clearOutput w0)
      as [r w1] eqn:Erun; cbn [fst snd].
    apply convertSingleFile_run, single_file_run_frame in Erun
      as [Hwf1 Hkeep]; [|done].
    assert (Hpost : ∀ q n, fs w !! q = Some n →
              clearOutput = false ∨ ¬ outputPath `prefix_of` q →
              fs w1 !! q = Some n).
    { intros q n Hq Hcase. apply Hkeep; [done|].
      destruct Hcase as [?|Hout]; [by left|right]. by intros ->. }
    destruct r as [[]|e]; [done|]. by wp_steps.
  - unfold wp at 1.
    destruct (convertDirectory inputPath outputPath clearOutput w0)
      as [r w1] eqn:Erun; cbn [fst snd].
    apply convertDirectory_run, directory_run_frame in Erun
      as [Hwf1 Hkeep]; [|done].
    destruct r as [[]|e]; [done|]. by wp_steps.
  - by wp_steps.
  - by wp_steps.
Qed.

(** *** Running again, and entries with the same target *)

Lemma single_file_run_output inputPath outputPath clearOutput w w' :
  single_file_run inputPath outputPath clearOutput w (Ok tt) w' →
  ∃ n, Fs.node_at (fs w') outputPath = Some n ∧ n ≠ Dir.
Proof.
  intros Hrun.
  inversion Hrun as [| | |fs1 n Hext Hmk Hn Hnd Hc|
                    |fs1 n r0 w0 Hext Hmk Hn Hnd Hc Hconv
                    |fs1 e r0 w0 Hext Hmk Hst Hcode Hconv]; subst.
  - by exists n.
  - assert (Hout : outputPath ≠ [])
      by (intros ->; cbn [Fs.node_at] in Hn; congruence).
    apply converted_content in Hconv as (md & _ & Hfile & _).
    + exists (File md). by rewrite node_at_lookup.
    + world_simpl. by rewrite lookup_delete_eq.
  - assert (Hnone : Fs.node_at fs1 outputPath = None).
    { unfold Fs.stat in Hst. by destruct (Fs.node_at fs1 outputPath). }
    apply node_at_None in Hnone as [Hout Hnone].
    apply converted_content in Hconv as (md & _ & Hfile & _).
    + exists (File md). by rewrite node_at_lookup.
    + world_simpl. by rewrite Hnone.
Qed.

(** X16.  An output that is there is safe from every later run without
    [--clear-output].  On a well-formed file system, after a single-file run
    that returned normally (it converted or it skipped), a second run to
    the same output path without [--clear-output], from whatever supported
    input, makes the [mkdir] and the [stat], reports the skip and
    returns: no adapter call, no write, the file system as it was. *)
Theorem X16_single_file_second_run (inputPath inputPath' outputPath : path)
    (clearOutput : bool) (w w' : World) :
  Fs.wf (fs w) →
  convertSingleFile inputPath outputPath clearOutput w = (Ok tt, w') →
  supportedExtensions_has (Path.extname_of inputPath') = true →
  convertSingleFile inputPath' outputPath false w'
  = (Ok tt,
     observe (Console ConsoleLog (MsgSkipping outputPath))
       (probed outputPath (fs w') w')).
Proof.
  intros Hwf Hrun Hext'. apply convertSingleFile_run in Hrun.
  destruct (single_file_run_output _ _ _ _ _ Hrun) as (n & Hn & Hnd).
  apply single_file_run_frame in Hrun as [Hwf' _]; [|done].
  assert (Hmk : Fs.mkdir_recursive (fs w') (Path.dirname outputPath)
                = Ok (fs w')).
  { apply mkdir_recursive_existing; [done|]. by eapply wf_parent. }
  destruct (convertSingleFile inputPath' outputPath false w')
    as [r2 w2] eqn:Erun2.
  apply convertSingleFile_run in Erun2.
  inversion Erun2 as [Hx|e Hx Hmk2|fs1 Hx Hmk2 Hn2|fs1 n2 Hx Hmk2 Hn2 Hnd2 Hc
                     |fs1 e Hx Hmk2 Hst Hcode
                     |fs1 n2 r0 w0 Hx Hmk2 Hn2 Hnd2 Hc Hconv
                     |fs1 e r0 w0 Hx Hmk2 Hst Hcode Hconv]; subst;
    try congruence.
  all: assert (fs1 = fs w') as -> by congruence.
  all: unfold Fs.stat in Hst; by rewrite Hn in Hst.
Qed.

(** X17.  Two entries with the same target, without [--clear-output]: the
    first one wins.  On a well-formed file system, when the target of
    the first entry of the loop is there after its pass (it was
    converted, or it was there before), then in the rest of the loop
    every entry with that target is skipped: its skip is reported, the
    adapter is not called on it, nothing is written to the target, and
    the target holds at the end what it held after the first pass. *)
Theorem X17_first_of_same_target_wins (inputDir outputDir : path)
    (first later : Fs.Dirent) (rest : list Fs.Dirent) (w : World) :
  let target := targetPath_of outputDir first in
  let w1 := (convertEntry inputDir outputDir false first w).2 in
  let w' := (forOf (first :: rest)
               (convertEntry inputDir outputDir false) w).2 in
  Fs.wf (fs w) →
  is_Some (fs w1 !! target) →
  In later rest → targetPath_of outputDir later = target →
  ∃ tr, since w1 w' tr
        ∧ In (Console ConsoleLog (MsgSkipping target)) tr
        ∧ ¬ In (Adapter (sourcePath_of inputDir later)) tr
        ∧ ¬ In (FsCall SysWriteFile target) tr
        ∧ fs w' !! target = fs w1 !! target.
Proof.
  intros target w1 w' Hwf Hthere Hin Hsame.
  assert (Hwf1 : Fs.wf (fs w1)).
  { pose proof (convertEntry_spec inputDir outputDir false first w) as Hs.
    unfold wp in Hs. destruct Hs as [_ Hrun]. fold w1 in Hrun.
    by apply entry_run_frame in Hrun as [? _]. }
  assert (Hw' : w' = (forOf rest (convertEntry inputDir outputDir false)
                        w1).2).
  { unfold w', w1. cbn [forOf]. unfold mbind, M_bind, bind.
    pose proof (convertEntry_spec inputDir outputDir false first w) as Hs.
    unfold wp in Hs. destruct Hs as [Hok _].
    destruct (convertEntry inputDir outputDir false first w) as [r0 w0].
    cbn [fst snd] in *. by rewrite Hok. }
  pose proof (wp_loop_spares inputDir outputDir (fs w1) (fs w1) rest w1
                Hwf1 ltac:(done) eq_refl) as Hloop.
  unfold wp in Hloop. rewrite <- Hw' in Hloop.
  destruct Hloop as (_ & Hsub & tr & Hs & Hspares & Hskip & _).
  exists tr. split; [done|].
  rewrite List.Forall_forall in Hspares.
  split; [|split; [|split]].
  - rewrite <- Hsame. apply Hskip; [done|]. by rewrite Hsame.
  - intros Hev. apply Hspares in Hev. cbn [spares] in Hev.
    specialize (Hev later eq_refl). rewrite Hsame in Hev.
    destruct Hthere as [n Hn]. congruence.
  - intros Hev. apply Hspares in Hev. cbn [spares] in Hev.
    destruct Hthere as [n Hn]. congruence.
  - destruct Hthere as [n Hn]. rewrite Hn. by eapply lookup_weaken.
Qed.

(** X18.  With [--clear-output] the last one wins, also when it fails.  On a
    well-formed file system, when a regular file is at the target of an
    entry (in a run with [--clear-output] it can only come from an earlier
    entry with the same target) and lines 220-222 throw for the entry,
    there is no regular file at the target after its pass: the [rm] of
    line 216 has removed the earlier result and nothing has replaced
    it. *)
Theorem X18_failed_entry_destroys_target (inputDir outputDir : path)
    (entry : Fs.Dirent) (w : World) (c : string) (e : error) :
  let source := sourcePath_of inputDir entry in
  let target := targetPath_of outputDir entry in
  Fs.wf (fs w) →
  fs w !! target = Some (File c) →
  (convert_and_write source target (attempt_world true target w)).1
  = Throw e →
  (∀ c', fs (convertEntry inputDir outputDir true entry w).2 !! target
         ≠ Some (File c'))
  ∧ last (trace (convertEntry inputDir outputDir true entry w).2)
    = Some (Console ConsoleError (MsgFailedConvert source e)).
Proof.
  intros source target Hwf Hfile Hthrow.
  assert (Htn : target ≠ []) by apply targetPath_not_nil.
  rewrite convertEntry_attempt by done. cbn [snd]. fold source target.
  pose proof (convert_and_write_spec source target
                (attempt_world true target w)) as Hc.
  unfold wp in Hc. rewrite Hthrow in Hc. rewrite Hthrow.
  cbn [finish]. split; [|apply last_observe].
  cbn [observe fs]. eapply converted_error_no_file; [exact Hc| |];
    unfold attempt_world;
    rewrite (rm_force_leaf (fs w) target (File c))
      by (by rewrite ?node_at_lookup); world_simpl.
  - by rewrite lookup_delete_eq.
  - rewrite node_at_delete_ne by (by apply dirname_ne).
    eapply wf_parent; [done|]. by rewrite node_at_lookup.
Qed.

End OrchestratorProperties.

(** * Names, extensions and targets *)

Lemma chars_app (s1 s2 : string) :
  Js.chars (s1 +:+ s2) = Js.chars s1 ++ Js.chars s2.
Proof.
  unfold Js.chars. induction s1 as [|c s1 IH]; [done|].
  cbn [app list_ascii_of_string]. by rewrite <- IH.
Qed.

Lemma str_app (l1 l2 : list ascii) :
  Js.str (l1 ++ l2) = Js.str l1 +:+ Js.str l2.
Proof.
  unfold Js.str. induction l1 as [|c l1 IH]; [done|].
  cbn [app string_of_list_ascii]. by rewrite IH.
Qed.

Lemma str_chars (s : string) : Js.str (Js.chars s) = s.
Proof. apply string_of_list_ascii_of_string. Qed.

Lemma chars_str (l : list ascii) : Js.chars (Js.str l) = l.
Proof. apply list_ascii_of_string_of_list_ascii. Qed.

Lemma length_chars (s : string) : String.length s = length (Js.chars s).
Proof.
  unfold Js.chars. induction s as [|c s IH]; [done|]. cbn. by rewrite IH.
Qed.

Lemma nth_noslash (cs : list ascii) (i : nat) :
  Forall (fun c => c ≠ "/"%char) cs → (i < length cs)%nat →
  Ascii.eqb (nth i cs "/"%char) "/" = false.
Proof.
  intros Hall Hi. apply Ascii.eqb_neq.
  rewrite List.Forall_forall in Hall. apply Hall. by apply nth_In.
Qed.

(** The scan once the last dot is found: the position of the dot and
    the end stay; [preDotState] tells whether the first character is a
    dot. *)
Lemma ext_loop_after_dot (cs : list ascii) (n : nat) (st : Path.ext_scan) :
  Forall (fun c => c ≠ "/"%char) cs → (n ≤ length cs)%nat →
  Path.startDot st ≠ -1 → Path.end_ st ≠ -1 →
  Path.startDot (Path.ext_loop cs n st) = Path.startDot st
  ∧ Path.end_ (Path.ext_loop cs n st) = Path.end_ st
  ∧ Path.startPart (Path.ext_loop cs n st) = Path.startPart st
  ∧ Path.preDotState (Path.ext_loop cs n st)
    = match n with
      | O => Path.preDotState st
      | S _ => if Ascii.eqb (nth 0 cs "/"%char) "." then 1 else -1
      end.
Proof.
  intros Hall. revert st. induction n as [|i IH]; intros st Hn Hd He;
    [done|].
  cbn [Path.ext_loop]. rewrite nth_noslash by (done || lia).
  apply Z.eqb_neq in Hd as Hd', He as He'. rewrite He'.
  assert (Hstep : ∀ st2,
            Path.startDot st2 = Path.startDot st →
            Path.end_ st2 = Path.end_ st →
            Path.startPart st2 = Path.startPart st →
            Path.preDotState st2
            = (if Ascii.eqb (nth i cs "/"%char) "." then 1 else -1) →
            Path.startDot (Path.ext_loop cs i st2) = Path.startDot st
            ∧ Path.end_ (Path.ext_loop cs i st2) = Path.end_ st
            ∧ Path.startPart (Path.ext_loop cs i st2) = Path.startPart st
            ∧ Path.preDotState (Path.ext_loop cs i st2)
              = (if Ascii.eqb (nth 0 cs "/"%char) "." then 1 else -1)).
  { intros st2 E1 E2 E3 E4.
    destruct (IH st2 ltac:(lia) ltac:(congruence) ltac:(congruence))
      as (-> & -> & -> & ->).
    repeat split; try done. destruct i; [done|]. done. }
  destruct (Ascii.eqb (nth i cs "/"%char) ".") eqn:Edot.
  - rewrite Hd'.
    destruct (negb (Path.preDotState st =? 1)) eqn:Epre.
    + by apply Hstep.
    + apply negb_false_iff, Z.eqb_eq in Epre. by apply Hstep.
  - rewrite Hd'. cbn [negb]. by apply Hstep.
Qed.

(** The scan from the right end of a name without separator: either
    there is no dot in the part that was read, or the scan has found the
    last dot, at [d]. *)
Lemma ext_loop_before_dot (cs : list ascii) (n : nat) (st : Path.ext_scan) :
  Forall (fun c => c ≠ "/"%char) cs → (n ≤ length cs)%nat →
  Path.startDot st = -1 → Path.preDotState st = 0 → Path.startPart st = 0 →
  (Path.end_ st = -1 ∧ n = length cs
   ∨ Path.end_ st = Z.of_nat (length cs)) →
  (Path.startDot (Path.ext_loop cs n st) = -1
   ∧ ∀ i, (i < n)%nat → nth i cs "/"%char ≠ "."%char)
  ∨ ∃ d, (d < n)%nat ∧ nth d cs "/"%char = "."%char
         ∧ (∀ i, (d < i < n)%nat → nth i cs "/"%char ≠ "."%char)
         ∧ Path.startDot (Path.ext_loop cs n st) = Z.of_nat d
         ∧ Path.end_ (Path.ext_loop cs n st) = Z.of_nat (length cs)
         ∧ Path.startPart (Path.ext_loop cs n st) = 0
         ∧ Path.preDotState (Path.ext_loop cs n st)
           = match d with
             | O => 0
             | S _ => if Ascii.eqb (nth 0 cs "/"%char) "." then 1 else -1
             end.
Proof.
  intros Hall. revert st.
  induction n as [|i IH]; intros st Hn Hd Hp Hs He.
  { left. split; [done|]. intros i Hi. lia. }
  cbn [Path.ext_loop]. rewrite nth_noslash by (done || lia).
  set (st1 := if Path.end_ st =? -1 then _ else st).
  assert (H1 : Path.startDot st1 = -1 ∧ Path.preDotState st1 = 0
               ∧ Path.startPart st1 = 0
               ∧ Path.end_ st1 = Z.of_nat (length cs)).
  { unfold st1. destruct (Z.eqb_spec (Path.end_ st) (-1)) as [E|E];
      cbn; repeat split; try done; lia. }
  destruct H1 as (Hd1 & Hp1 & Hs1 & He1). clearbody st1.
  destruct (Ascii.eqb (nth i cs "/"%char) ".") eqn:Edot.
  - rewrite Hd1. cbn [Z.eqb]. right. exists i.
    apply Ascii.eqb_eq in Edot.
    match goal with
    | |- context [Path.ext_loop cs i ?s] =>
        destruct (ext_loop_after_dot cs i s Hall ltac:(lia))
          as (-> & -> & -> & ->); cbn; try lia
    end.
    split; [lia|]. split; [done|]. split; [intros j Hj; lia|].
    repeat split; try done. by destruct i.
  - rewrite Hd1. cbn [Z.eqb negb].
    apply Ascii.eqb_neq in Edot.
    destruct (IH st1 ltac:(lia) Hd1 Hp1 Hs1 ltac:(by right))
      as [[Hnone Hno]|(d & Hdn & Hdot & Hlast & Hrest)].
    + left. split; [done|]. intros j Hj.
      destruct (decide (j = i)) as [->|Hji]; [done|]. apply Hno. lia.
    + right. exists d. split; [lia|]. split; [done|]. split; [|done].
      intros j Hj. destruct (decide (j = i)) as [->|Hji]; [done|].
      apply Hlast. lia.
Qed.

(** [path.extname] of a name without separator whose last dot is at
    [d]: the rest of the name from the dot on, unless the dot is the
    first character or the name is [..]. *)
Lemma extname_last_dot (name : string) (d : nat) :
  let cs := Js.chars name in
  Forall (fun c => c ≠ "/"%char) cs →
  (0 < d)%nat → (S d < length cs)%nat → nth d cs "/"%char = "."%char →
  (∀ i, (d < i < length cs)%nat → nth i cs "/"%char ≠ "."%char) →
  Path.extname name = Js.str (drop d cs).
Proof.
  intros cs Hall Hd0 Hdn Hdot Hlast. unfold Path.extname. fold cs.
  destruct (ext_loop_before_dot cs (length cs) Path.ext_scan0 Hall
              ltac:(lia) eq_refl eq_refl eq_refl ltac:(by left))
    as [[_ Hno]|(d' & Hd'n & Hdot' & Hlast' & -> & -> & -> & ->)].
  { exfalso. apply (Hno d); [lia|done]. }
  assert (d' = d) as ->.
  { destruct (Nat.lt_trichotomy d' d) as [Hlt|[->|Hgt]]; [|done|].
    - exfalso. apply (Hlast' d); [lia|done].
    - exfalso. apply (Hlast d'); [lia|done]. }
  destruct d as [|d]; [lia|].
  replace (Z.of_nat (S d) =? -1) with false by (symmetry; apply Z.eqb_neq; lia).
  replace (Z.of_nat (length cs) =? -1) with false
    by (symmetry; apply Z.eqb_neq; lia).
  replace (Z.of_nat (S d) =? Z.of_nat (length cs) - 1) with false
    by (symmetry; apply Z.eqb_neq; lia).
  rewrite andb_false_r. cbn [orb andb].
  destruct (Ascii.eqb (nth 0 cs "/"%char) "."); cbn [Z.eqb orb];
    unfold Js.slice; fold cs; rewrite Nat2Z.id;
    (rewrite take_ge; [done|]); rewrite length_drop; lia.
Qed.

(** Conversely, a non-empty extension starts at the last dot, which is
    not the first character. *)
Lemma extname_nonempty (name : string) :
  let cs := Js.chars name in
  Forall (fun c => c ≠ "/"%char) cs → Path.extname name ≠ "" →
  ∃ d, (0 < d < length cs)%nat ∧ Path.extname name = Js.str (drop d cs).
Proof.
  intros cs Hall. unfold Path.extname. fold cs.
  destruct (ext_loop_before_dot cs (length cs) Path.ext_scan0 Hall
              ltac:(lia) eq_refl eq_refl eq_refl ltac:(by left))
    as [[-> _]|(d & Hdn & Hdot & Hlast & -> & -> & -> & ->)]; [done|].
  destruct d as [|d]; [by rewrite orb_true_r|].
  destruct (_ || _); [done|]. intros _. exists (S d). split; [lia|].
  unfold Js.slice. fold cs. rewrite Nat2Z.id.
  rewrite take_ge; [done|]. rewrite length_drop. lia.
Qed.

Lemma basename_drop (name : string) (d : nat) :
  (0 < d < length (Js.chars name))%nat →
  Path.basename name (Js.str (drop d (Js.chars name)))
  = Js.str (take d (Js.chars name)).
Proof.
  set (cs := Js.chars name). intros Hd. unfold Path.basename.
  assert (Hlen : String.length (Js.str (drop d cs)) = (length cs - d)%nat)
    by (by rewrite length_chars, chars_str, length_drop).
  assert (Hlen' : String.length name = length cs) by apply length_chars.
  assert (Hne : Js.nonempty (Js.str (drop d cs)) = true).
  { rewrite nonempty_str. destruct (drop d cs) as [|c l] eqn:Edrop; [|done].
    apply (f_equal length) in Edrop. rewrite length_drop in Edrop.
    cbn in Edrop. lia. }
  rewrite Hne, Hlen, Hlen'. cbn [andb].
  destruct (Nat.leb_spec (length cs - d) (length cs)) as [_|?]; [|lia].
  destruct (String.eqb_spec (Js.str (drop d cs)) name) as [Heq|_].
  { apply (f_equal String.length) in Heq. lia. }
  unfold Js.endsWith. rewrite chars_str. fold cs.
  rewrite bool_decide_eq_true_2 by (exists (take d cs); by rewrite take_drop).
  unfold Js.slice. fold cs. rewrite drop_0. f_equal. f_equal. lia.
Qed.

Lemma last_join (dir : path) (name : string) :
  Path.name (Path.join dir name) = name.
Proof. unfold Path.name, Path.join. apply last_last. Qed.

(** A name made of a non-empty stem, a dot and a non-empty rest without
    dot, and no separator anywhere: the extension is the dot and the
    rest, and what [basename] leaves is the stem. *)
Lemma extname_stem_ext (stem : string) (e : list ascii) :
  let ext := Js.str ("."%char :: e) in
  Forall (fun c => c ≠ "/"%char) (Js.chars stem ++ "."%char :: e) →
  stem ≠ "" → e ≠ [] → Forall (fun c => c ≠ "."%char) e →
  Path.extname (stem +:+ ext) = ext
  ∧ Path.basename (stem +:+ ext) ext = stem.
Proof.
  intros ext Hall Hstem He Hnodot.
  assert (Hcs : Js.chars (stem +:+ ext) = Js.chars stem ++ "."%char :: e)
    by (unfold ext; by rewrite chars_app, chars_str).
  set (d := length (Js.chars stem)).
  assert (Hd : (0 < d)%nat).
  { unfold d. destruct stem; [done|]. cbn. lia. }
  assert (He' : (0 < length e)%nat) by (destruct e; [done|cbn; lia]).
  assert (Hdrop : drop d (Js.chars (stem +:+ ext)) = "."%char :: e)
    by (rewrite Hcs; unfold d; by rewrite drop_app_length).
  assert (Htake : take d (Js.chars (stem +:+ ext)) = Js.chars stem)
    by (rewrite Hcs; unfold d; by rewrite take_app_length).
  assert (Hext : Path.extname (stem +:+ ext) = ext).
  { rewrite (extname_last_dot (stem +:+ ext) d); rewrite ?Hcs;
      rewrite ?length_app; cbn [length]; try (done || lia).
    - by rewrite <- Hcs, Hdrop.
    - fold d. by rewrite app_nth2, Nat.sub_diag by (unfold d; lia).
    - fold d. intros i Hi. rewrite app_nth2 by (unfold d; lia). fold d.
      destruct (i - d)%nat as [|k] eqn:Ek; [lia|]. cbn [nth].
      rewrite List.Forall_forall in Hnodot. apply Hnodot, nth_In. lia. }
  split; [done|].
  replace ext with (Js.str (drop d (Js.chars (stem +:+ ext)))) at 2
    by (by rewrite Hdrop).
  rewrite basename_drop.
  - by rewrite Htake, str_chars.
  - rewrite Hcs, length_app. cbn [length]. fold d. lia.
Qed.

Lemma supported_shape (ext : string) :
  supportedExtensions_has ext = true →
  ∃ e, ext = Js.str ("."%char :: e) ∧ e ≠ []
       ∧ Forall (fun c => c ≠ "."%char) e.
Proof.
  intros Hs. apply supported_iff in Hs.
  unfold six_extensions in Hs. cbn [In] in Hs.
  repeat (destruct Hs as [<-|Hs];
          [match goal with
           | |- ∃ e, ?x = _ ∧ _ => exists (List.tl (Js.chars x))
           end;
           cbn; split; [reflexivity|split; [done|by repeat constructor]]|]).
  destruct Hs.
Qed.

Section NameProperties.

Context `{Platform}.

(** X14.  Names, the gate and the targets (lines 89-92, 192 and
    200-202), for a name without path separator.  The name passes the
    gate exactly when it is a non-empty stem followed by one of the six
    extensions; then [path.extname] is that extension, the target in the
    output directory is the stem with [.md], and the file the office
    suite is expected to write is the stem with [.docx] in the temporary
    directory.  So [.docx] alone is not eligible, and [a.docx] and
    [a.pdf] have the same target. *)
Theorem X14_eligible_names_and_targets (outputDir : path) (name : string)
    (kind : node) :
  Forall (fun c => c ≠ "/"%char) (Js.chars name) →
  (supportedExtensions_has (Path.extname name) = true
   ↔ ∃ stem ext, name = stem +:+ ext ∧ stem ≠ ""
                 ∧ supportedExtensions_has ext = true)
  ∧ ∀ stem ext,
      name = stem +:+ ext → stem ≠ "" →
      supportedExtensions_has ext = true →
      Path.extname name = ext
      ∧ targetPath_of outputDir {| Fs.name := name; Fs.kind := kind |}
        = Path.join outputDir (stem +:+ ".md")
      ∧ ∀ fs0 dir,
          docxPath_of fs0 (Path.join dir name)
          = Path.join (tempDir_of fs0) (stem +:+ ".docx").
Proof.
  intros Hall.
  assert (Hfwd : ∀ stem ext,
            name = stem +:+ ext → stem ≠ "" →
            supportedExtensions_has ext = true →
            Path.extname name = ext ∧ Path.basename name ext = stem).
  { intros stem ext -> Hstem Hs.
    destruct (supported_shape ext Hs) as (e & -> & He & Hnodot).
    apply extname_stem_ext; try done.
    by rewrite chars_app, chars_str in Hall. }
  split; [split|].
  - intros Hs.
    assert (Hne : Path.extname name ≠ "") by (by intros E; rewrite E in Hs).
    destruct (extname_nonempty name Hall Hne) as (d & Hd & Hext).
    exists (Js.str (take d (Js.chars name))), (Path.extname name).
    split; [|split; [|done]].
    + rewrite Hext at 1. by rewrite <- str_app, take_drop, str_chars.
    + intros E. apply (f_equal String.length) in E.
      rewrite length_chars, chars_str, length_take in E. cbn in E. lia.
  - intros (stem & ext & Hname & Hstem & Hs).
    by destruct (Hfwd stem ext Hname Hstem Hs) as [-> _].
  - intros stem ext Hname Hstem Hs.
    destruct (Hfwd stem ext Hname Hstem Hs) as [Hext Hbase].
    split; [done|]. split.
    + unfold targetPath_of. cbn [Fs.name]. by rewrite Hext, Hbase.
    + intros fs0 dir. unfold docxPath_of, Path.extname_of.
      by rewrite last_join, Hext, Hbase.
Qed.

End NameProperties.

(** * The text of a PDF as Markdown *)

Lemma trimStart_suffix (l : list ascii) :
  ∃ pre, l = pre ++ Js.trimStart_chars l.
Proof.
  induction l as [|c l [pre IH]]; [by exists []|]. cbn.
  destruct (Js.is_space c); [|by exists []].
  exists (c :: pre). cbn. by rewrite <- IH.
Qed.

Lemma trimStart_head (l : list ascii) (c : ascii) (l' : list ascii) :
  Js.trimStart_chars l = c :: l' → Js.is_space c = false.
Proof.
  induction l as [|d l IH]; [done|]. cbn.
  destruct (Js.is_space d) eqn:E; [done|]. by intros [= <- _].
Qed.

Lemma trimStart_fixed (c : ascii) (l : list ascii) :
  Js.is_space c = false → Js.trimStart_chars (c :: l) = c :: l.
Proof. intros Hc. cbn. by rewrite Hc. Qed.

(** What [trim] returns has no white space at either end. *)
Lemma trim_chars_ends (l : list ascii) :
  (∀ c m, Js.trim_chars l = c :: m → Js.is_space c = false)
  ∧ (∀ c m, Js.trim_chars l = m ++ [c] → Js.is_space c = false).
Proof.
  unfold Js.trim_chars, Js.trimEnd_chars.
  remember (Js.trimStart_chars l) as s eqn:Es.
  destruct (trimStart_suffix (rev s)) as [pre Hpre].
  remember (Js.trimStart_chars (rev s)) as x eqn:Ex.
  assert (Hs : s = rev x ++ rev pre).
  { rewrite <- (rev_involutive s), Hpre. by rewrite rev_app_distr. }
  split.
  - intros c m Hx. rewrite Hx in Hs. cbn in Hs.
    symmetry in Es. rewrite Hs in Es. by apply trimStart_head in Es.
  - intros c m Hx. apply (f_equal (@rev ascii)) in Hx.
    rewrite rev_involutive, rev_app_distr in Hx. cbn in Hx.
    symmetry in Ex. rewrite Hx in Ex. by apply trimStart_head in Ex.
Qed.

Lemma trim_chars_fixed (l : list ascii) :
  (∀ c m, l = c :: m → Js.is_space c = false) →
  (∀ c m, l = m ++ [c] → Js.is_space c = false) →
  Js.trim_chars l = l.
Proof.
  intros Hhead Hlast. unfold Js.trim_chars, Js.trimEnd_chars.
  assert (Hs : Js.trimStart_chars l = l).
  { destruct l as [|c m]; [done|]. apply trimStart_fixed. by eapply Hhead. }
  rewrite Hs. destruct (rev l) as [|c m] eqn:Er.
  - by rewrite <- (rev_involutive l), Er.
  - rewrite trimStart_fixed; [by rewrite <- Er, rev_involutive|].
    apply (Hlast c (rev m)). by rewrite <- (rev_involutive l), Er.
Qed.

Lemma trim_chars_idempotent (l : list ascii) :
  Js.trim_chars (Js.trim_chars l) = Js.trim_chars l.
Proof.
  destruct (trim_chars_ends l) as [Hhead Hlast]. by apply trim_chars_fixed.
Qed.

Lemma trim_chars_In (l : list ascii) (c : ascii) :
  In c (Js.trim_chars l) → In c l.
Proof.
  unfold Js.trim_chars, Js.trimEnd_chars. intros Hc.
  apply in_rev in Hc.
  destruct (trimStart_suffix (rev (Js.trimStart_chars l))) as [pre Hpre].
  assert (Hc' : In c (rev (Js.trimStart_chars l)))
    by (rewrite Hpre; apply in_or_app; by right).
  apply in_rev in Hc'.
  destruct (trimStart_suffix l) as [pre' Hpre'].
  rewrite Hpre'. apply in_or_app. by right.
Qed.

(** *** Splitting at line feeds *)

Lemma split_no_sep (sep : ascii) (cur l : list ascii) :
  ¬ In sep l → Js.split_chars sep cur l = [rev cur ++ l].
Proof.
  revert cur. induction l as [|c l IH]; intros cur Hno; cbn.
  - by rewrite app_nil_r.
  - destruct (Ascii.eqb_spec c sep) as [->|Hne].
    + destruct Hno. by left.
    + rewrite IH by (intros ?; apply Hno; by right).
      cbn. by rewrite <- app_assoc.
Qed.

Lemma split_at_sep (sep : ascii) (cur l rest : list ascii) :
  ¬ In sep l →
  Js.split_chars sep cur (l ++ sep :: rest)
  = (rev cur ++ l) :: Js.split_chars sep [] rest.
Proof.
  revert cur. induction l as [|c l IH]; intros cur Hno; cbn.
  - by rewrite Ascii.eqb_refl, app_nil_r.
  - destruct (Ascii.eqb_spec c sep) as [->|Hne].
    + destruct Hno. by left.
    + rewrite IH by (intros ?; apply Hno; by right).
      cbn. by rewrite <- app_assoc.
Qed.

Lemma split_pieces (sep : ascii) (cur l : list ascii) (p : list ascii) :
  ¬ In sep cur → In p (Js.split_chars sep cur l) → ¬ In sep p.
Proof.
  revert cur. induction l as [|c l IH]; intros cur Hcur; cbn.
  - intros [<-|[]] Hin. apply Hcur. by apply in_rev.
  - destruct (Ascii.eqb_spec c sep) as [->|Hne].
    + intros [<-|Hp]; [intros Hin; apply Hcur; by apply in_rev|].
      apply (IH []); [by intros []|done].
    + apply IH. intros [?|?]; [congruence|done].
Qed.

(** *** The paragraphs of the result *)

Lemma chars_join (ls : list (list ascii)) :
  Js.chars (Js.join LFLF (map Js.str ls)) = paragraphs ls.
Proof.
  induction ls as [|l ls IH]; [done|].
  destruct ls as [|l' ls]; [apply chars_str|].
  change (Js.chars (Js.str l +:+ LFLF
                    +:+ Js.join LFLF (map Js.str (l' :: ls)))
          = l ++ LF :: LF :: paragraphs (l' :: ls)).
  by rewrite !chars_app, chars_str, IH.
Qed.

Lemma tidy_kept (l : list ascii) :
  tidy l → blank (Js.str l) = false ∧ Js.trim (Js.str l) = Js.str l.
Proof.
  intros (Hne & _ & Hfix).
  assert (Htrim : Js.trim (Js.str l) = Js.str l)
    by (unfold Js.trim; by rewrite chars_str, Hfix).
  split; [|done].
  pose proof (trim_truthy (Js.str l)) as Ht. rewrite Htrim, nonempty_str in Ht.
  destruct l; [done|]. by destruct (blank _).
Qed.

Lemma kept_lines (ls : list (list ascii)) :
  Forall tidy ls →
  map Js.trim
    (List.filter (fun line => negb (blank line))
       (map Js.str (lines_of (paragraphs ls))))
  = map Js.str ls.
Proof.
  unfold lines_of. induction ls as [|l ls IH]; intros Hall; [done|].
  apply Forall_cons in Hall as [Hl Hls].
  destruct (tidy_kept l Hl) as [Hblank Htrim].
  destruct Hl as (_ & Hno & _).
  destruct ls as [|l' ls].
  - cbn [paragraphs]. rewrite split_no_sep by done.
    cbn [rev app map List.filter]. rewrite Hblank. cbn [negb map].
    by rewrite Htrim.
  - change (paragraphs (l :: l' :: ls))
      with (l ++ LF :: LF :: paragraphs (l' :: ls)).
    rewrite split_at_sep by done.
    change (Js.split_chars LF [] (LF :: paragraphs (l' :: ls)))
      with ([] :: Js.split_chars LF [] (paragraphs (l' :: ls))).
    cbn [rev app map List.filter]. rewrite Hblank.
    change (blank (Js.str [])) with true. cbn [negb map].
    by rewrite Htrim, IH.
Qed.

(** A text made of tidy paragraphs is left as it is. *)
Lemma pdf_markdown_fixed (ls : list (list ascii)) :
  Forall tidy ls →
  pdf_markdown (Js.join LFLF (map Js.str ls))
  = Js.join LFLF (map Js.str ls).
Proof.
  intros Hall. rewrite pdf_markdown_spec at 1.
  unfold pdf_reformat_spec, Js.split. rewrite chars_join.
  fold (lines_of (paragraphs ls)). by rewrite kept_lines.
Qed.

(** The result is made of tidy paragraphs. *)
Lemma pdf_markdown_tidy (text : string) :
  ∃ ls, pdf_markdown text = Js.join LFLF (map Js.str ls) ∧ Forall tidy ls.
Proof.
  exists (map Js.trim_chars
            (List.filter (fun p => negb (blank (Js.str p)))
               (lines_of (Js.chars text)))).
  split.
  - rewrite pdf_markdown_spec. unfold pdf_reformat_spec, Js.split.
    fold (lines_of (Js.chars text)). f_equal.
    induction (lines_of (Js.chars text)) as [|p ps IH]; [done|].
    cbn [map List.filter]. destruct (negb (blank (Js.str p))); [|done].
    cbn [map]. rewrite IH. f_equal. unfold Js.trim. by rewrite chars_str.
  - apply List.Forall_forall. intros l Hl.
    apply in_map_iff in Hl as (p & <- & Hp).
    apply filter_In in Hp as [Hp Hkeep].
    split; [|split].
    + pose proof (trim_truthy (Js.str p)) as Ht. rewrite Hkeep in Ht.
      unfold Js.trim in Ht. rewrite chars_str, nonempty_str in Ht.
      by destruct (Js.trim_chars p).
    + intros Hin. apply trim_chars_In in Hin.
      apply (split_pieces LF [] (Js.chars text) p); [by intros []|done..].
    + apply trim_chars_idempotent.
Qed.

(** X15.  The Markdown made of the text of a PDF (lines 110-118) is in
    normal form: it consists of paragraphs with one empty line between
    them, each paragraph one non-empty line without white space at
    either end; a text of that form is returned as it is; so applying
    the reformatting to its own result changes nothing. *)
Theorem X15_pdf_markdown_normal_form (text : string) :
  (∃ ls, pdf_markdown text = Js.join LFLF (map Js.str ls) ∧ Forall tidy ls)
  ∧ (∀ ls, Forall tidy ls →
           pdf_markdown (Js.join LFLF (map Js.str ls))
           = Js.join LFLF (map Js.str ls))
  ∧ pdf_markdown (pdf_markdown text) = pdf_markdown text.
Proof.
  split; [apply pdf_markdown_tidy|]. split; [apply pdf_markdown_fixed|].
  destruct (pdf_markdown_tidy text) as (ls & -> & Hall).
  by apply pdf_markdown_fixed.
Qed.

(** * The further properties at work on the demonstration disk *)

Lemma X1_dispatch_ignores_case_witness :
  convertDocument (H := Demo.platform) ["in"; "d.txt"] (Demo.world Demo.disk)
  = (Throw (UnsupportedFileType ["in"; "d.txt"]),
     observe (Adapter ["in"; "d.txt"]) (Demo.world Demo.disk))
  ∧ supportedExtensions_has (Path.extname_of ["in"; "e.Docx"]) = false
  ∧ ∀ p, (convertDocument (H := Demo.platform) ["in"; "e.Docx"]
            (Demo.world Demo.disk)).1 ≠ Throw (UnsupportedFileType p).
Proof.
  split; [|split; [by vm_compute|]].
  - apply (proj1 (X1_dispatch_ignores_case (H := Demo.platform)
                    ["in"; "d.txt"] (Demo.world Demo.disk)));
      by vm_compute.
  - apply (proj2 (X1_dispatch_ignores_case (H := Demo.platform)
                    ["in"; "e.Docx"] (Demo.world Demo.disk))).
    left. by vm_compute.
Defined.

Lemma X3_missing_artifact_witness :
  (convertDocument (H := silent_platform) ["in"; "c.doc"]
     (Demo.world Demo.disk)).1
  = Throw (SysError ENOENT SysAccess ["tmp"; "input-docx-abc123"; "c.docx"])
  ∧ trace (convertDocument (H := silent_platform) ["in"; "c.doc"]
             (Demo.world Demo.disk)).2
    = [Adapter ["in"; "c.doc"];
       FsCall SysMkdtemp ["tmp"; "input-docx-"];
       SofficeCall ["in"; "c.doc"] ["tmp"; "input-docx-abc123"];
       FsCall SysAccess ["tmp"; "input-docx-abc123"; "c.docx"]].
Proof.
  apply (X3_missing_artifact (H := silent_platform) ["in"; "c.doc"]
           (Demo.world Demo.disk) None).
  - by vm_compute.
  - exact demo_disk_wf.
  - reflexivity.
  - reflexivity.
  - by vm_compute.
Defined.

Lemma X4_doc_as_native_docx_witness :
  (convertDocument (H := Demo.platform) ["in"; "c.doc"]
     (Demo.world ((["in"; "n.docx"], File "docx:C") :: Demo.disk))).1
  = (convertDocument (H := Demo.platform) ["in"; "n.docx"]
       (Demo.world ((["in"; "n.docx"], File "docx:C") :: Demo.disk))).1.
Proof.
  apply (X4_doc_as_native_docx (H := Demo.platform) ["in"; "c.doc"]
           ["in"; "n.docx"]
           (Demo.world ((["in"; "n.docx"], File "docx:C") :: Demo.disk))).
  - by vm_compute.
  - by vm_compute.
  - reflexivity.
  - reflexivity.
  - vm_compute. by eexists.
  - by vm_compute.
Defined.


Lemma X7_only_eligible_files_witness :
  let fs1 := <[ ["out"] := Dir ]> (fs (Demo.world Demo.disk)) in
  let entries := omap (Fs.entry_of ["in"]) (map_to_list fs1) in
  ∃ tr,
    since (Demo.world Demo.disk)
      (convertDirectory (H := Demo.platform) ["in"] ["out"] false
         (Demo.world Demo.disk)).2
      (setup_events ["in"] ["out"] false ++ tr)
    ∧ Forall (for_eligible ["in"] ["out"] entries) tr.
Proof.
  apply (proj2 (X7_only_eligible_files (H := Demo.platform) ["in"] ["out"]
                  false (Demo.world Demo.disk)
                  (<[ ["out"] := Dir ]> (fs (Demo.world Demo.disk)))
                  _ eq_refl eq_refl)).
Defined.

Lemma X8_clear_empties_output_directory_witness :
  let fs1 :=
    <[ ["in"] := Dir ]>
      (Fs.rm_recursive_force (fs (Demo.world Demo.disk)) ["in"]) in
  fs1 !! ["in"; "a.docx"] = None
  ∧ Fs.readdir fs1 ["in"] = Ok []
  ∧ convertDirectory (H := Demo.platform) ["in"] ["in"] true
      (Demo.world Demo.disk)
    = (Ok tt,
       observe (Console ConsoleWarn (MsgNoSupported ["in"]))
         (setup_world ["in"] ["in"] true fs1 (Demo.world Demo.disk)))
  ∧ convertDirectory (H := Demo.platform) ["in"; "sub.pdf"] ["in"] true
      (Demo.world Demo.disk)
    = (Throw (SysError ENOENT SysReaddir ["in"; "sub.pdf"]),
       setup_world ["in"; "sub.pdf"] ["in"] true fs1 (Demo.world Demo.disk)).
Proof.
  intros fs1.
  destruct (X8_clear_empties_output_directory (H := Demo.platform)
              ["in"] ["in"] (Demo.world Demo.disk) fs1 eq_refl)
    as (_ & Hbelow & Hrd & Hsame & _).
  destruct (X8_clear_empties_output_directory (H := Demo.platform)
              ["in"; "sub.pdf"] ["in"] (Demo.world Demo.disk) fs1 eq_refl)
    as (_ & _ & _ & _ & Hlow).
  split; [|split; [exact Hrd|split; [by apply Hsame|]]].
  - apply Hbelow; [by exists ["a.docx"]|done].
  - apply Hlow; [exact demo_disk_wf|by exists ["sub.pdf"]|done].
Defined.


Lemma X10_single_file_frame_witness :
  fs (convertSingleFile (H := Demo.platform) ["in"; "b.pdf"]
        ["in"; "d.txt"] true (Demo.world Demo.disk)).2
  !! ["in"; "a.docx"] = Some (File "A").
Proof.
  apply (proj2 (X10_single_file_frame (H := Demo.platform) ["in"; "b.pdf"]
                  ["in"; "d.txt"] true (Demo.world Demo.disk)
                  demo_disk_wf)).
  - by vm_compute.
  - by right.
Defined.

Lemma X12_directory_frame_witness :
  fs (convertDirectory (H := Demo.platform) ["in"] ["out"] true
        (Demo.world Demo.disk)).2
  !! ["in"; "d.txt"] = Some (File "D").
Proof.
  apply (proj2 (X12_directory_frame (H := Demo.platform) ["in"] ["out"]
                  true (Demo.world Demo.disk) demo_disk_wf)).
  - by vm_compute.
  - right. intros [l Hl]. discriminate Hl.
Defined.

Lemma X13_main_frame_witness :
  Fs.wf (fs (main (H := Demo.platform) ["in"] ["in"] true
               (Demo.world Demo.disk)).2)
  ∧ fs (main (H := Demo.platform) ["in"] ["in"] true
          (Demo.world Demo.disk)).2
    !! ["tmp"] = Some Dir.
Proof.
  destruct (X13_main_frame (H := Demo.platform) ["in"] ["in"] true
              (Demo.world Demo.disk) demo_disk_wf) as [Hwf Hkeep].
  split; [exact Hwf|]. apply Hkeep; [by vm_compute|].
  right. intros [l Hl]. discriminate Hl.
Defined.

Lemma X14_eligible_names_and_targets_witness :
  Path.extname "a.docx" = ".docx"
  ∧ targetPath_of ["out"] {| Fs.name := "a.docx"; Fs.kind := File "A" |}
    = ["out"; "a.md"]
  ∧ docxPath_of (H := Demo.platform) ∅ ["in"; "a.docx"]
    = ["tmp"; "input-docx-abc123"; "a.docx"].
Proof.
  assert (Hall : Forall (fun c => c ≠ "/"%char) (Js.chars "a.docx"))
    by (cbn; by repeat constructor).
  destruct (proj2 (X14_eligible_names_and_targets (H := Demo.platform)
                     ["out"] "a.docx" (File "A") Hall)
              "a" ".docx" eq_refl) as (He & Ht & Hd); [done..|].
  split; [exact He|]. split; [exact Ht|]. exact (Hd ∅ ["in"]).
Defined.

Lemma X16_single_file_second_run_witness :
  let w' := (convertSingleFile (H := Demo.platform) ["in"; "a.docx"]
               ["out"; "a.md"] false (Demo.world Demo.disk)).2 in
  convertSingleFile (H := Demo.platform) ["in"; "b.pdf"] ["out"; "a.md"]
    false w'
  = (Ok tt,
     observe (Console ConsoleLog (MsgSkipping ["out"; "a.md"]))
       (probed ["out"; "a.md"] (fs w') w')).
Proof.
  intros w'.
  apply (X16_single_file_second_run (H := Demo.platform) ["in"; "a.docx"]
           ["in"; "b.pdf"] ["out"; "a.md"] false (Demo.world Demo.disk) w'
           demo_disk_wf).
  - unfold w'. rewrite (surjective_pairing (convertSingleFile _ _ _ _)).
    by f_equal.
  - by vm_compute.
Defined.

Lemma same_stem_disk_wf : Fs.wf (fs (Demo.world same_stem_disk)).
Proof. apply (@bool_decide_unpack _ (Fs.wf_dec _)). by vm_compute. Qed.

Lemma X17_first_of_same_target_wins_witness :
  let docx := {| Fs.name := "a.docx"; Fs.kind := File "A" |} in
  let pdf := {| Fs.name := "a.pdf"; Fs.kind := File "corrupt" |} in
  let w1 := (convertEntry (H := Demo.platform) ["in"] ["out"] false docx
               (Demo.world same_stem_disk)).2 in
  let w' := (forOf [docx; pdf]
               (convertEntry (H := Demo.platform) ["in"] ["out"] false)
               (Demo.world same_stem_disk)).2 in
  fs w1 !! ["out"; "a.md"] = Some (File "html:A")
  ∧ ∃ tr, since w1 w' tr
          ∧ In (Console ConsoleLog (MsgSkipping ["out"; "a.md"])) tr
          ∧ ¬ In (Adapter ["in"; "a.pdf"]) tr
          ∧ ¬ In (FsCall SysWriteFile ["out"; "a.md"]) tr
          ∧ fs w' !! ["out"; "a.md"] = fs w1 !! ["out"; "a.md"].
Proof.
  intros docx pdf w1 w'.
  assert (Hthere : fs w1 !! ["out"; "a.md"] = Some (File "html:A"))
    by (by vm_compute).
  split; [exact Hthere|].
  apply (X17_first_of_same_target_wins (H := Demo.platform) ["in"] ["out"]
           docx pdf [pdf] (Demo.world same_stem_disk) same_stem_disk_wf).
  - eexists. exact Hthere.
  - by left.
  - reflexivity.
Defined.

Lemma X18_failed_entry_destroys_target_witness :
  let docx := {| Fs.name := "a.docx"; Fs.kind := File "A" |} in
  let pdf := {| Fs.name := "a.pdf"; Fs.kind := File "corrupt" |} in
  let w1 := (convertEntry (H := Demo.platform) ["in"] ["out"] true docx
               (Demo.world same_stem_disk)).2 in
  fs w1 !! ["out"; "a.md"] = Some (File "html:A")
  ∧ (∀ c', fs (convertEntry (H := Demo.platform) ["in"] ["out"] true pdf
                 w1).2 !! ["out"; "a.md"] ≠ Some (File c'))
  ∧ last (trace (convertEntry (H := Demo.platform) ["in"] ["out"] true pdf
                   w1).2)
    = Some (Console ConsoleError
              (MsgFailedConvert ["in"; "a.pdf"]
                 (LibraryError "pdf-parse" "cannot parse"))).
Proof.
  intros docx pdf w1.
  assert (Hthere : fs w1 !! ["out"; "a.md"] = Some (File "html:A"))
    by (by vm_compute).
  split; [exact Hthere|].
  apply (X18_failed_entry_destroys_target (H := Demo.platform) ["in"]
           ["out"] pdf w1 "html:A"
           (LibraryError "pdf-parse" "cannot parse")).
  - apply (@bool_decide_unpack _ (Fs.wf_dec _)). by vm_compute.
  - exact Hthere.
  - by vm_compute.
Defined.
